(** * The phpdoc front end of the KPHP compiler (compiler/phpdoc.cpp)

    A shallow embedding of the tag extractor ([parse_php_doc]), the
    tag-value tokenizer ([get_value_token]), the by-kind lookup
    ([find_tag_in_phpdoc]) and the recursive-descent type-rule parser
    ([PhpDocTypeRuleParser]), followed by the properties established
    about them. *)

From Stdlib Require Import String Ascii List ZArith Bool Arith Lia.
Import ListNotations.

#[local] Set Warnings "-register-all".

Local Open Scope char_scope.
Local Open Scope string_scope.
Local Open Scope nat_scope.

(** ** Strings as the code indexes them

    [std::string] and [vk::string_view] are byte strings addressed by
    position. *)

Module Str.

(** [s[pos]]: the byte at [pos]; reading at the end of a [std::string]
    yields the terminating NUL, which is the reading kept here for a
    position past the last byte. *)
Definition at_ (s : string) (pos : nat) : ascii :=
  match String.get pos s with
  | Some c => c
  | None => "000"
  end.

(** [s.substr(pos, n)]: at most [n] bytes from [pos]. *)
Definition substr (s : string) (pos n : nat) : string := substring pos n s.

(** [s.substr(pos)]: everything from [pos] on. *)
Definition substr_from (s : string) (pos : nat) : string :=
  substring pos (String.length s - pos) s.

(** [s.find(c, from)]: position of the first [c] at or after [from];
    [None] stands for [npos]. *)
Fixpoint find (c : ascii) (s : string) (from : nat) : option nat :=
  match s with
  | EmptyString => None
  | String a s' =>
      match from with
      | 0 => if Ascii.eqb a c then Some 0 else option_map S (find c s' 0)
      | S k => option_map S (find c s' k)
      end
  end.

(** [s.starts_with(p)]. *)
Definition starts_with (s p : string) : bool := String.prefix p s.

(** [s.ends_with(p)]. *)
Definition ends_with (s p : string) : bool :=
  (String.length p <=? String.length s)
  && String.eqb (substr_from s (String.length s - String.length p)) p.

(** Number of leading blanks: the run a [while (s[pos] == ' ') ++pos]
    loop walks over. *)
Fixpoint leading_spaces (s : string) : nat :=
  match s with
  | String " " s' => S (leading_spaces s')
  | _ => 0
  end.

(** [isalnum] in the C locale. *)
Definition isalnum (c : ascii) : bool :=
  (Ascii.leb "0" c && Ascii.leb c "9")
  || (Ascii.leb "A" c && Ascii.leb c "Z")
  || (Ascii.leb "a" c && Ascii.leb c "z").

Definition tab : ascii := "009".
Definition newline : ascii := "010".

End Str.

(** ** Tags *)

(** Modelled from the spec: the enumeration [php_doc_tag::doc_type] is
    declared in compiler/phpdoc.h, which is not among the sources; its
    members are the kinds the table [str2doc_type] names, and
    [unknown], the kind an unmatched name receives. *)
Inductive doc_type : Type :=
| unknown
| param
| kphp_inline
| kphp_infer
| kphp_required
| kphp_lib_export
| kphp_sync
| var
| returns
| kphp_disable_warnings
| kphp_extern_func_info
| kphp_pure_function
| kphp_template
| kphp_return
| kphp_memcache_class
| kphp_immutable_class
| kphp_tl_class
| kphp_const.

Definition doc_type_eqb (a b : doc_type) : bool :=
  match a, b with
  | unknown, unknown | param, param | kphp_inline, kphp_inline
  | kphp_infer, kphp_infer | kphp_required, kphp_required
  | kphp_lib_export, kphp_lib_export | kphp_sync, kphp_sync
  | var, var | returns, returns
  | kphp_disable_warnings, kphp_disable_warnings
  | kphp_extern_func_info, kphp_extern_func_info
  | kphp_pure_function, kphp_pure_function
  | kphp_template, kphp_template | kphp_return, kphp_return
  | kphp_memcache_class, kphp_memcache_class
  | kphp_immutable_class, kphp_immutable_class
  | kphp_tl_class, kphp_tl_class | kphp_const, kphp_const => true
  | _, _ => false
  end.

Definition str2doc_type : list (string * doc_type) :=
  [ ("@param",                 param);
    ("@kphp-inline",           kphp_inline);
    ("@kphp-infer",            kphp_infer);
    ("@kphp-required",         kphp_required);
    ("@kphp-lib-export",       kphp_lib_export);
    ("@kphp-sync",             kphp_sync);
    ("@type",                  var);
    ("@var",                   var);
    ("@return",                returns);
    ("@returns",               returns);
    ("@kphp-disable-warnings", kphp_disable_warnings);
    ("@kphp-extern-func-info", kphp_extern_func_info);
    ("@kphp-pure-function",    kphp_pure_function);
    ("@kphp-template",         kphp_template);
    ("@kphp-return",           kphp_return);
    ("@kphp-memcache-class",   kphp_memcache_class);
    ("@kphp-immutable-class",  kphp_immutable_class);
    ("@kphp-tl-class",         kphp_tl_class);
    ("@kphp-const",            kphp_const) ]%string.

(** Modelled from the spec: [php_doc_tag::get_doc_type] is declared in
    compiler/phpdoc.h, which is not among the sources; the kind is the
    exact-match lookup of the name in [str2doc_type], and a name
    outside the table is kept with the kind [unknown]. *)
Fixpoint lookup_doc_type (tbl : list (string * doc_type)) (name : string) : doc_type :=
  match tbl with
  | [] => unknown
  | (k, d) :: tbl' => if String.eqb k name then d else lookup_doc_type tbl' name
  end.

Definition get_doc_type (name : string) : doc_type := lookup_doc_type str2doc_type name.

(** Modelled from the spec: [struct php_doc_tag] is declared in
    compiler/phpdoc.h, which is not among the sources; a tag has its
    name, its kind, its value and the source line [line_num], which is
    unset ([None]) as long as [parse_php_doc] has not assigned it. *)
Record php_doc_tag : Type := mk_tag {
  name : string;
  type : doc_type;
  value : string;
  line_num : option Z
}.

Definition empty_tag : php_doc_tag := mk_tag "" unknown "" None.

(** ** The tag-value tokenizer: [php_doc_tag::get_value_token] *)

Definition varg_dots_dollar : string := " ...$".

(** [chars_offset] is a [size_t] in the code and a natural number
    here: the two agree as long as the offset, with the leading blanks
    counted onto it, stays within the range of [size_t], as it does
    for an offset within the value. *)
Definition get_value_token (value : string) (chars_offset : nat) : string :=
  let len := String.length value in
  (* left trim: every leading blank also moves the offset *)
  let chars_offset := chars_offset + Str.leading_spaces value in
  (* blanks at the offset itself *)
  let chars_offset :=
    chars_offset + Str.leading_spaces (Str.substr_from value chars_offset) in
  if len <=? chars_offset then ""%string
  else
    match Str.find " " value chars_offset with
    | None => Str.substr_from value chars_offset
    | Some pos =>
        let pos :=
          if (pos + String.length varg_dots_dollar <? String.length value)
             && String.eqb (Str.substr value pos (String.length varg_dots_dollar))
                           varg_dots_dollar
          then pos + (String.length varg_dots_dollar - 1)   (* '$' stays for the next token *)
          else pos in
        Str.substr value chars_offset (pos - chars_offset)
    end.

(** ** The tag extractor: [parse_php_doc] *)

Definition back (lines : list string) : string := last lines ""%string.
Definition set_back (lines : list string) (x : string) : list string :=
  removelast lines ++ [x].

Definition is_blank (c : ascii) : bool := Ascii.eqb c " " || Ascii.eqb c Str.tab.

(** The character loop.  [None] is the early return under
    [kphp_error(0, "failed to parse php_doc")]. *)
Fixpoint scan_lines (phpdoc : string) (lines : list string) (have_star : bool)
  : option (list string) :=
  match phpdoc with
  | EmptyString => Some lines
  | String c rest =>
      if negb have_star then
        if is_blank c then scan_lines rest lines have_star
        else if Ascii.eqb c "*" then scan_lines rest lines true
        else None
      else if Ascii.eqb c Str.newline then scan_lines rest (lines ++ [""%string]) false
      else if (String.length (back lines) =? 0) && is_blank c
           then scan_lines rest lines have_star
      else scan_lines rest (set_back lines (back lines ++ String c "")) have_star
  end.

Definition tag_back (result : list php_doc_tag) : php_doc_tag := last result empty_tag.
Definition set_tag_back (result : list php_doc_tag) (t : php_doc_tag) : list php_doc_tag :=
  removelast result ++ [t].

(** What the first half of the loop body does with line [i]: continue
    the tag being built, or open a new one. *)
Definition add_line (result : list php_doc_tag) (line : string) : list php_doc_tag :=
  if negb (Ascii.eqb (Str.at_ line 0) "@") then
    let t := tag_back result in
    set_tag_back result
      (mk_tag (name t) (type t) (value t ++ String " " line) (line_num t))
  else
    let pos := Str.find " " line 0 in
    let nm := match pos with
              | Some p => Str.substr line 0 p
              | None => line
              end in
    let v := match pos with
             | Some p => Str.substr_from line (p + 1)
             | None => ""%string
             end in
    result ++ [mk_tag nm (get_doc_type nm) v None].

(** The second half: the line number of the tag at the back. *)
Definition set_line_num (line_num_of_function_declaration : Z) (n i : nat)
           (result : list php_doc_tag) : list php_doc_tag :=
  if (0 <? line_num_of_function_declaration)%Z then
    let new_line_num :=
      (line_num_of_function_declaration - (Z.of_nat n - Z.of_nat i))%Z in
    let t := tag_back result in
    set_tag_back result
      (mk_tag (name t) (type t) (value t)
              (Some (Z.min new_line_num (line_num_of_function_declaration - 2))))
  else result.

(** [for (int i = 0; i < lines.size(); i++)], entered at index [i] with
    the lines from [i] on still to do; [n] is [lines.size()]. *)
Fixpoint tags_loop (line_num_of_function_declaration : Z) (n : nat)
         (todo : list string) (i : nat) (result : list php_doc_tag)
  : list php_doc_tag :=
  match todo with
  | [] => result
  | line :: todo' =>
      tags_loop line_num_of_function_declaration n todo' (S i)
        (set_line_num line_num_of_function_declaration n i (add_line result line))
  end.

Definition tags_of_lines (line_num_of_function_declaration : Z) (lines : list string)
  : list php_doc_tag :=
  tags_loop line_num_of_function_declaration (List.length lines) lines 0 [empty_tag].

Definition msg_failed_php_doc : string := "failed to parse php_doc".

(** [parse_php_doc]: the tags, and the errors reported through
    [kphp_error].  [line_num_of_function_declaration] is what
    [stage::get_line()] returns. *)
Definition parse_php_doc (line_num_of_function_declaration : Z) (phpdoc : string)
  : list php_doc_tag * list string :=
  match scan_lines phpdoc [""%string] false with
  | None => ([], [msg_failed_php_doc])
  | Some lines => (tags_of_lines line_num_of_function_declaration lines, [])
  end.

(** ** Lookup by kind: [find_tag_in_phpdoc], [is_tag_in_phpdoc] *)

(** The body of the [if] in [find_tag_in_phpdoc]: the pair
    [(out_var_name, out_type_str)] for the tag that was found.  The
    first token is read by [get_value_token()], whose default
    argument, declared in the header, is the offset 0. *)
Definition split_var_and_type (tag : php_doc_tag) : string * string :=
  let a1 := get_value_token (value tag) 0 in
  let a2 := get_value_token (value tag) (String.length a1) in
  if negb (String.length a1 =? 0) && Ascii.eqb (Str.at_ a1 0) "$" then
    (Str.substr_from a1 1, a2)
  else if negb (String.length a2 =? 0) && Ascii.eqb (Str.at_ a2 0) "$" then
    (Str.substr_from a2 1, a1)
  else (""%string, a1).

(** The loop over the tags, with the running [idx]. *)
Fixpoint find_tag_loop (tags : list php_doc_tag) (kind : doc_type)
         (idx offset : Z) : option (string * string) :=
  match tags with
  | [] => None
  | tag :: tags' =>
      if doc_type_eqb (type tag) kind then
        if (offset <=? idx)%Z then Some (split_var_and_type tag)
        else find_tag_loop tags' kind (idx + 1)%Z offset
      else find_tag_loop tags' kind idx offset
  end.

(** [find_tag_in_phpdoc]: [Some (var_name, type_str)] when it returns
    [true], [None] when it returns [false]. *)
Definition find_tag_in_phpdoc (line : Z) (phpdoc : string) (kind : doc_type) (offset : Z)
  : option (string * string) :=
  find_tag_loop (fst (parse_php_doc line phpdoc)) kind 0%Z offset.

Definition is_tag_in_phpdoc (line : Z) (phpdoc : string) (kind : doc_type) : bool :=
  existsb (fun tag => doc_type_eqb (type tag) kind) (fst (parse_php_doc line phpdoc)).

(** ** Type expressions *)

(** Modelled from the spec: [PrimitiveType] is declared outside the
    sources; these are the members the parser names. *)
Inductive PrimitiveType : Type :=
| tp_Unknown | tp_False | tp_bool | tp_int | tp_float | tp_string
| tp_array | tp_var | tp_tuple | tp_future | tp_void | tp_Class.

(** Modelled from the spec: the class record is declared outside the
    sources; the parser reads its name and whether it is a trait
    ([klass->get_name()], [klass->is_trait()]). *)
Record ClassData : Type := mk_class {
  get_name : string;
  is_trait : bool
}.

(** [ClassPtr]: [None] is the null pointer. *)
Definition ClassPtr : Type := option ClassData.

(** Modelled from the spec: the vertex classes are declared in
    compiler/vertex.h, which is not among the sources; the parser
    creates [op_type_expr_type] with its [type_help] and its children
    (the spec's [Primitive], [ArrayOf] and [Parameterized]),
    [op_type_expr_class] with its class pointer (the spec's
    [ClassRef]) and [op_type_expr_lca] with its two children (the
    spec's [Union]). *)
Inductive Vertex : Type :=
| op_type_expr_type (type_help : PrimitiveType) (children : list Vertex)
| op_type_expr_class (class_ptr : ClassPtr)
| op_type_expr_lca (lhs rhs : Vertex).

(** [VertexPtr]: [None] is the empty [VertexPtr()]. *)
Definition VertexPtr : Type := option Vertex.

(** The names of the spec's data model. *)
Definition Primitive (k : PrimitiveType) : Vertex := op_type_expr_type k [].
Definition ArrayOf (inner : Vertex) : Vertex := op_type_expr_type tp_array [inner].
Definition Union (l r : Vertex) : Vertex := op_type_expr_lca l r.
Definition Parameterized (k : PrimitiveType) (args : list Vertex) : Vertex :=
  op_type_expr_type k args.
Definition ClassRef (klass : ClassPtr) : Vertex := op_type_expr_class klass.

Definition create_type_help_vertex (t : PrimitiveType) : Vertex := op_type_expr_type t [].

(** Modelled from the spec: [GenTree::create_type_help_class_vertex] is
    defined in compiler/gentree.cpp, which is not among the sources; it
    makes the class-reference vertex (the spec's [ClassRef]) for the
    class pointer it is given. *)
Definition create_type_help_class_vertex (klass : ClassPtr) : Vertex := op_type_expr_class klass.

Definition is_lca (v : Vertex) : bool :=
  match v with
  | op_type_expr_lca _ _ => true
  | _ => false
  end.

(** ** Parser state and diagnostics *)

(** What a parse changes besides its position: the parser's
    [unknown_classes_list], and the errors reported to the compiler. *)
Record PState : Type := mk_state {
  unknown_classes_list : list string;
  errors : list string
}.

Definition init_state : PState := mk_state [] [].

Definition push_unknown_class (class_name : string) (st : PState) : PState :=
  mk_state (unknown_classes_list st ++ [class_name]) (errors st).

Definition report (msg : string) (st : PState) : PState :=
  mk_state (unknown_classes_list st) (errors st ++ [msg]).

(** Modelled from the spec: the macro [kphp_error] is defined in
    compiler/stage.h, which is not among the sources; when the
    condition fails it reports the message as a compiler diagnostic and
    evaluates to true, and otherwise does nothing and evaluates to
    false. *)
Definition kphp_error (x : bool) (y : string) (st : PState) : bool * PState :=
  if x then (false, st) else (true, report y st).

Definition msg_unexpected_end : string := "Failed to parse phpdoc type: unexpected end".
Definition msg_unmatching_paren : string := "Failed to parse phpdoc type: unmatching ()".
Definition msg_unmatching_bracket : string := "Failed to parse phpdoc type: unmatching []".
Definition msg_expected_open : string := "Failed to parse phpdoc type: expected '<' or '('".
Definition msg_expected_comma : string := "Failed to parse phpdoc type: expected ','".
Definition msg_something_left : string :=
  "Failed to parse phpdoc type: something left at the end after parsing".
Definition msg_unknown_type_name (s : string) : string :=
  "Failed to parse phpdoc type: Unknown type name [" ++ s ++ "]".
Definition msg_trait (class_name : string) : string :=
  "You may not use trait(" ++ class_name ++ ") as a type-hint".
Definition msg_raw_bool : string :=
  String.concat (String Str.newline "")
    ["Do not use |bool in phpdoc, use |false instead";
     "(if you really need bool, specify |boolean)"].
Definition msg_unknown_class (class_name : string) : string :=
  String.concat (String Str.newline "")
    ["Could not find class in phpdoc: " ++ class_name;
     "Probably, this class is used only in phpdoc and never created in reachable code"].

(** The spec's names for the parser's errors. *)
Definition UnexpectedEnd : string := msg_unexpected_end.
Definition TrailingInput : string := msg_something_left.
Definition UnknownTypeName (s : string) : string := msg_unknown_type_name s.
Definition TraitUsedAsType (class_name : string) : string := msg_trait class_name.

(** The result of a parsing method: the vertex returned, the position
    [pos] as the method leaves it, and the state. *)
Definition Res : Type := VertexPtr * nat * PState.

(** [#define CHECK(x, y) if (kphp_error(x, y)) {return VertexPtr();}]
    followed by the rest of the method, [k]. *)
Definition CHECK (x : bool) (y : string) (pos : nat) (st : PState)
           (k : PState -> option Res) : option Res :=
  let '(failed, st') := kphp_error x y st in
  if failed then Some (None, pos, st') else k st'.

Definition tl_namespace_marker : string := "@tl\".

Definition is_classname_char (c : ascii) : bool :=
  Str.isalnum c || Ascii.eqb c "\" || Ascii.eqb c "_".

(** Length of the leading run of class-name characters. *)
Fixpoint classname_run (s : string) : nat :=
  match s with
  | EmptyString => 0
  | String c s' => if is_classname_char c then S (classname_run s') else 0
  end.

Definition extract_classname_from_pos (str : string) (pos : nat) : string :=
  Str.substr str pos (classname_run (Str.substr_from str pos)).

(** ** The resolution context

    What the parser asks of the rest of the compiler, for the function
    whose phpdoc is parsed: [resolve_uses(current_function, name, '\\')],
    [G->get_class(name)], [G->env().get_tl_namespace_prefix()] and
    [current_function->class_id]. *)
Class Resolution : Type := {
  resolve_uses : string -> string;
  get_class : string -> ClassPtr;
  get_tl_namespace_prefix : string;
  current_class_id : ClassPtr
}.

(** ** The type-rule parser: [PhpDocTypeRuleParser] *)

Section PhpDocTypeRuleParser.

Context {env : Resolution}.

Section Grammar.

(** The text being parsed: the methods pass the same [s] along. *)
Variable s : string.

Section OpenRecursion.

(** [parse_type_expression] as the methods below call it. *)
Variable parse_type_expression : nat -> PState -> option Res.

(** The [while (true)] loop of [parse_nested_type_rule], entered at most
    [n] times. *)
Fixpoint nested_type_loop (n : nat) (type_help : PrimitiveType)
         (sub_types : list Vertex) (pos : nat) (st : PState) : option Res :=
  match n with
  | 0 => None
  | S n' =>
      match parse_type_expression pos st with
      | None => None
      | Some (None, pos, st) => Some (None, pos, st)
      | Some (Some v, pos, st) =>
          let sub_types := (sub_types ++ [v])%list in
          CHECK (pos <? String.length s) msg_unexpected_end pos st (fun st =>
          if Ascii.eqb (Str.at_ s pos) ">" || Ascii.eqb (Str.at_ s pos) ")" then
            Some (Some (op_type_expr_type type_help sub_types), pos + 1, st)
          else
            CHECK (Ascii.eqb (Str.at_ s pos) ",") msg_expected_comma pos st (fun st =>
            nested_type_loop n' type_help sub_types (pos + 1) st))
      end
  end.

Definition parse_nested_type_rule (pos : nat) (type_help : PrimitiveType) (st : PState)
  : option Res :=
  CHECK ((pos <? String.length s)
         && (Ascii.eqb (Str.at_ s pos) "<" || Ascii.eqb (Str.at_ s pos) "("))
        msg_expected_open pos st (fun st =>
  nested_type_loop (S (String.length s)) type_help [] (pos + 1) st).

(** The end of [parse_simple_type], reached by every [break]. *)
Definition unknown_type_name (pos : nat) (st : PState) : option Res :=
  CHECK false (msg_unknown_type_name s) pos st (fun st => Some (None, pos, st)).

(** The [default:] branch of the [switch]: a class name.  After the
    marker [@tl\] the code reads [s[pos]] with no test of [pos] against
    the size of the text; for a text that ends with the marker this
    reads past the end of the view, and the byte read there is taken
    here to be the one [Str.at_] gives, which starts no name. *)
Definition parse_class_name (pos : nat) (st : PState) : option Res :=
  let has_tl_namespace_prefix := Str.starts_with (Str.substr_from s pos) tl_namespace_marker in
  let pos := if has_tl_namespace_prefix then pos + String.length tl_namespace_marker else pos in
  let c := Str.at_ s pos in
  if Ascii.eqb c "\"
     || (Ascii.leb "A" c && Ascii.leb c "Z")
     || (has_tl_namespace_prefix
         && ((Ascii.leb "a" c && Ascii.leb c "z") || Ascii.eqb c "_"))
  then
    let relative_class_name := extract_classname_from_pos s pos in
    let pos := pos + String.length relative_class_name in
    let relative_class_name :=
      if has_tl_namespace_prefix
      then get_tl_namespace_prefix ++ relative_class_name
      else relative_class_name in
    let class_name := resolve_uses relative_class_name in
    let klass := get_class class_name in
    let st := match klass with
              | None => push_unknown_class class_name st
              | Some _ => st
              end in
    let st := match klass with
              | Some k => snd (kphp_error (negb (is_trait k)) (msg_trait (get_name k)) st)
              | None => st
              end in
    Some (Some (create_type_help_class_vertex klass), pos, st)
  else unknown_type_name pos st.

Definition keyword (pos : nat) (kw : string) : bool :=
  String.eqb (Str.substr s pos (String.length kw)) kw.

Definition parse_simple_type (pos : nat) (st : PState) : option Res :=
  CHECK (pos <? String.length s) msg_unexpected_end pos st (fun st =>
  let c := Str.at_ s pos in
  if Ascii.eqb c "(" then
    match parse_type_expression (pos + 1) st with
    | None => None
    | Some (None, pos, st) => Some (None, pos, st)
    | Some (Some v, pos, st) =>
        CHECK ((pos <? String.length s) && Ascii.eqb (Str.at_ s pos) ")")
              msg_unmatching_paren pos st (fun st =>
        Some (Some v, pos + 1, st))
    end
  else if Ascii.eqb c "s" then
    if keyword pos "string" then Some (Some (create_type_help_vertex tp_string), pos + 6, st)
    else if keyword pos "self" then
      Some (Some (create_type_help_class_vertex current_class_id), pos + 4, st)
    else unknown_type_name pos st
  else if Ascii.eqb c "i" then
    if keyword pos "integer" then Some (Some (create_type_help_vertex tp_int), pos + 7, st)
    else if keyword pos "int" then Some (Some (create_type_help_vertex tp_int), pos + 3, st)
    else unknown_type_name pos st
  else if Ascii.eqb c "b" then
    if keyword pos "boolean" then Some (Some (create_type_help_vertex tp_bool), pos + 7, st)
    else if keyword pos "bool" then Some (Some (create_type_help_vertex tp_bool), pos + 4, st)
    else unknown_type_name pos st
  else if Ascii.eqb c "f" then
    if keyword pos "float" then Some (Some (create_type_help_vertex tp_float), pos + 5, st)
    else if keyword pos "false" then Some (Some (create_type_help_vertex tp_False), pos + 5, st)
    else if keyword pos "future" then parse_nested_type_rule (pos + 6) tp_future st
    else unknown_type_name pos st
  else if Ascii.eqb c "d" then
    if keyword pos "double" then Some (Some (create_type_help_vertex tp_float), pos + 6, st)
    else unknown_type_name pos st
  else if Ascii.eqb c "m" then
    if keyword pos "mixed" then Some (Some (create_type_help_vertex tp_var), pos + 5, st)
    else unknown_type_name pos st
  else if Ascii.eqb c "n" then
    if keyword pos "null" then Some (Some (create_type_help_vertex tp_var), pos + 4, st)
    else unknown_type_name pos st
  else if Ascii.eqb c "t" then
    if keyword pos "true" then Some (Some (create_type_help_vertex tp_bool), pos + 4, st)
    else if keyword pos "tuple" then parse_nested_type_rule (pos + 5) tp_tuple st
    else unknown_type_name pos st
  else if Ascii.eqb c "a" then
    if keyword pos "array" then
      Some (Some (op_type_expr_type tp_array [create_type_help_vertex tp_Unknown]), pos + 5, st)
    else unknown_type_name pos st
  else if Ascii.eqb c "v" then
    if keyword pos "void" then Some (Some (create_type_help_vertex tp_void), pos + 4, st)
    else unknown_type_name pos st
  else if Ascii.eqb c "\" then
    if keyword pos "\tuple" then parse_nested_type_rule (pos + 6) tp_tuple st
    else if keyword pos "\future" then parse_nested_type_rule (pos + 7) tp_future st
    else parse_class_name pos st          (* falls through to default *)
  else parse_class_name pos st).

(** The [while] loop of [parse_type_array], entered at most [n] times. *)
Fixpoint array_suffix_loop (n : nat) (res : Vertex) (pos : nat) (st : PState) : option Res :=
  if (pos <? String.length s) && Ascii.eqb (Str.at_ s pos) "[" then
    match n with
    | 0 => None
    | S n' =>
        CHECK ((pos + 1 <? String.length s) && Ascii.eqb (Str.at_ s (pos + 1)) "]")
              msg_unmatching_bracket pos st (fun st =>
        array_suffix_loop n' (op_type_expr_type tp_array [res]) (pos + 2) st)
    end
  else Some (Some res, pos, st).

Definition parse_type_array (pos : nat) (st : PState) : option Res :=
  match parse_simple_type pos st with
  | None => None
  | Some (None, pos, st) => Some (None, pos, st)
  | Some (Some res, pos, st) => array_suffix_loop (String.length s) res pos st
  end.

(** The [while] loop of [parse_type_expression], entered at most [n]
    times, and what follows it. *)
Fixpoint union_loop (n : nat) (res : Vertex) (has_raw_bool : bool) (pos : nat) (st : PState)
  : option Res :=
  if (pos <? String.length s) && Ascii.eqb (Str.at_ s pos) "|" then
    match n with
    | 0 => None
    | S n' =>
        let pos := pos + 1 in
        let old_pos := pos in
        match parse_type_array pos st with
        | None => None
        | Some (None, pos, st) => Some (None, pos, st)
        | Some (Some next, pos, st) =>
            let has_raw_bool :=
              has_raw_bool || String.eqb (Str.substr s old_pos (pos - old_pos)) "bool" in
            union_loop n' (op_type_expr_lca res next) has_raw_bool pos st
        end
    end
  else
    let st := if is_lca res
              then snd (kphp_error (negb has_raw_bool) msg_raw_bool st)
              else st in
    Some (Some res, pos, st).

Definition parse_type_expression_body (pos : nat) (st : PState) : option Res :=
  let old_pos := pos in
  match parse_type_array pos st with
  | None => None
  | Some (None, pos, st) => Some (None, pos, st)
  | Some (Some res, pos, st) =>
      let has_raw_bool := String.eqb (Str.substr s old_pos (pos - old_pos)) "bool" in
      union_loop (String.length s) res has_raw_bool pos st
  end.

End OpenRecursion.

(** [parse_type_expression], nested at most [depth] deep. *)
Fixpoint parse_type_expression_depth (depth : nat) (pos : nat) (st : PState) : option Res :=
  match depth with
  | 0 => None
  | S d => parse_type_expression_body (parse_type_expression_depth d) pos st
  end.

(** The value of a call that returned, and a failure at the entry
    position for one that ran out of its bound (which does not happen:
    see [parse_type_expression_depth_enough] and the lemmas that follow
    it). *)
Definition returned (pos : nat) (st : PState) (o : option Res) : Res :=
  match o with
  | Some r => r
  | None => (None, pos, st)
  end.

(** [parse_type_expression(s, pos)]: the nesting of a text is bounded by
    its length. *)
Definition parse_type_expression (pos : nat) (st : PState) : Res :=
  returned pos st (parse_type_expression_depth (S (String.length s)) pos st).

(** The recursive call as the other methods make it. *)
Definition expr_call (pos : nat) (st : PState) : option Res :=
  Some (parse_type_expression pos st).

(** The other methods and their loops, calling [parse_type_expression]. *)
Definition simple_type (pos : nat) (st : PState) : Res :=
  returned pos st (parse_simple_type expr_call pos st).

Definition type_array (pos : nat) (st : PState) : Res :=
  returned pos st (parse_type_array expr_call pos st).

Definition nested_type_rule (pos : nat) (type_help : PrimitiveType) (st : PState) : Res :=
  returned pos st (parse_nested_type_rule expr_call pos type_help st).

Definition array_suffixes (res : Vertex) (pos : nat) (st : PState) : Res :=
  returned pos st (array_suffix_loop (String.length s) res pos st).

Definition union_tail (res : Vertex) (has_raw_bool : bool) (pos : nat) (st : PState) : Res :=
  returned pos st (union_loop expr_call (String.length s) res has_raw_bool pos st).

Definition nested_args (type_help : PrimitiveType) (sub_types : list Vertex)
           (pos : nat) (st : PState) : Res :=
  returned pos st
    (nested_type_loop expr_call (S (String.length s)) type_help sub_types pos st).

End Grammar.

Definition varg_dots : string := " ...".

(** [parse_from_type_string]: the vertex returned and the state left. *)
Definition parse_from_type_string (type_str : string) (st : PState) : VertexPtr * PState :=
  match parse_type_expression type_str 0 st with
  | (None, _, st) => (None, st)
  | (Some res, pos, st) =>
      let '(res, pos) :=
        if (String.length type_str =? pos + String.length varg_dots)
           && Str.ends_with type_str varg_dots
        then (op_type_expr_type tp_array [res], pos + String.length varg_dots)
        else (res, pos) in
      let '(failed, st) := kphp_error (pos =? String.length type_str) msg_something_left st in
      if failed then (None, st) else (Some res, st)
  end.

(** [phpdoc_parse_type]: a parser of its own, then the check of its
    [get_unknown_classes()]; the vertex returned and the errors
    reported. *)
Definition phpdoc_parse_type (type_str : string) : VertexPtr * list string :=
  let '(doc_type, st) := parse_from_type_string type_str init_state in
  match unknown_classes_list st with
  | [] => (doc_type, errors st)
  | class_name :: _ => (None, (errors st ++ [msg_unknown_class class_name])%list)
  end.

End PhpDocTypeRuleParser.

(** ** Notions used to show that the bounds are enough *)

(** [g] returns whatever [f] returns. *)
Definition extends (f g : nat -> PState -> option Res) : Prop :=
  forall p st r, f p st = Some r -> g p st = Some r.

(** A successful call never moves the position backwards. *)
Definition advances (f : nat -> PState -> option Res) : Prop :=
  forall pos st v pos' st', f pos st = Some (Some v, pos', st') -> pos <= pos'.

(** [f] returns at every position of [s] from [p0] on. *)
Definition returns_from (s : string) (f : nat -> PState -> option Res) (p0 : nat) : Prop :=
  forall p st, p0 <= p -> p <= String.length s -> exists r, f p st = Some r.

(** ** The grammar's sequences, as relations over the text *)

Section Sequences.

Context {env : Resolution}.
Variable s : string.

(** [union_rest pos st ms pos' st']: from [pos] on, the text continues a
    union with the members [ms], each introduced by ['|'] and parsed as
    an array-suffixed type ([type_array]), up to [pos'], where no
    further ['|'] follows.  A member is recorded with the text it was
    parsed from. *)
Inductive union_rest : nat -> PState -> list (Vertex * string) -> nat -> PState -> Prop :=
| union_rest_end pos st :
    (pos <? String.length s) && Ascii.eqb (Str.at_ s pos) "|" = false ->
    union_rest pos st [] pos st
| union_rest_member pos st next pos1 st1 ms pos' st' :
    (pos <? String.length s) && Ascii.eqb (Str.at_ s pos) "|" = true ->
    type_array s (pos + 1) st = (Some next, pos1, st1) ->
    union_rest pos1 st1 ms pos' st' ->
    union_rest pos st ((next, Str.substr s (pos + 1) (pos1 - (pos + 1))) :: ms) pos' st'.

(** [type_args pos st vs pos' st']: from [pos] on, the text holds the
    type expressions [vs] separated by [','] and closed by ['>'] or by
    [')']; [pos'] is just after the closing bracket. *)
Inductive type_args : nat -> PState -> list Vertex -> nat -> PState -> Prop :=
| type_args_last pos st v pos1 st1 :
    parse_type_expression s pos st = (Some v, pos1, st1) ->
    pos1 < String.length s ->
    Str.at_ s pos1 = ">"%char \/ Str.at_ s pos1 = ")"%char ->
    type_args pos st [v] (pos1 + 1) st1
| type_args_more pos st v pos1 st1 vs pos' st' :
    parse_type_expression s pos st = (Some v, pos1, st1) ->
    pos1 < String.length s ->
    Str.at_ s pos1 = ","%char ->
    type_args (pos1 + 1) st1 vs pos' st' ->
    type_args pos st (v :: vs) pos' st'.

End Sequences.

(** Whether a member of a union was written as the bare word [bool]. *)
Definition is_raw_bool (m : Vertex * string) : bool := String.eqb (snd m) "bool".

(** What [parse_type_expression] does after its loop: the complaint
    about a raw [bool], made only for an [op_type_expr_lca]. *)
Definition lint_raw_bool (res : Vertex) (has_raw_bool : bool) (st : PState) : PState :=
  if is_lca res then snd (kphp_error (negb has_raw_bool) msg_raw_bool st) else st.

(** The left-leaning chain over the members [ms], starting from [first]. *)
Definition union_chain (first : Vertex) (ms : list (Vertex * string)) : Vertex :=
  fold_left Union (map fst ms) first.

(** [k] array suffixes around [base]. *)
Definition array_nest (k : nat) (base : Vertex) : Vertex := Nat.iter k ArrayOf base.

(** A capital letter, with which a class name may start. *)
Definition is_upper (c : ascii) : bool := Ascii.leb "A" c && Ascii.leb c "Z".

(** A resolution context for the examples: names resolve to themselves,
    the class table holds the classes [A] and [B] and the trait [T],
    and parsing takes place outside any class. *)
Definition example_class_table (class_name : string) : ClassPtr :=
  if String.eqb class_name "A" then Some (mk_class "A" false)
  else if String.eqb class_name "B" then Some (mk_class "B" false)
  else if String.eqb class_name "T" then Some (mk_class "T" true)
  else None.

Definition example : Resolution := {|
  resolve_uses := fun class_name => class_name;
  get_class := example_class_table;
  get_tl_namespace_prefix := "";
  current_class_id := None
|}.

Definition example_parse (type_str : string) : VertexPtr * PState :=
  parse_from_type_string (env := example) type_str init_state.

Definition example_phpdoc_parse_type (type_str : string) : VertexPtr * list string :=
  phpdoc_parse_type (env := example) type_str.

(** ** The lines of a comment body, as the text has them *)

(** A comment body written line by line. *)
Definition comment (lines : list string) : string :=
  String.concat (String Str.newline "") lines.

(** The body cut at every newline; there is always a last line, which
    may be empty. *)
Fixpoint split_lines (body : string) : list string :=
  match body with
  | EmptyString => [EmptyString]
  | String c rest =>
      if Ascii.eqb c Str.newline then EmptyString :: split_lines rest
      else match split_lines rest with
           | l :: ls => String c l :: ls
           | [] => [String c EmptyString]
           end
  end.

(** The line has its marker: a ['*'] with only spaces and tabs before it. *)
Fixpoint marked (line : string) : bool :=
  match line with
  | EmptyString => false
  | String c rest => if is_blank c then marked rest else Ascii.eqb c "*"
  end.

(** The line holds spaces and tabs only. *)
Fixpoint all_blank (line : string) : bool :=
  match line with
  | EmptyString => true
  | String c rest => is_blank c && all_blank rest
  end.

(** No line has anything but spaces and tabs before its marker: every
    line either has its marker or is blank. *)
Definition no_stray_before_marker (body : string) : bool :=
  forallb (fun line => marked line || all_blank line) (split_lines body).

(** Every line but the last has its marker, and the last one has its
    marker or is blank. *)
Fixpoint lines_well_marked (lines : list string) : bool :=
  match lines with
  | [] => true
  | line :: rest =>
      match rest with
      | [] => marked line || all_blank line
      | _ :: _ => marked line && lines_well_marked rest
      end
  end.

Definition well_marked (body : string) : bool := lines_well_marked (split_lines body).

(** The line opens a tag. *)
Definition starts_tag (line : string) : bool := Ascii.eqb (Str.at_ line 0) "@".

(** Where the token read at [chars_offset] starts, once the blanks are
    skipped as [get_value_token] skips them. *)
Definition token_start (value : string) (chars_offset : nat) : nat :=
  let chars_offset := chars_offset + Str.leading_spaces value in
  chars_offset + Str.leading_spaces (Str.substr_from value chars_offset).

(** The line number given to the tag at the back when line [i] of [n]
    has been read, [d] being the line of the declaration. *)
Definition source_line_at (d : Z) (n i : nat) : option Z :=
  if (0 <? d)%Z then Some (Z.min (d - (Z.of_nat n - Z.of_nat i)) (d - 2)) else None.

(** A line number is either unset or one that [source_line_at] gives. *)
Definition line_num_given (d : Z) (n : nat) (t : php_doc_tag) : Prop :=
  line_num t = None \/ exists i, line_num t = source_line_at d n i.

(** The name of the tag a line opens: the line up to its first space. *)
Definition tag_name (line : string) : string :=
  match Str.find " " line 0 with
  | Some p => Str.substr line 0 p
  | None => line
  end.

(** After the marker the rest of the line is free. *)
Definition rest_well_marked (lines : list string) : bool :=
  match lines with
  | [] => true
  | _ :: rest => match rest with [] => true | _ :: _ => lines_well_marked rest end
  end.

(** The text holds no space: it is a single token. *)
Fixpoint no_space (str : string) : bool :=
  match str with
  | EmptyString => true
  | String c rest => negb (Ascii.eqb c " ") && no_space rest
  end.

(** What may follow the two tokens of a tag value: nothing, or a space
    and free text that does not start a variadic marker. *)
Definition free_text (tail : string) : bool :=
  match tail with
  | EmptyString => true
  | String c _ => Ascii.eqb c " " && negb (String.prefix varg_dots_dollar tail)
  end.


(** ** Notions for the further properties *)

(** The errors and the unknown classes of [st'] are those of [st]
    followed by [msgs] and [classes]. *)
Definition grows_by (st st' : PState) (msgs classes : list string) : Prop :=
  errors st' = (errors st ++ msgs)%list
  /\ unknown_classes_list st' = (unknown_classes_list st ++ classes)%list.

(** No class pointer in the vertex is null. *)
Fixpoint resolved (v : Vertex) : bool :=
  match v with
  | op_type_expr_type _ children => forallb resolved children
  | op_type_expr_class class_ptr =>
      match class_ptr with
      | Some _ => true
      | None => false
      end
  | op_type_expr_lca lhs rhs => resolved lhs && resolved rhs
  end.

(** The two complaints that do not stop a parse: a trait used as a
    type, and a raw [bool] in a union. *)
Definition complaint (msg : string) : Prop :=
  msg = msg_raw_bool \/ exists class_name, msg = msg_trait class_name.

(** The errors with which the parse of the text [s] stops. *)
Definition grammar_errors (s : string) : list string :=
  [ msg_unexpected_end; msg_unmatching_paren; msg_unmatching_bracket;
    msg_expected_open; msg_expected_comma; msg_something_left;
    msg_unknown_type_name s ].

(** The messages [msgs] that go with the result [r]: complaints only
    beside a vertex; complaints and then one grammar error beside the
    empty [VertexPtr()]. *)
Definition diagnosed (s : string) (r : VertexPtr) (msgs : list string) : Prop :=
  match r with
  | Some _ => Forall complaint msgs
  | None =>
      exists complaints msg,
        msgs = (complaints ++ [msg])%list
        /\ Forall complaint complaints
        /\ In msg (grammar_errors s)
  end.

(** What a result [o] obtained from the state [st] for the text [s]
    keeps: the state has only grown; the messages added are those that
    go with the result; and a vertex returned without any class added
    to the unknown ones is resolved, provided [ok] (which stands for
    what was parsed before). *)
Definition reported (s : string) (ok : Prop) (st : PState) (o : option Res) : Prop :=
  forall r pos' st',
    o = Some (r, pos', st') ->
    exists msgs classes,
      grows_by st st' msgs classes
      /\ diagnosed s r msgs
      /\ (forall v, r = Some v -> classes = [] -> ok -> resolved v = true).

Definition reports (s : string) (ok : Prop) (f : nat -> PState -> option Res) : Prop :=
  forall pos st, reported s ok st (f pos st).

(** The resolution context of the examples, inside the class [A]. *)
Definition example_in_class : Resolution := {|
  resolve_uses := fun class_name => class_name;
  get_class := example_class_table;
  get_tl_namespace_prefix := "";
  current_class_id := Some (mk_class "A" false)
|}.

(** The element type of a bare [array]. *)
Definition is_unknown (v : Vertex) : bool :=
  match v with
  | op_type_expr_type tp_Unknown [] => true
  | _ => false
  end.

(** The arities of a vertex: a primitive has no child, an array has its
    element type (which may be the unknown one), a tuple or a future
    has at least one argument; [tp_Unknown] stands nowhere else and
    [tp_Class] nowhere at all. *)
Fixpoint well_formed (v : Vertex) : bool :=
  match v with
  | op_type_expr_type th children =>
      match th with
      | tp_array =>
          match children with
          | [c] => is_unknown c || well_formed c
          | _ => false
          end
      | tp_tuple | tp_future =>
          negb (List.length children =? 0) && forallb well_formed children
      | tp_Unknown | tp_Class => false
      | _ => match children with [] => true | _ :: _ => false end
      end
  | op_type_expr_class _ => true
  | op_type_expr_lca lhs rhs => well_formed lhs && well_formed rhs
  end.

(** Every vertex [f] returns is well formed. *)
Definition shaped (f : nat -> PState -> option Res) : Prop :=
  forall pos st v pos' st', f pos st = Some (Some v, pos', st') -> well_formed v = true.

(** The keywords of [parse_simple_type] that stand for a type on their
    own, each with the vertex made for it, in the order in which the
    [switch] compares them. *)
Definition primitive_keywords : list (string * Vertex) :=
  [ ("string",  Primitive tp_string);
    ("integer", Primitive tp_int);
    ("int",     Primitive tp_int);
    ("boolean", Primitive tp_bool);
    ("bool",    Primitive tp_bool);
    ("float",   Primitive tp_float);
    ("false",   Primitive tp_False);
    ("double",  Primitive tp_float);
    ("mixed",   Primitive tp_var);
    ("null",    Primitive tp_var);
    ("true",    Primitive tp_bool);
    ("array",   ArrayOf (Primitive tp_Unknown));
    ("void",    Primitive tp_void) ].

(** All the words [parse_simple_type] compares the text with. *)
Definition keywords : list string :=
  (map fst primitive_keywords ++ ["self"; "future"; "tuple"; "\tuple"; "\future"])%list.

(** A small letter. *)
Definition is_lower (c : ascii) : bool := Ascii.leb "a" c && Ascii.leb c "z".

(** Where the class name starts when the text at [pos] names a class,
    and whether it follows the marker [@tl\]: at [pos] itself for a
    capital letter, and for a backslash that does not open [\tuple] or
    [\future]; four characters further on when the text at [pos] is
    the marker and goes on with a letter, an underscore or a
    backslash. *)
Definition class_name_start (s : string) (pos : nat) : option (nat * bool) :=
  let c := Str.at_ s pos in
  if negb (pos <? String.length s) then None
  else if is_upper c then Some (pos, false)
  else if Ascii.eqb c "\" then
    if keyword s pos "\tuple" || keyword s pos "\future" then None else Some (pos, false)
  else if Str.starts_with (Str.substr_from s pos) tl_namespace_marker then
    let d := Str.at_ s (pos + 4) in
    if (pos + 4 <? String.length s)
       && (Ascii.eqb d "\" || is_upper d || is_lower d || Ascii.eqb d "_")
    then Some (pos + 4, true)
    else None
  else None.

(** Every character of the text satisfies [p]. *)
Fixpoint all_chars (p : ascii -> bool) (str : string) : bool :=
  match str with
  | EmptyString => true
  | String c rest => p c && all_chars p rest
  end.

(** The resolution context of the examples, with a prefix for the
    names that follow the [@tl\] marker. *)
Definition example_tl : Resolution := {|
  resolve_uses := fun class_name => class_name;
  get_class := example_class_table;
  get_tl_namespace_prefix := "VK\TL\";
  current_class_id := None
|}.

(** The line without the blanks that lead it. *)
Fixpoint skip_blanks (line : string) : string :=
  match line with
  | EmptyString => EmptyString
  | String c rest => if is_blank c then skip_blanks rest else line
  end.

(** What a line of the comment gives: the text after its marker,
    without the blanks between the marker and the text; nothing for a
    line with no marker. *)
Fixpoint line_content (line : string) : string :=
  match line with
  | EmptyString => EmptyString
  | String c rest =>
      if is_blank c then line_content rest
      else if Ascii.eqb c "*" then skip_blanks rest
      else EmptyString
  end.

(** The value a tag line opens with: what follows its first space. *)
Definition tag_text (line : string) : string :=
  match Str.find " " line 0 with
  | Some p => Str.substr_from line (p + 1)
  | None => EmptyString
  end.

(** A value continued by the lines [conts], each after one space. *)
Definition continued (v : string) (conts : list string) : string :=
  fold_left (fun v line => v ++ String " " line) conts v.

(** The text is one word: it holds no space, or it is a word followed
    by the variadic marker [" ..."]. *)
Definition one_word (text : string) : Prop :=
  no_space text = true
  \/ exists word, text = word ++ " ..." /\ no_space word = true.

(** The text holds no newline. *)
Definition no_newline (line : string) : bool :=
  all_chars (fun c => negb (Ascii.eqb c Str.newline)) line.

(** A line written with its marker. *)
Definition with_marker (line : string) : string := "* " ++ line.

(** ** The unit tests: [run_tipa_unit_tests_parsing_tags] *)

Record ParsingTagsTest : Type := mk_test {
  test_phpdoc : string;
  test_var_name : string;
  test_type_str : string;
  test_offset : Z;
  test_is_valid : bool
}.

Definition test_pass (phpdoc var_name type_str : string) (offset : Z) : ParsingTagsTest :=
  mk_test phpdoc var_name type_str offset true.

Definition test_fail (phpdoc var_name type_str : string) (offset : Z) : ParsingTagsTest :=
  mk_test phpdoc var_name type_str offset false.

Definition tests : list ParsingTagsTest :=
  [ test_pass "* @var $a bool " "a" "bool" 0;
    test_pass "* @var bool $a " "a" "bool" 0;
    test_pass " *@var    bool    $a   " "a" "bool" 0;
    test_pass " *@var    $a    bool   " "a" "bool" 0;
    test_pass "* @type $variable int|string comment " "variable" "int|string" 0;
    test_fail "* @nothing $variable int|string comment" "" "" 0;
    test_fail "* only comment" "" "" 0;
    test_pass (comment ["* @deprecated "; "* @var $k Exception|false"]) "k" "Exception|false" 0;
    test_pass "* @var mixed some comment" "" "mixed" 0;
    test_pass "* @var string|(false|int)[]?" "" "string|(false|int)[]?" 0;
    test_pass "* @var $a" "a" "" 0;
    test_pass "* @type hello world" "" "hello" 0;
    test_pass "*   @type   " "" "" 0;
    test_pass (comment ["* @param $aa A "; "* @var $a A  "; "* @param BB $b "; "* @var $b B   "])
              "a" "A" 0;
    test_pass (comment ["* @param $aa A "; "* @var $a A  "; "* @param BB $b "; "* @var $b B   "])
              "b" "B" 1 ].

(** The body of the loop over the tests: whether the test is [correct],
    [line] being what [stage::get_line()] returns while the tests run. *)
Definition correct (line : Z) (test : ParsingTagsTest) : bool :=
  match find_tag_in_phpdoc line (test_phpdoc test) var (test_offset test) with
  | Some (var_name, type_str) =>
      Bool.eqb true (test_is_valid test)
      && (String.eqb var_name (test_var_name test)
          && String.eqb type_str (test_type_str test))
  | None => Bool.eqb false (test_is_valid test)
  end.

Definition ok_str (line : Z) (test : ParsingTagsTest) : string :=
  if correct line test
  then if test_is_valid test then "ok" else "ok (was not parsed)"
  else "error".

(** [run_tests]: the count printed at the end. *)
Definition n_not_passed (line : Z) (tests : list ParsingTagsTest) : nat :=
  List.length (filter (fun test => negb (correct line test)) tests).

(** What a tag holds besides its line number. *)
Definition tag_content (t : php_doc_tag) : string * doc_type * string :=
  (name t, type t, value t).

(** * Properties *)

(** ** The cases of [run_tipa_unit_tests_parsing_tags] *)

Example tags_test_1 : find_tag_in_phpdoc 0 "* @var $a bool " var 0 = Some ("a", "bool").
Proof. reflexivity. Qed.

Example tags_test_2 : find_tag_in_phpdoc 0 "* @var bool $a " var 0 = Some ("a", "bool").
Proof. reflexivity. Qed.

Example tags_test_3 :
  find_tag_in_phpdoc 0 " *@var    bool    $a   " var 0 = Some ("a", "bool").
Proof. reflexivity. Qed.

Example tags_test_4 :
  find_tag_in_phpdoc 0 " *@var    $a    bool   " var 0 = Some ("a", "bool").
Proof. reflexivity. Qed.

Example tags_test_5 :
  find_tag_in_phpdoc 0 "* @type $variable int|string comment " var 0
  = Some ("variable", "int|string").
Proof. reflexivity. Qed.

Example tags_test_6 :
  find_tag_in_phpdoc 0 "* @nothing $variable int|string comment" var 0 = None.
Proof. reflexivity. Qed.

Example tags_test_7 : find_tag_in_phpdoc 0 "* only comment" var 0 = None.
Proof. reflexivity. Qed.

Example tags_test_8 :
  find_tag_in_phpdoc 0 (comment ["* @deprecated "; "* @var $k Exception|false"]) var 0
  = Some ("k", "Exception|false").
Proof. reflexivity. Qed.

Example tags_test_9 :
  find_tag_in_phpdoc 0 "* @var mixed some comment" var 0 = Some ("", "mixed").
Proof. reflexivity. Qed.

Example tags_test_10 :
  find_tag_in_phpdoc 0 "* @var string|(false|int)[]?" var 0
  = Some ("", "string|(false|int)[]?").
Proof. reflexivity. Qed.

Example tags_test_11 : find_tag_in_phpdoc 0 "* @var $a" var 0 = Some ("a", "").
Proof. reflexivity. Qed.

Example tags_test_12 : find_tag_in_phpdoc 0 "* @type hello world" var 0 = Some ("", "hello").
Proof. reflexivity. Qed.

Example tags_test_13 : find_tag_in_phpdoc 0 "*   @type   " var 0 = Some ("", "").
Proof. reflexivity. Qed.

Example tags_test_14 :
  find_tag_in_phpdoc
    0 (comment ["* @param $aa A "; "* @var $a A  "; "* @param BB $b "; "* @var $b B   "])
    var 0
  = Some ("a", "A").
Proof. reflexivity. Qed.

Example tags_test_15 :
  find_tag_in_phpdoc
    0 (comment ["* @param $aa A "; "* @var $a A  "; "* @param BB $b "; "* @var $b B   "])
    var 1
  = Some ("b", "B").
Proof. reflexivity. Qed.


(** ** The bounds of the type-rule parser are enough

    The loops and the nesting of the parser are bounded by the length
    of the text.  A call that returns under smaller bounds returns the
    same under larger ones ([..._extends], [..._more]); a successful
    call never moves the position backwards ([..._advances]); and with
    the bounds taken from the length of the text every call returns
    ([..._returns]).  The methods then satisfy the equations of the
    source ([..._eq]). *)

Ltac break_if :=
  match goal with
  | |- context [if ?b then _ else _] => destruct b eqn:?
  | H : context [if ?b then _ else _] |- _ => destruct b eqn:?
  end.

Ltac open_check := unfold CHECK, kphp_error in *; cbn beta iota in *.

Section GrammarFacts.
Context {env : Resolution}.
Variable s : string.

Local Abbreviation len := (String.length s).

Lemma nested_type_loop_extends f g :
  extends f g ->
  forall n m th subs pos st r,
    n <= m ->
    nested_type_loop s f n th subs pos st = Some r ->
    nested_type_loop s g m th subs pos st = Some r.
Proof.
  intros Hfg. induction n as [|n IH]; intros m th subs pos st r Hnm H; simpl in H.
  - discriminate.
  - destruct m as [|m]; [lia|]. simpl.
    destruct (f pos st) as [[[[v|] p] st1]|] eqn:E; try discriminate;
      rewrite (Hfg _ _ _ E); auto.
    open_check. repeat break_if; auto.
    apply IH with (m := m) in H; [assumption | lia].
Qed.

Lemma parse_nested_type_rule_extends f g :
  extends f g ->
  forall pos th st r,
    parse_nested_type_rule s f pos th st = Some r ->
    parse_nested_type_rule s g pos th st = Some r.
Proof.
  intros Hfg pos th st r. unfold parse_nested_type_rule. open_check.
  break_if; auto. apply nested_type_loop_extends; auto.
Qed.

Lemma parse_simple_type_extends f g :
  extends f g ->
  forall pos st r,
    parse_simple_type s f pos st = Some r -> parse_simple_type s g pos st = Some r.
Proof.
  intros Hfg pos st r. unfold parse_simple_type. unfold CHECK, kphp_error.
  destruct (pos <? len); auto.
  repeat (match goal with |- context [if ?b then _ else _] => destruct b eqn:? end);
    try (intro; assumption);
    try (apply parse_nested_type_rule_extends; assumption).
  destruct (f (pos + 1) st) as [[[[v|] p] st1]|] eqn:E; try discriminate;
      rewrite (Hfg _ _ _ E); auto.
Qed.

Lemma array_suffix_loop_more n m :
  n <= m ->
  forall res pos st r,
    array_suffix_loop s n res pos st = Some r ->
    array_suffix_loop s m res pos st = Some r.
Proof.
  revert m. induction n as [|n IH]; intros m Hnm res pos st r H.
  - destruct m; simpl in *; break_if; auto; discriminate.
  - destruct m as [|m]; [lia|]. simpl in *. break_if; auto.
    open_check. break_if; auto. apply IH; [lia | assumption].
Qed.

Lemma parse_type_array_extends f g :
  extends f g ->
  forall pos st r, parse_type_array s f pos st = Some r -> parse_type_array s g pos st = Some r.
Proof.
  intros Hfg pos st r. unfold parse_type_array.
  destruct (parse_simple_type s f pos st) as [[[[v|] p] st1]|] eqn:E; try discriminate;
    rewrite (parse_simple_type_extends f g Hfg _ _ _ E); auto.
Qed.

Lemma union_loop_extends f g :
  extends f g ->
  forall n m res hrb pos st r,
    n <= m ->
    union_loop s f n res hrb pos st = Some r ->
    union_loop s g m res hrb pos st = Some r.
Proof.
  intros Hfg. induction n as [|n IH]; intros m res hrb pos st r Hnm H.
  - destruct m; simpl in *; break_if; auto; discriminate.
  - destruct m as [|m]; [lia|]. simpl in *. break_if; auto.
    destruct (parse_type_array s f (pos + 1) st) as [[[[v|] p] st1]|] eqn:E; try discriminate;
      rewrite (parse_type_array_extends f g Hfg _ _ _ E); auto.
    apply IH; [lia | assumption].
Qed.

Lemma parse_type_expression_body_extends f g :
  extends f g ->
  forall pos st r,
    parse_type_expression_body s f pos st = Some r ->
    parse_type_expression_body s g pos st = Some r.
Proof.
  intros Hfg pos st r. unfold parse_type_expression_body.
  destruct (parse_type_array s f pos st) as [[[[v|] p] st1]|] eqn:E; try discriminate;
    rewrite (parse_type_array_extends f g Hfg _ _ _ E); auto.
  apply union_loop_extends; auto.
Qed.

Lemma parse_type_expression_depth_S d :
  extends (parse_type_expression_depth s d) (parse_type_expression_depth s (S d)).
Proof.
  induction d as [|d IH]; intros pos st r H.
  - discriminate.
  - simpl in *. revert H. apply parse_type_expression_body_extends. exact IH.
Qed.

Lemma parse_type_expression_depth_more d d' :
  d <= d' -> extends (parse_type_expression_depth s d) (parse_type_expression_depth s d').
Proof.
  induction 1 as [|d' _ IH]; intros pos st r H; auto.
  apply parse_type_expression_depth_S. apply IH. assumption.
Qed.


Lemma nested_type_loop_advances f :
  advances f ->
  forall n th subs pos st v pos' st',
    nested_type_loop s f n th subs pos st = Some (Some v, pos', st') -> pos < pos'.
Proof.
  intros Hf. induction n as [|n IH]; intros th subs pos st v pos' st' H; simpl in H.
  - discriminate.
  - destruct (f pos st) as [[[[w|] p] st1]|] eqn:E; try discriminate.
    apply Hf in E. open_check. repeat break_if; try discriminate.
    + injection H as _ <- _. lia.
    + apply IH in H. lia.
Qed.

Lemma parse_nested_type_rule_advances f :
  advances f ->
  forall pos th st v pos' st',
    parse_nested_type_rule s f pos th st = Some (Some v, pos', st') -> pos < pos'.
Proof.
  intros Hf pos th st v pos' st'. unfold parse_nested_type_rule. open_check.
  break_if; try discriminate. intros H.
  apply (nested_type_loop_advances f Hf) in H. lia.
Qed.

Lemma parse_class_name_advances pos st v pos' st' :
  parse_class_name s pos st = Some (Some v, pos', st') -> pos <= pos'.
Proof.
  unfold parse_class_name, unknown_type_name. open_check.
  repeat break_if; try discriminate; intros H; injection H as _ <- _;
    unfold tl_namespace_marker; simpl; lia.
Qed.

Lemma parse_simple_type_advances f :
  advances f ->
  forall pos st v pos' st',
    parse_simple_type s f pos st = Some (Some v, pos', st') -> pos <= pos'.
Proof.
  intros Hf pos st v pos' st'. unfold parse_simple_type, unknown_type_name.
  unfold CHECK, kphp_error.
  destruct (pos <? len); try discriminate.
  repeat (match goal with |- context [if ?b then _ else _] => destruct b eqn:? end);
    try discriminate;
    try (intros H; injection H as _ <- _; lia);
    try (intros H; apply (parse_nested_type_rule_advances f Hf) in H; lia);
    try (intros H; apply parse_class_name_advances in H; lia).
  destruct (f (pos + 1) st) as [[[[w|] p] st1]|] eqn:E; try discriminate.
  apply Hf in E. break_if; try discriminate. intros H; injection H as _ <- _; lia.
Qed.

Lemma array_suffix_loop_advances n :
  forall res pos st v pos' st',
    array_suffix_loop s n res pos st = Some (Some v, pos', st') -> pos <= pos'.
Proof.
  induction n as [|n IH]; intros res pos st v pos' st' H; simpl in H.
  - break_if; try discriminate. injection H as _ <- _. lia.
  - break_if.
    + open_check. break_if; try discriminate. apply IH in H. lia.
    + injection H as _ <- _. lia.
Qed.

Lemma parse_type_array_advances f :
  advances f ->
  forall pos st v pos' st',
    parse_type_array s f pos st = Some (Some v, pos', st') -> pos <= pos'.
Proof.
  intros Hf pos st v pos' st'. unfold parse_type_array.
  destruct (parse_simple_type s f pos st) as [[[[w|] p] st1]|] eqn:E; try discriminate.
  apply (parse_simple_type_advances f Hf) in E. intros H.
  apply array_suffix_loop_advances in H. lia.
Qed.

Lemma union_loop_advances f :
  advances f ->
  forall n res hrb pos st v pos' st',
    union_loop s f n res hrb pos st = Some (Some v, pos', st') -> pos <= pos'.
Proof.
  intros Hf. induction n as [|n IH]; intros res hrb pos st v pos' st' H; simpl in H.
  - break_if; try discriminate. injection H as _ <- _. lia.
  - break_if.
    + destruct (parse_type_array s f (pos + 1) st) as [[[[w|] p] st1]|] eqn:E; try discriminate.
      apply (parse_type_array_advances f Hf) in E. apply IH in H. lia.
    + injection H as _ <- _. lia.
Qed.

Lemma parse_type_expression_body_advances f :
  advances f -> advances (parse_type_expression_body s f).
Proof.
  intros Hf pos st v pos' st'. unfold parse_type_expression_body.
  destruct (parse_type_array s f pos st) as [[[[w|] p] st1]|] eqn:E; try discriminate.
  apply (parse_type_array_advances f Hf) in E. intros H.
  apply (union_loop_advances f Hf) in H. lia.
Qed.

Lemma parse_type_expression_depth_advances d : advances (parse_type_expression_depth s d).
Proof.
  induction d as [|d IH].
  - intros pos st v pos' st' H. discriminate.
  - simpl. apply parse_type_expression_body_advances. exact IH.
Qed.


Lemma returns_from_later f p0 p1 :
  p0 <= p1 -> returns_from s f p0 -> returns_from s f p1.
Proof. intros Hle H p st Hp Hlen. apply H; lia. Qed.

Lemma nested_type_loop_returns f p0 :
  advances f -> returns_from s f p0 ->
  forall n th subs pos st,
    p0 <= pos -> pos <= len -> len - pos < n ->
    exists r, nested_type_loop s f n th subs pos st = Some r.
Proof.
  intros Hadv Hret. induction n as [|n IH]; intros th subs pos st Hp0 Hlen Hn.
  - lia.
  - simpl. destruct (Hret pos st Hp0 Hlen) as [[[[v|] p] st1] E]; rewrite E; eauto.
    apply Hadv in E. open_check.
    destruct (p <? len) eqn:Hp; eauto. apply Nat.ltb_lt in Hp.
    repeat break_if; eauto. apply IH; lia.
Qed.

Lemma parse_nested_type_rule_returns f p0 :
  advances f -> returns_from s f p0 ->
  forall pos th st, p0 <= pos + 1 -> exists r, parse_nested_type_rule s f pos th st = Some r.
Proof.
  intros Hadv Hret pos th st Hp0. unfold parse_nested_type_rule.
  remember (S len) as n eqn:Hn. unfold CHECK, kphp_error.
  destruct (pos <? len) eqn:Hp; simpl; eauto. apply Nat.ltb_lt in Hp.
  break_if; eauto. apply (nested_type_loop_returns f p0); auto; lia.
Qed.

Lemma parse_simple_type_returns f :
  advances f ->
  forall pos st, returns_from s f (pos + 1) -> exists r, parse_simple_type s f pos st = Some r.
Proof.
  intros Hadv pos st Hret. unfold parse_simple_type, unknown_type_name, parse_class_name.
  unfold unknown_type_name, CHECK, kphp_error.
  destruct (pos <? len) eqn:Hp; eauto. apply Nat.ltb_lt in Hp.
  repeat (match goal with |- context [if ?b then _ else _] => destruct b eqn:? end);
    eauto;
    try (apply (parse_nested_type_rule_returns f (pos + 1)); auto; lia).
  destruct (Hret (pos + 1) st) as [[[[v|] p] st1] E]; try lia; rewrite E; eauto.
  break_if; eauto.
Qed.

Lemma array_suffix_loop_returns n :
  forall res pos st, len - pos <= n -> exists r, array_suffix_loop s n res pos st = Some r.
Proof.
  induction n as [|n IH]; intros res pos st Hn; simpl.
  - destruct (pos <? len) eqn:Hp; simpl; eauto. apply Nat.ltb_lt in Hp. lia.
  - destruct (pos <? len) eqn:Hp; simpl; eauto. apply Nat.ltb_lt in Hp.
    break_if; eauto. open_check. break_if; eauto. apply IH. lia.
Qed.

Lemma parse_type_array_returns f :
  advances f ->
  forall pos st, returns_from s f (pos + 1) -> exists r, parse_type_array s f pos st = Some r.
Proof.
  intros Hadv pos st Hret. unfold parse_type_array.
  destruct (parse_simple_type_returns f Hadv pos st Hret) as [[[[v|] p] st1] E];
    rewrite E; eauto.
  apply array_suffix_loop_returns. lia.
Qed.

Lemma union_loop_returns f p0 :
  advances f -> returns_from s f p0 ->
  forall n res hrb pos st,
    p0 <= pos + 1 -> len - pos <= n -> exists r, union_loop s f n res hrb pos st = Some r.
Proof.
  intros Hadv Hret. induction n as [|n IH]; intros res hrb pos st Hp0 Hn; simpl.
  - destruct (pos <? len) eqn:Hp; simpl; eauto. apply Nat.ltb_lt in Hp. lia.
  - destruct (pos <? len) eqn:Hp; simpl; eauto. apply Nat.ltb_lt in Hp.
    break_if; eauto.
    destruct (parse_type_array_returns f Hadv (pos + 1) st) as [[[[v|] p] st1] E].
    { apply returns_from_later with p0; auto; lia. }
    all: rewrite E; eauto.
    apply (parse_type_array_advances f Hadv) in E. apply IH; lia.
Qed.

Lemma parse_type_expression_body_returns f :
  advances f ->
  forall pos st,
    returns_from s f (pos + 1) -> exists r, parse_type_expression_body s f pos st = Some r.
Proof.
  intros Hadv pos st Hret. unfold parse_type_expression_body.
  destruct (parse_type_array_returns f Hadv pos st Hret) as [[[[v|] p] st1] E];
    rewrite E; eauto.
  apply (parse_type_array_advances f Hadv) in E.
  apply (union_loop_returns f (pos + 1)); auto; lia.
Qed.

Lemma parse_type_expression_depth_returns d :
  forall pos st, len - pos < d -> exists r, parse_type_expression_depth s d pos st = Some r.
Proof.
  induction d as [|d IH]; intros pos st Hd.
  - lia.
  - simpl. apply parse_type_expression_body_returns.
    + apply parse_type_expression_depth_advances.
    + intros p st' Hp Hlen. apply IH. lia.
Qed.


(** The bound [parse_type_expression] puts on the nesting is enough:
    with any bound above the number of characters left, the call
    returns, and returns the same. *)
Lemma parse_type_expression_depth_enough d pos st :
  len - pos < d -> parse_type_expression_depth s d pos st = Some (parse_type_expression s pos st).
Proof.
  intros Hd. unfold parse_type_expression.
  destruct (parse_type_expression_depth_returns d pos st Hd) as [r E].
  destruct (parse_type_expression_depth_returns (S len) pos st) as [r' E']; [lia|].
  rewrite E'. simpl. rewrite E. f_equal.
  apply (parse_type_expression_depth_more d (Nat.max d (S len))) in E; [|lia].
  apply (parse_type_expression_depth_more (S len) (Nat.max d (S len))) in E'; [|lia].
  congruence.
Qed.

Lemma depth_extends_expr_call d : extends (parse_type_expression_depth s d) (expr_call s).
Proof.
  intros pos st r H. unfold expr_call. f_equal.
  apply (parse_type_expression_depth_more d (Nat.max d (S len))) in H; [|lia].
  rewrite parse_type_expression_depth_enough in H by lia. congruence.
Qed.

Lemma expr_call_advances : advances (expr_call s).
Proof.
  intros pos st v pos' st' H. unfold expr_call in H.
  rewrite <- (parse_type_expression_depth_enough (S len)) in H by lia.
  revert H. apply parse_type_expression_depth_advances.
Qed.

Lemma expr_call_returns p0 : returns_from s (expr_call s) p0.
Proof. intros p st _ _. unfold expr_call. eauto. Qed.

Lemma simple_type_returned pos st :
  parse_simple_type s (expr_call s) pos st = Some (simple_type s pos st).
Proof.
  unfold simple_type.
  destruct (parse_simple_type_returns (expr_call s) expr_call_advances pos st
              (expr_call_returns _)) as [r ->].
  reflexivity.
Qed.

Lemma type_array_returned pos st :
  parse_type_array s (expr_call s) pos st = Some (type_array s pos st).
Proof.
  unfold type_array.
  destruct (parse_type_array_returns (expr_call s) expr_call_advances pos st
              (expr_call_returns _)) as [r ->].
  reflexivity.
Qed.

Lemma nested_type_rule_returned pos th st :
  parse_nested_type_rule s (expr_call s) pos th st = Some (nested_type_rule s pos th st).
Proof.
  unfold nested_type_rule.
  destruct (parse_nested_type_rule_returns (expr_call s) 0 expr_call_advances
              (expr_call_returns _) pos th st) as [r ->]; [lia|].
  reflexivity.
Qed.

Lemma array_suffixes_returned n res pos st :
  len - pos <= n -> array_suffix_loop s n res pos st = Some (array_suffixes s res pos st).
Proof.
  intros Hn. unfold array_suffixes.
  destruct (array_suffix_loop_returns n res pos st Hn) as [r E].
  destruct (array_suffix_loop_returns len res pos st) as [r' E']; [lia|].
  rewrite E', E. simpl. f_equal.
  apply (array_suffix_loop_more n (Nat.max n len)) in E; [|lia].
  apply (array_suffix_loop_more len (Nat.max n len)) in E'; [|lia].
  congruence.
Qed.

Lemma extends_refl f : extends f f.
Proof. intros p st r H. exact H. Qed.

Lemma union_tail_returned n res hrb pos st :
  len - pos <= n ->
  union_loop s (expr_call s) n res hrb pos st = Some (union_tail s res hrb pos st).
Proof.
  intros Hn. unfold union_tail.
  destruct (union_loop_returns (expr_call s) 0 expr_call_advances (expr_call_returns _)
              n res hrb pos st) as [r E]; [lia | assumption |].
  destruct (union_loop_returns (expr_call s) 0 expr_call_advances (expr_call_returns _)
              len res hrb pos st) as [r' E']; [lia | lia |].
  rewrite E', E. simpl. f_equal.
  apply (union_loop_extends _ _ (extends_refl (expr_call s)) n (Nat.max n len)) in E; [|lia].
  apply (union_loop_extends _ _ (extends_refl (expr_call s)) len (Nat.max n len)) in E'; [|lia].
  congruence.
Qed.

Lemma nested_args_returned n th subs pos st :
  pos <= len -> len - pos < n ->
  nested_type_loop s (expr_call s) n th subs pos st = Some (nested_args s th subs pos st).
Proof.
  intros Hpos Hn. unfold nested_args.
  destruct (nested_type_loop_returns (expr_call s) 0 expr_call_advances (expr_call_returns _)
              n th subs pos st) as [r E]; [lia | assumption | assumption |].
  destruct (nested_type_loop_returns (expr_call s) 0 expr_call_advances (expr_call_returns _)
              (S len) th subs pos st) as [r' E']; [lia | lia | lia |].
  rewrite E', E. simpl. f_equal.
  pose proof (extends_refl (expr_call s)) as Hrefl.
  apply (nested_type_loop_extends _ _ Hrefl n (Nat.max n (S len))) in E; [|lia].
  apply (nested_type_loop_extends _ _ Hrefl (S len) (Nat.max n (S len))) in E'; [|lia].
  congruence.
Qed.

(** *** The methods' equations, the recursive call tied *)

Lemma parse_type_expression_eq pos st :
  parse_type_expression s pos st =
  match type_array s pos st with
  | (None, pos', st') => (None, pos', st')
  | (Some res, pos', st') =>
      union_tail s res (String.eqb (Str.substr s pos (pos' - pos)) "bool") pos' st'
  end.
Proof.
  pose proof (parse_type_expression_depth_enough (S len) pos st) as H.
  simpl in H. specialize (H ltac:(lia)).
  apply (parse_type_expression_body_extends _ _ (depth_extends_expr_call len)) in H.
  unfold parse_type_expression_body in H.
  rewrite type_array_returned in H.
  destruct (type_array s pos st) as [[[res|] pos'] st'].
  - rewrite union_tail_returned in H by lia. congruence.
  - congruence.
Qed.

Lemma type_array_eq pos st :
  type_array s pos st =
  match simple_type s pos st with
  | (None, pos', st') => (None, pos', st')
  | (Some res, pos', st') => array_suffixes s res pos' st'
  end.
Proof.
  pose proof (type_array_returned pos st) as H.
  unfold parse_type_array in H. rewrite simple_type_returned in H.
  destruct (simple_type s pos st) as [[[res|] pos'] st'].
  - rewrite array_suffixes_returned in H by lia. congruence.
  - congruence.
Qed.

Lemma array_suffixes_eq res pos st :
  array_suffixes s res pos st =
  if (pos <? len) && Ascii.eqb (Str.at_ s pos) "[" then
    if (pos + 1 <? len) && Ascii.eqb (Str.at_ s (pos + 1)) "]"
    then array_suffixes s (op_type_expr_type tp_array [res]) (pos + 2) st
    else (None, pos, report msg_unmatching_bracket st)
  else (Some res, pos, st).
Proof.
  pose proof (array_suffixes_returned (S len) res pos st ltac:(lia)) as H.
  simpl in H. open_check.
  destruct ((pos <? len) && Ascii.eqb (Str.at_ s pos) "[").
  - destruct ((pos + 1 <? len) && Ascii.eqb (Str.at_ s (pos + 1)) "]").
    + rewrite array_suffixes_returned in H by lia. congruence.
    + congruence.
  - congruence.
Qed.

Lemma union_tail_eq res has_raw_bool pos st :
  union_tail s res has_raw_bool pos st =
  if (pos <? len) && Ascii.eqb (Str.at_ s pos) "|" then
    match type_array s (pos + 1) st with
    | (None, pos', st') => (None, pos', st')
    | (Some next, pos', st') =>
        union_tail s (op_type_expr_lca res next)
                (has_raw_bool
                 || String.eqb (Str.substr s (pos + 1) (pos' - (pos + 1))) "bool")
                pos' st'
    end
  else
    (Some res, pos,
     if is_lca res then snd (kphp_error (negb has_raw_bool) msg_raw_bool st) else st).
Proof.
  pose proof (union_tail_returned (S len) res has_raw_bool pos st ltac:(lia)) as H.
  simpl in H.
  destruct (pos <? len) eqn:Hp; simpl in *; [|congruence].
  apply Nat.ltb_lt in Hp.
  destruct (Ascii.eqb (Str.at_ s pos) "|"); [|congruence].
  pose proof (type_array_returned (pos + 1) st) as E. rewrite E in H.
  destruct (type_array s (pos + 1) st) as [[[next|] pos'] st'] eqn:Ec.
  - apply (parse_type_array_advances _ expr_call_advances) in E.
    rewrite union_tail_returned in H by lia. congruence.
  - congruence.
Qed.

Lemma nested_type_rule_eq pos type_help st :
  nested_type_rule s pos type_help st =
  if (pos <? len) && (Ascii.eqb (Str.at_ s pos) "<" || Ascii.eqb (Str.at_ s pos) "(")
  then nested_args s type_help [] (pos + 1) st
  else (None, pos, report msg_expected_open st).
Proof.
  pose proof (nested_type_rule_returned pos type_help st) as H.
  unfold parse_nested_type_rule in H. remember (S len) as n eqn:Hn.
  unfold CHECK, kphp_error in H.
  destruct (pos <? len) eqn:Hp; simpl in *; [|congruence].
  apply Nat.ltb_lt in Hp.
  destruct (Ascii.eqb (Str.at_ s pos) "<" || Ascii.eqb (Str.at_ s pos) "("); [|congruence].
  rewrite nested_args_returned in H by lia. congruence.
Qed.

Lemma nested_args_eq type_help sub_types pos st :
  pos <= len ->
  nested_args s type_help sub_types pos st =
  match parse_type_expression s pos st with
  | (None, pos', st') => (None, pos', st')
  | (Some v, pos', st') =>
      if pos' <? len then
        if Ascii.eqb (Str.at_ s pos') ">" || Ascii.eqb (Str.at_ s pos') ")" then
          (Some (op_type_expr_type type_help (sub_types ++ [v])%list), pos' + 1, st')
        else if Ascii.eqb (Str.at_ s pos') "," then
          nested_args s type_help (sub_types ++ [v])%list (pos' + 1) st'
        else (None, pos', report msg_expected_comma st')
      else (None, pos', report msg_unexpected_end st')
  end.
Proof.
  intros Hpos.
  pose proof (nested_args_returned (S len) type_help sub_types pos st Hpos ltac:(lia)) as H.
  simpl in H. unfold expr_call at 1 in H.
  destruct (parse_type_expression s pos st) as [[[v|] pos'] st'] eqn:E; [|congruence].
  open_check.
  destruct (pos' <? len) eqn:Hp; [|congruence]. apply Nat.ltb_lt in Hp.
  destruct (Ascii.eqb (Str.at_ s pos') ">" || Ascii.eqb (Str.at_ s pos') ")"); [congruence|].
  destruct (Ascii.eqb (Str.at_ s pos') ","); [|congruence].
  rewrite nested_args_returned in H by lia. congruence.
Qed.


(** *** Array suffixes *)

Lemma array_nest_S k res : array_nest k (ArrayOf res) = array_nest (S k) res.
Proof. unfold array_nest. symmetry. apply Nat.iter_succ_r. Qed.

Lemma array_suffix_loop_nest n :
  forall res pos st v pos' st',
    array_suffix_loop s n res pos st = Some (Some v, pos', st') ->
    exists k, v = array_nest k res /\ pos' = pos + 2 * k /\ st' = st
              /\ (pos' <? len) && Ascii.eqb (Str.at_ s pos') "[" = false.
Proof.
  induction n as [|n IH]; intros res pos st v pos' st' H; simpl in H.
  - break_if; try discriminate. injection H as <- <- <-. exists 0.
    repeat split; auto.
  - break_if.
    + open_check. break_if; try discriminate.
      apply IH in H. destruct H as (k & -> & -> & -> & Hend).
      exists (S k). change (op_type_expr_type tp_array [res]) with (ArrayOf res).
      rewrite array_nest_S. repeat split; auto; lia.
    + injection H as <- <- <-. exists 0. repeat split; auto.
Qed.

Lemma array_suffixes_nest res pos st v pos' st' :
  array_suffixes s res pos st = (Some v, pos', st') ->
  exists k, v = array_nest k res /\ pos' = pos + 2 * k /\ st' = st
            /\ (pos' <? len) && Ascii.eqb (Str.at_ s pos') "[" = false.
Proof.
  intros H. apply (array_suffix_loop_nest len res pos st).
  rewrite array_suffixes_returned by lia. rewrite H. reflexivity.
Qed.

(** *** Unions *)

Lemma union_tail_of_rest pos st ms pos' st' :
  union_rest s pos st ms pos' st' ->
  forall res hrb,
    union_tail s res hrb pos st =
    (Some (union_chain res ms), pos',
     lint_raw_bool (union_chain res ms) (hrb || existsb is_raw_bool ms) st').
Proof.
  induction 1 as [pos st Hend | pos st next pos1 st1 ms pos' st' Hbar Hnext _ IH];
    intros res hrb; rewrite union_tail_eq.
  - rewrite Hend. simpl. rewrite orb_false_r. reflexivity.
  - rewrite Hbar, Hnext, IH. unfold union_chain. simpl.
    unfold is_raw_bool at 2. simpl. rewrite orb_assoc. reflexivity.
Qed.

Lemma union_loop_rest n :
  forall res hrb pos st v pos' st',
    union_loop s (expr_call s) n res hrb pos st = Some (Some v, pos', st') ->
    exists ms st1,
      union_rest s pos st ms pos' st1
      /\ v = union_chain res ms
      /\ st' = lint_raw_bool v (hrb || existsb is_raw_bool ms) st1.
Proof.
  induction n as [|n IH]; intros res hrb pos st v pos' st' H; simpl in H.
  - destruct ((pos <? len) && Ascii.eqb (Str.at_ s pos) "|") eqn:Hbar; try discriminate.
    injection H as <- <- <-. exists [], st. split; [constructor; assumption|].
    simpl. rewrite orb_false_r. auto.
  - destruct ((pos <? len) && Ascii.eqb (Str.at_ s pos) "|") eqn:Hbar.
    + rewrite type_array_returned in H.
      destruct (type_array s (pos + 1) st) as [[[next|] pos1] st1] eqn:Hnext; try discriminate.
      apply IH in H. destruct H as (ms & st2 & Hrest & -> & ->).
      exists ((next, Str.substr s (pos + 1) (pos1 - (pos + 1))) :: ms), st2.
      split; [econstructor; eassumption|].
      unfold union_chain. simpl. unfold is_raw_bool at 2. simpl.
      rewrite orb_assoc. auto.
    + injection H as <- <- <-. exists [], st. split; [constructor; assumption|].
      simpl. rewrite orb_false_r. auto.
Qed.

Lemma union_tail_rest res hrb pos st v pos' st' :
  union_tail s res hrb pos st = (Some v, pos', st') ->
  exists ms st1,
    union_rest s pos st ms pos' st1
    /\ v = union_chain res ms
    /\ st' = lint_raw_bool v (hrb || existsb is_raw_bool ms) st1.
Proof.
  intros H. apply (union_loop_rest len res hrb pos st).
  rewrite union_tail_returned by lia. rewrite H. reflexivity.
Qed.

(** *** A member written [bool] is not itself a union *)

Lemma substring_head (str : string) :
  forall pos n c r, substring pos n str = String c r -> String.get pos str = Some c.
Proof.
  induction str as [|a str IH]; intros pos n c r H.
  - destruct pos, n; discriminate.
  - destruct pos as [|pos].
    + destruct n; simpl in H; [discriminate|]. injection H as -> _. reflexivity.
    + simpl in *. eapply IH. eassumption.
Qed.

Lemma substr_head str pos n c r :
  Str.substr str pos n = String c r -> Str.at_ str pos = c.
Proof.
  unfold Str.substr, Str.at_. intros H. apply substring_head in H. rewrite H. reflexivity.
Qed.

Lemma nested_type_loop_not_lca f n :
  forall th subs pos st v pos' st',
    nested_type_loop s f n th subs pos st = Some (Some v, pos', st') -> is_lca v = false.
Proof.
  induction n as [|n IH]; intros th subs pos st v pos' st' H; simpl in H.
  - discriminate.
  - destruct (f pos st) as [[[[w|] p] st1]|]; try discriminate.
    open_check. repeat break_if; try discriminate.
    + injection H as <- _ _. reflexivity.
    + eapply IH. eassumption.
Qed.

Lemma parse_nested_type_rule_not_lca f pos th st v pos' st' :
  parse_nested_type_rule s f pos th st = Some (Some v, pos', st') -> is_lca v = false.
Proof.
  unfold parse_nested_type_rule. remember (S len) as n. unfold CHECK, kphp_error.
  break_if; try discriminate. apply nested_type_loop_not_lca.
Qed.

Lemma parse_class_name_not_lca pos st v pos' st' :
  parse_class_name s pos st = Some (Some v, pos', st') -> is_lca v = false.
Proof.
  unfold parse_class_name, unknown_type_name. open_check.
  repeat break_if; try discriminate; intros H; injection H as <- _ _; reflexivity.
Qed.

Lemma parse_simple_type_lca f pos st v pos' st' :
  parse_simple_type s f pos st = Some (Some v, pos', st') ->
  is_lca v = true -> Str.at_ s pos = "("%char.
Proof.
  unfold parse_simple_type, unknown_type_name. unfold CHECK, kphp_error.
  destruct (pos <? len); try discriminate.
  destruct (Ascii.eqb (Str.at_ s pos) "(") eqn:Hparen.
  { intros _ _. apply Ascii.eqb_eq. assumption. }
  repeat (match goal with |- context [if ?b then _ else _] => destruct b eqn:? end);
    try discriminate;
    try (intros H; injection H as <- _ _; discriminate);
    try (intros H Hl; apply parse_nested_type_rule_not_lca in H; congruence);
    try (intros H Hl; apply parse_class_name_not_lca in H; congruence).
Qed.

Lemma type_array_lca pos st v pos' st' :
  type_array s pos st = (Some v, pos', st') ->
  is_lca v = true -> Str.at_ s pos = "("%char.
Proof.
  rewrite type_array_eq.
  destruct (simple_type s pos st) as [[[base|] p0] st0] eqn:E; try discriminate.
  intros H Hl. apply array_suffixes_nest in H. destruct H as (k & -> & _).
  destruct k as [|k].
  - pose proof (simple_type_returned pos st) as R. rewrite E in R.
    eapply parse_simple_type_lca; eassumption.
  - unfold array_nest in Hl. simpl in Hl. discriminate.
Qed.

Lemma raw_bool_is_not_lca pos st v pos' st' :
  type_array s pos st = (Some v, pos', st') ->
  String.eqb (Str.substr s pos (pos' - pos)) "bool" = true ->
  is_lca v = false.
Proof.
  intros H Hb. destruct (is_lca v) eqn:Hl; auto.
  apply (type_array_lca _ _ _ _ _ H) in Hl.
  apply String.eqb_eq in Hb. apply substr_head in Hb. rewrite Hl in Hb. discriminate.
Qed.

(** *** [parse_type_expression] over the members of a union *)

(** The state after a union of the members [first :: ms]: the complaint
    about a raw [bool] is made when there are two members or more and
    one of them is written [bool]. *)
Lemma parse_type_expression_members pos st first pos0 st0 ms pos' st' :
  type_array s pos st = (Some first, pos0, st0) ->
  union_rest s pos0 st0 ms pos' st' ->
  parse_type_expression s pos st =
  (Some (union_chain first ms), pos',
   if negb (Nat.eqb (List.length ms) 0)
      && existsb is_raw_bool ((first, Str.substr s pos (pos0 - pos)) :: ms)
   then report msg_raw_bool st' else st').
Proof.
  intros Hfirst Hrest. rewrite parse_type_expression_eq, Hfirst.
  rewrite (union_tail_of_rest _ _ _ _ _ Hrest). f_equal.
  unfold lint_raw_bool. simpl existsb. unfold is_raw_bool at 2. simpl snd.
  destruct ms as [|m ms].
  - simpl. rewrite orb_false_r. unfold union_chain. simpl.
    destruct (String.eqb (Str.substr s pos (pos0 - pos)) "bool") eqn:Hb.
    + rewrite (raw_bool_is_not_lca _ _ _ _ _ Hfirst Hb). reflexivity.
    + simpl. destruct (is_lca first); reflexivity.
  - replace (is_lca (union_chain first (m :: ms))) with true.
    + simpl. unfold kphp_error.
      destruct (String.eqb (Str.substr s pos (pos0 - pos)) "bool" || _); reflexivity.
    + unfold union_chain. simpl. symmetry.
      assert (G : forall l u, is_lca u = true -> is_lca (fold_left Union l u) = true).
      { induction l as [|x l IHl]; intros u Hu; simpl; auto. }
      apply G. reflexivity.
Qed.

Lemma parse_type_expression_has_members pos st v pos' st' :
  parse_type_expression s pos st = (Some v, pos', st') ->
  exists first pos0 st0 ms st1,
    type_array s pos st = (Some first, pos0, st0)
    /\ union_rest s pos0 st0 ms pos' st1
    /\ v = union_chain first ms.
Proof.
  rewrite parse_type_expression_eq.
  destruct (type_array s pos st) as [[[first|] pos0] st0] eqn:E; try discriminate.
  intros H. apply union_tail_rest in H. destruct H as (ms & st1 & Hrest & -> & _).
  exists first, pos0, st0, ms, st1. auto.
Qed.

Lemma type_array_nest pos st v pos' st' :
  type_array s pos st = (Some v, pos', st') ->
  exists base pos0 k,
    simple_type s pos st = (Some base, pos0, st')
    /\ v = array_nest k base /\ pos' = pos0 + 2 * k.
Proof.
  rewrite type_array_eq.
  destruct (simple_type s pos st) as [[[base|] pos0] st0] eqn:E; try discriminate.
  intros H. apply array_suffixes_nest in H. destruct H as (k & -> & -> & -> & _).
  exists base, pos0, k. auto.
Qed.

(** C1.  The array suffix binds tighter than the union, and a union
    leans to the left.  For every text [s]: (1) a type expression that
    parses is the chain [Union (... (Union first m1) ...) mn] over its
    members in source order, where the members are what [type_array]
    parses between the ['|'] signs; (2) conversely, members that parse
    one after the other give exactly that chain; (3) each member is a
    simple type under [k] nested [ArrayOf], one for each of the [k]
    suffixes that follow it, so a suffix belongs to the member it
    follows and never to the union before it.  On the texts of the
    claim: ["A|B[]"] is [Union A (ArrayOf B)] and not
    [ArrayOf (Union A B)], ["int|string|float"] is
    [Union (Union int string) float], and ["int[][]"] is
    [ArrayOf (ArrayOf int)]. *)
Theorem array_suffix_binds_tighter_than_union :
  (forall pos st v pos' st',
      parse_type_expression s pos st = (Some v, pos', st') ->
      exists first pos0 st0 ms st1,
        type_array s pos st = (Some first, pos0, st0)
        /\ union_rest s pos0 st0 ms pos' st1
        /\ v = union_chain first ms)
  /\ (forall pos st first pos0 st0 ms pos' st',
         type_array s pos st = (Some first, pos0, st0) ->
         union_rest s pos0 st0 ms pos' st' ->
         fst (fst (parse_type_expression s pos st)) = Some (union_chain first ms))
  /\ (forall pos st v pos' st',
         type_array s pos st = (Some v, pos', st') ->
         exists base pos0 k,
           simple_type s pos st = (Some base, pos0, st')
           /\ v = array_nest k base /\ pos' = pos0 + 2 * k)
  /\ (forall st,
         let A := ClassRef (get_class (resolve_uses "A")) in
         let B := ClassRef (get_class (resolve_uses "B")) in
         fst (parse_from_type_string "A|B[]" st)
         = Some (Union A (ArrayOf B))
         /\ Union A (ArrayOf B) <> ArrayOf (Union A B))
  /\ (forall st,
         fst (parse_from_type_string "int|string|float" st)
         = Some (Union (Union (Primitive tp_int) (Primitive tp_string)) (Primitive tp_float)))
  /\ (forall st,
         fst (parse_from_type_string "int[][]" st)
         = Some (ArrayOf (ArrayOf (Primitive tp_int)))).
Proof.
  split; [|split; [|split; [|split; [|split]]]].
  - intros pos st v pos' st'. apply parse_type_expression_has_members.
  - intros pos st first pos0 st0 ms pos' st' Hfirst Hrest.
    rewrite (parse_type_expression_members _ _ _ _ _ _ _ _ Hfirst Hrest). reflexivity.
  - intros pos st v pos' st'. apply type_array_nest.
  - intros st A B. split; [|discriminate].
    subst A B. vm_compute. reflexivity.
  - intros st. vm_compute. reflexivity.
  - intros st. vm_compute. reflexivity.
Qed.


(** C6.  A raw [bool] among the members of a union is complained
    about, and the parse goes on.  For every text: when the members
    [first :: ms] parse one after the other, [parse_type_expression]
    returns their union, and reports "Do not use |bool in phpdoc" exactly
    when there are two members or more and one of them was written
    [bool]; the vertex is returned either way.  On the texts of the
    claim: ["int|bool"] parses to [Union int bool] with the complaint,
    ["int|boolean"] parses to the same vertex with no complaint, and a
    lone ["bool"] parses with none. *)
Theorem raw_bool_in_union_is_reported :
  (forall pos st first pos0 st0 ms pos' st',
      type_array s pos st = (Some first, pos0, st0) ->
      union_rest s pos0 st0 ms pos' st' ->
      parse_type_expression s pos st =
      (Some (union_chain first ms), pos',
       if negb (Nat.eqb (List.length ms) 0)
          && existsb is_raw_bool ((first, Str.substr s pos (pos0 - pos)) :: ms)
       then report msg_raw_bool st' else st'))
  /\ parse_from_type_string "int|bool" init_state
     = (Some (Union (Primitive tp_int) (Primitive tp_bool)), mk_state [] [msg_raw_bool])
  /\ parse_from_type_string "int|boolean" init_state
     = (Some (Union (Primitive tp_int) (Primitive tp_bool)), mk_state [] [])
  /\ parse_from_type_string "bool" init_state = (Some (Primitive tp_bool), mk_state [] []).
Proof.
  split; [|split; [|split]].
  - intros pos st first pos0 st0 ms pos' st'. apply parse_type_expression_members.
  - vm_compute. reflexivity.
  - vm_compute. reflexivity.
  - vm_compute. reflexivity.
Qed.

(** *** Arguments of a parameterized type *)

Lemma nested_args_of_type_args pos st vs pos' st' :
  type_args s pos st vs pos' st' ->
  pos <= len ->
  forall th subs,
    nested_args s th subs pos st = (Some (op_type_expr_type th (subs ++ vs)%list), pos', st').
Proof.
  induction 1 as [pos st v pos1 st1 Hv Hlt Hclose
                 | pos st v pos1 st1 vs pos' st' Hv Hlt Hcomma _ IH];
    intros Hpos th subs; rewrite nested_args_eq by assumption; rewrite Hv.
  - apply Nat.ltb_lt in Hlt. rewrite Hlt.
    destruct Hclose as [-> | ->]; reflexivity.
  - apply Nat.ltb_lt in Hlt. rewrite Hlt. apply Nat.ltb_lt in Hlt.
    rewrite Hcomma. simpl. rewrite IH by lia. rewrite <- app_assoc. reflexivity.
Qed.

(** C10.  The bracket that closes the arguments of [tuple] or [future]
    need not match the one that opened them.  For every text: after an
    opening ['<'] or ['('], arguments separated by [','] and closed by
    ['>'] or by [')'], whichever of the two, make
    [parse_nested_type_rule] return the parameterized type over them,
    with no error reported.  On the texts of the claim:
    ["tuple<int,string)"] and ["future(int>"] both parse. *)
Theorem closing_bracket_of_either_kind :
  (forall pos type_help st vs pos' st',
      pos < len ->
      Str.at_ s pos = "<"%char \/ Str.at_ s pos = "("%char ->
      type_args s (pos + 1) st vs pos' st' ->
      nested_type_rule s pos type_help st = (Some (Parameterized type_help vs), pos', st'))
  /\ parse_from_type_string "tuple<int,string)" init_state
     = (Some (Parameterized tp_tuple [Primitive tp_int; Primitive tp_string]), init_state)
  /\ parse_from_type_string "future(int>" init_state
     = (Some (Parameterized tp_future [Primitive tp_int]), init_state).
Proof.
  split; [|split].
  - intros pos type_help st vs pos' st' Hlt Hopen Hargs.
    rewrite nested_type_rule_eq. apply Nat.ltb_lt in Hlt. rewrite Hlt.
    apply Nat.ltb_lt in Hlt.
    replace (Ascii.eqb (Str.at_ s pos) "<" || Ascii.eqb (Str.at_ s pos) "(") with true
      by (destruct Hopen as [-> | ->]; reflexivity).
    simpl. rewrite (nested_args_of_type_args _ _ _ _ _ Hargs) by lia. reflexivity.
  - vm_compute. reflexivity.
  - vm_compute. reflexivity.
Qed.

(** *** Class names *)

Lemma upper_neq c d : is_upper c = true -> is_upper d = false -> Ascii.eqb c d = false.
Proof.
  intros Hc Hd. destruct (Ascii.eqb_spec c d) as [->|]; congruence.
Qed.

Lemma substring_from_at (str : string) :
  forall pos, pos < String.length str ->
    exists r, substring pos (String.length str - pos) str = String (Str.at_ str pos) r.
Proof.
  induction str as [|a str IH]; intros pos Hpos; simpl in Hpos.
  - lia.
  - destruct pos as [|pos].
    + simpl. eauto.
    + simpl. unfold Str.at_ in *. simpl. apply IH. lia.
Qed.

Lemma prefix_head_neq a p b r :
  a <> b -> String.prefix (String a p) (String b r) = false.
Proof.
  intros Hab. cbn [String.prefix]. destruct (ascii_dec a b); [contradiction | reflexivity].
Qed.

Lemma no_tl_marker_at_upper pos :
  pos < len -> is_upper (Str.at_ s pos) = true ->
  Str.starts_with (Str.substr_from s pos) tl_namespace_marker = false.
Proof.
  intros Hpos Hup. unfold Str.starts_with, Str.substr_from.
  destruct (substring_from_at s pos Hpos) as [r ->].
  unfold tl_namespace_marker. apply prefix_head_neq.
  intros E. rewrite <- E in Hup. vm_compute in Hup. discriminate.
Qed.

(** What [parse_simple_type] does at a capital letter: the [default:]
    branch, with no [@tl\] marker. *)
Lemma simple_type_at_upper pos st :
  pos < len -> is_upper (Str.at_ s pos) = true ->
  let relative_class_name := extract_classname_from_pos s pos in
  let class_name := resolve_uses relative_class_name in
  let klass := get_class class_name in
  simple_type s pos st =
  (Some (ClassRef klass), pos + String.length relative_class_name,
   match klass with
   | None => push_unknown_class class_name st
   | Some k => if is_trait k then report (msg_trait (get_name k)) st else st
   end).
Proof.
  intros Hpos Hup. cbv zeta.
  pose proof (simple_type_returned pos st) as R.
  unfold parse_simple_type, CHECK, kphp_error in R.
  apply Nat.ltb_lt in Hpos. rewrite Hpos in R. apply Nat.ltb_lt in Hpos.
  rewrite
    (upper_neq _ "(" Hup eq_refl),
    (upper_neq _ "s" Hup eq_refl),
    (upper_neq _ "i" Hup eq_refl),
    (upper_neq _ "b" Hup eq_refl),
    (upper_neq _ "f" Hup eq_refl),
    (upper_neq _ "d" Hup eq_refl),
    (upper_neq _ "m" Hup eq_refl),
    (upper_neq _ "n" Hup eq_refl),
    (upper_neq _ "t" Hup eq_refl),
    (upper_neq _ "a" Hup eq_refl),
    (upper_neq _ "v" Hup eq_refl),
    (upper_neq _ "\" Hup eq_refl) in R.
  unfold parse_class_name in R.
  rewrite (no_tl_marker_at_upper pos Hpos Hup) in R.
  fold (is_upper (Str.at_ s pos)) in R. rewrite Hup in R.
  rewrite orb_true_r in R. simpl in R.
  injection R as R. rewrite <- R. unfold create_type_help_class_vertex, ClassRef.
  f_equal. destruct (get_class _) as [k|]; auto.
  unfold kphp_error. destruct (is_trait k); reflexivity.
Qed.

Lemma substring_nothing (str : string) : forall a, substring a 0 str = "".
Proof. induction str as [|c str IH]; intros [|a]; simpl; auto. Qed.

Lemma tl_marker_head pos :
  Str.starts_with (Str.substr_from s pos) tl_namespace_marker = true ->
  pos < len /\ Str.at_ s pos = "@"%char.
Proof.
  intros H. unfold Str.starts_with, Str.substr_from in H.
  destruct (Nat.le_gt_cases len pos) as [Hge | Hlt].
  - replace (len - pos) with 0 in H by lia. rewrite substring_nothing in H. discriminate H.
  - split; [exact Hlt|].
    destruct (substring_from_at s pos Hlt) as [r E]. rewrite E in H.
    unfold tl_namespace_marker in H. cbn [String.prefix] in H.
    destruct (ascii_dec "@" (Str.at_ s pos)) as [<- | ]; [reflexivity | discriminate H].
Qed.

Lemma no_tl_marker_at_backslash pos :
  pos < len -> Str.at_ s pos = "\"%char ->
  Str.starts_with (Str.substr_from s pos) tl_namespace_marker = false.
Proof.
  intros Hpos Hat. unfold Str.starts_with, Str.substr_from.
  destruct (substring_from_at s pos Hpos) as [r ->].
  unfold tl_namespace_marker. apply prefix_head_neq. rewrite Hat. discriminate.
Qed.

(** What [parse_simple_type] does at a backslash that opens neither
    [\tuple] nor [\future]: the [case] falls through to the [default:]
    branch. *)
Lemma simple_type_at_backslash pos st :
  pos < len -> Str.at_ s pos = "\"%char ->
  keyword s pos "\tuple" = false -> keyword s pos "\future" = false ->
  let relative_class_name := extract_classname_from_pos s pos in
  let class_name := resolve_uses relative_class_name in
  let klass := get_class class_name in
  simple_type s pos st =
  (Some (ClassRef klass), pos + String.length relative_class_name,
   match klass with
   | None => push_unknown_class class_name st
   | Some k => if is_trait k then report (msg_trait (get_name k)) st else st
   end).
Proof.
  intros Hpos Hat Ktuple Kfuture. cbv zeta.
  pose proof (simple_type_returned pos st) as R.
  unfold parse_simple_type, CHECK, kphp_error in R.
  pose proof (no_tl_marker_at_backslash pos Hpos Hat) as Htl.
  apply Nat.ltb_lt in Hpos. rewrite Hpos, Hat in R. cbn [Ascii.eqb Bool.eqb] in R.
  cbv beta iota zeta in R. rewrite Ktuple, Kfuture in R.
  unfold parse_class_name in R. rewrite Htl in R. cbv beta iota zeta in R.
  rewrite Hat in R. cbn [Ascii.eqb Bool.eqb orb] in R. cbv beta iota zeta in R.
  injection R as R. rewrite <- R. unfold create_type_help_class_vertex, ClassRef.
  f_equal. destruct (get_class _) as [k|]; auto.
  unfold kphp_error. destruct (is_trait k); reflexivity.
Qed.

(** What [parse_simple_type] does at the marker [@tl\]: the [default:]
    branch, the name being read after the marker. *)
Lemma simple_type_at_tl_marker pos st :
  Str.starts_with (Str.substr_from s pos) tl_namespace_marker = true ->
  let c := Str.at_ s (pos + 4) in
  let relative_class_name := extract_classname_from_pos s (pos + 4) in
  let class_name := resolve_uses (get_tl_namespace_prefix ++ relative_class_name) in
  let klass := get_class class_name in
  simple_type s pos st =
  if Ascii.eqb c "\" || is_upper c || is_lower c || Ascii.eqb c "_" then
    (Some (ClassRef klass), pos + 4 + String.length relative_class_name,
     match klass with
     | None => push_unknown_class class_name st
     | Some k => if is_trait k then report (msg_trait (get_name k)) st else st
     end)
  else (None, pos + 4, report (UnknownTypeName s) st).
Proof.
  intros Htl. cbv zeta. destruct (tl_marker_head pos Htl) as [Hpos Hat].
  pose proof (simple_type_returned pos st) as R.
  unfold parse_simple_type, CHECK, kphp_error in R.
  apply Nat.ltb_lt in Hpos. rewrite Hpos, Hat in R. cbn [Ascii.eqb Bool.eqb] in R.
  cbv beta iota zeta in R.
  unfold parse_class_name, unknown_type_name, CHECK, kphp_error in R.
  rewrite Htl in R. cbv beta iota zeta in R.
  change (String.length tl_namespace_marker) with 4 in R.
  fold (is_upper (Str.at_ s (pos + 4))) in R. fold (is_lower (Str.at_ s (pos + 4))) in R.
  cbn [andb] in R.
  replace (Ascii.eqb (Str.at_ s (pos + 4)) "\" || is_upper (Str.at_ s (pos + 4))
           || is_lower (Str.at_ s (pos + 4)) || Ascii.eqb (Str.at_ s (pos + 4)) "_")
    with (Ascii.eqb (Str.at_ s (pos + 4)) "\" || is_upper (Str.at_ s (pos + 4))
          || (is_lower (Str.at_ s (pos + 4)) || Ascii.eqb (Str.at_ s (pos + 4)) "_"))
    by (rewrite !orb_assoc; reflexivity).
  break_if.
  - injection R as <-. unfold create_type_help_class_vertex, ClassRef.
    destruct (get_class _) as [k|]; [|reflexivity].
    unfold kphp_error. destruct (is_trait k); reflexivity.
  - injection R as <-. reflexivity.
Qed.

(** What [parse_simple_type] does wherever the text names a class, by
    any of the three ways a class name may start. *)
Lemma simple_type_at_class_name pos st name_pos after_marker :
  class_name_start s pos = Some (name_pos, after_marker) ->
  let relative_class_name := extract_classname_from_pos s name_pos in
  let class_name :=
    resolve_uses (if after_marker
                  then get_tl_namespace_prefix ++ relative_class_name
                  else relative_class_name) in
  let klass := get_class class_name in
  simple_type s pos st =
  (Some (ClassRef klass), name_pos + String.length relative_class_name,
   match klass with
   | None => push_unknown_class class_name st
   | Some k => if is_trait k then report (msg_trait (get_name k)) st else st
   end).
Proof.
  unfold class_name_start. cbv zeta.
  destruct (pos <? len) eqn:Hpos; [|discriminate]. apply Nat.ltb_lt in Hpos.
  cbn [negb]. destruct (is_upper (Str.at_ s pos)) eqn:Hup.
  { intros H. injection H as <- <-. apply simple_type_at_upper; assumption. }
  destruct (Ascii.eqb (Str.at_ s pos) "\") eqn:Hback.
  { apply Ascii.eqb_eq in Hback.
    destruct (keyword s pos "\tuple") eqn:Ktuple; [discriminate|].
    destruct (keyword s pos "\future") eqn:Kfuture; [discriminate|].
    intros H. injection H as <- <-. apply simple_type_at_backslash; assumption. }
  destruct (Str.starts_with (Str.substr_from s pos) tl_namespace_marker) eqn:Htl;
    [|discriminate].
  destruct ((pos + 4 <? len)
            && (Ascii.eqb (Str.at_ s (pos + 4)) "\" || is_upper (Str.at_ s (pos + 4))
                || is_lower (Str.at_ s (pos + 4)) || Ascii.eqb (Str.at_ s (pos + 4)) "_"))
    eqn:Hname; [|discriminate].
  apply andb_true_iff in Hname. destruct Hname as [_ Hname].
  intros H. injection H as <- <-.
  pose proof (simple_type_at_tl_marker pos st Htl) as R. cbv zeta in R.
  rewrite Hname in R. exact R.
Qed.

(** A type string that is one class name. *)
Lemma whole_class_name st name_pos after_marker :
  class_name_start s 0 = Some (name_pos, after_marker) ->
  let relative_class_name := extract_classname_from_pos s name_pos in
  let class_name :=
    resolve_uses (if after_marker
                  then get_tl_namespace_prefix ++ relative_class_name
                  else relative_class_name) in
  let klass := get_class class_name in
  name_pos + String.length relative_class_name = len ->
  parse_type_expression s 0 st =
  (Some (ClassRef klass), len,
   match klass with
   | None => push_unknown_class class_name st
   | Some k => if is_trait k then report (msg_trait (get_name k)) st else st
   end).
Proof.
  intros Hstart. cbv zeta. intros Hlen.
  pose proof (simple_type_at_class_name 0 st name_pos after_marker Hstart) as H.
  cbv zeta in H. rewrite Hlen in H.
  rewrite parse_type_expression_eq, type_array_eq, H.
  rewrite array_suffixes_eq, Nat.ltb_irrefl. cbn [andb].
  rewrite union_tail_eq, Nat.ltb_irrefl. reflexivity.
Qed.

(** *** The whole type string *)

Lemma parse_from_type_string_variadic st v pos st1 :
  parse_type_expression s 0 st = (Some v, pos, st1) ->
  (len =? pos + String.length varg_dots) && Str.ends_with s varg_dots = true ->
  parse_from_type_string s st = (Some (ArrayOf v), st1).
Proof.
  intros H Hv. unfold parse_from_type_string. rewrite H, Hv.
  apply andb_prop in Hv. destruct Hv as [Hlen _]. apply Nat.eqb_eq in Hlen.
  unfold kphp_error. rewrite Hlen, Nat.eqb_refl. reflexivity.
Qed.

Lemma parse_from_type_string_consumed st v pos st1 :
  parse_type_expression s 0 st = (Some v, pos, st1) ->
  pos = len ->
  parse_from_type_string s st = (Some v, st1).
Proof.
  intros H Hlen. unfold parse_from_type_string. rewrite H.
  replace (len =? pos + String.length varg_dots) with false
    by (symmetry; apply Nat.eqb_neq; unfold varg_dots; simpl; lia).
  simpl. unfold kphp_error. rewrite Hlen, Nat.eqb_refl. reflexivity.
Qed.

Lemma parse_from_type_string_left st v pos st1 :
  parse_type_expression s 0 st = (Some v, pos, st1) ->
  pos <> len ->
  (len =? pos + String.length varg_dots) && Str.ends_with s varg_dots = false ->
  parse_from_type_string s st = (None, report TrailingInput st1).
Proof.
  intros H Hlen Hv. unfold parse_from_type_string. rewrite H, Hv.
  unfold kphp_error. apply Nat.eqb_neq in Hlen. rewrite Hlen. reflexivity.
Qed.

Lemma parse_from_type_string_ok st v st' :
  parse_from_type_string s st = (Some v, st') ->
  exists v0 pos,
    parse_type_expression s 0 st = (Some v0, pos, st')
    /\ ((pos = len /\ v = v0)
        \/ (len = pos + String.length varg_dots
            /\ Str.ends_with s varg_dots = true /\ v = ArrayOf v0)).
Proof.
  unfold parse_from_type_string.
  destruct (parse_type_expression s 0 st) as [[[v0|] pos] st1]; try discriminate.
  destruct ((len =? pos + String.length varg_dots) && Str.ends_with s varg_dots) eqn:Hv;
    unfold kphp_error.
  - apply andb_prop in Hv. destruct Hv as [Hlen Hends]. apply Nat.eqb_eq in Hlen.
    rewrite Hlen, Nat.eqb_refl. intros H. injection H as <- <-.
    exists v0, pos. split; auto.
  - destruct (pos =? len) eqn:Hlen; try discriminate.
    apply Nat.eqb_eq in Hlen. intros H. injection H as <- <-.
    exists v0, pos. split; auto.
Qed.

(** C2, as amended.  The whole type string must be consumed.  When a
    type expression was parsed from the start of the text and
    characters remain, [parse_from_type_string] returns no vertex and
    reports "something left at the end", unless what remains is exactly
    [" ..."]; and a vertex is returned only if the expression ended at
    the end of the text, or just before a final [" ..."].  On the text
    of the claim: ["hello world"] parses to no vertex, the error being
    the one for an unknown type name, since [hello] is neither a keyword
    nor a name with a capital; ["int world"] is the case of a type
    followed by characters, and its error is "something left at the
    end". *)
Theorem whole_type_string_must_be_consumed :
  (forall st v pos st1,
      parse_type_expression s 0 st = (Some v, pos, st1) ->
      pos <> len ->
      (len =? pos + String.length varg_dots) && Str.ends_with s varg_dots = false ->
      parse_from_type_string s st = (None, report TrailingInput st1))
  /\ (forall st v st',
         parse_from_type_string s st = (Some v, st') ->
         exists v0 pos,
           parse_type_expression s 0 st = (Some v0, pos, st')
           /\ ((pos = len /\ v = v0)
               \/ (len = pos + String.length varg_dots
                   /\ Str.ends_with s varg_dots = true /\ v = ArrayOf v0)))
  /\ parse_from_type_string "hello world" init_state
     = (None, mk_state [] [UnknownTypeName "hello world"])
  /\ parse_from_type_string "int world" init_state = (None, mk_state [] [TrailingInput]).
Proof.
  split; [|split; [|split]].
  - intros st v pos st1. apply parse_from_type_string_left.
  - intros st v st'. apply parse_from_type_string_ok.
  - vm_compute. reflexivity.
  - vm_compute. reflexivity.
Qed.

(** *** Classes that are not found, and traits *)

(** C5, as amended.  A class that is not in the class table does not
    stop [parse_simple_type]: wherever the text names a class (by a
    capital letter, by a backslash, or after the marker [@tl\]), when
    the resolved name is not found, a class reference (with the null
    class pointer) is returned, the resolved name is appended to
    [unknown_classes_list], and no error is reported there.  The list
    is looked at when the type string has been parsed to its end:
    [phpdoc_parse_type] then reports the first name of the list and
    returns no vertex; with an empty list it returns what the parser
    returned.  So for a type string that is one such class name,
    [parse_from_type_string] returns the class reference and
    [phpdoc_parse_type] returns no vertex and reports the class. *)
Theorem unknown_class_is_reported_after_the_type_string :
  (forall pos st name_pos after_marker,
      class_name_start s pos = Some (name_pos, after_marker) ->
      let relative_class_name := extract_classname_from_pos s name_pos in
      let class_name :=
        resolve_uses (if after_marker
                      then get_tl_namespace_prefix ++ relative_class_name
                      else relative_class_name) in
      get_class class_name = None ->
      simple_type s pos st
      = (Some (ClassRef None), name_pos + String.length relative_class_name,
         push_unknown_class class_name st)
      /\ errors (push_unknown_class class_name st) = errors st)
  /\ (forall type_str v st' class_name rest,
         parse_from_type_string type_str init_state = (v, st') ->
         unknown_classes_list st' = class_name :: rest ->
         phpdoc_parse_type type_str = (None, (errors st' ++ [msg_unknown_class class_name])%list))
  /\ (forall type_str v st',
         parse_from_type_string type_str init_state = (v, st') ->
         unknown_classes_list st' = [] ->
         phpdoc_parse_type type_str = (v, errors st'))
  /\ (forall name_pos after_marker,
         class_name_start s 0 = Some (name_pos, after_marker) ->
         let relative_class_name := extract_classname_from_pos s name_pos in
         let class_name :=
           resolve_uses (if after_marker
                         then get_tl_namespace_prefix ++ relative_class_name
                         else relative_class_name) in
         name_pos + String.length relative_class_name = len ->
         get_class class_name = None ->
         parse_from_type_string s init_state
         = (Some (ClassRef None), push_unknown_class class_name init_state)
         /\ phpdoc_parse_type s = (None, [msg_unknown_class class_name])).
Proof.
  split; [|split; [|split]].
  - intros pos st name_pos after_marker Hstart relative_class_name class_name Hnone.
    split; [|reflexivity].
    pose proof (simple_type_at_class_name pos st name_pos after_marker Hstart) as H.
    cbv zeta in H. fold relative_class_name class_name in H. rewrite Hnone in H. exact H.
  - intros type_str v st' class_name rest H Hl. unfold phpdoc_parse_type.
    rewrite H, Hl. reflexivity.
  - intros type_str v st' H Hl. unfold phpdoc_parse_type. rewrite H, Hl. reflexivity.
  - intros name_pos after_marker Hstart relative_class_name class_name Hlen Hnone.
    pose proof (whole_class_name init_state name_pos after_marker Hstart Hlen) as H.
    fold relative_class_name class_name in H. rewrite Hnone in H.
    pose proof (parse_from_type_string_consumed _ _ _ _ H eq_refl) as Hfrom.
    split; [exact Hfrom|]. unfold phpdoc_parse_type. rewrite Hfrom. reflexivity.
Qed.

Lemma trait_message_is_not_unknown_type_name class_name type_str :
  TraitUsedAsType class_name <> UnknownTypeName type_str.
Proof. discriminate. Qed.

(** C9, as amended.  A trait used as a type has an error of its own,
    and the parse goes on.  Wherever the text names a class (by a
    capital letter, by a backslash, or after the marker [@tl\]), when
    the resolved name is that of a trait, [parse_simple_type] reports
    "You may not use trait(...) as a type-hint", a message that is
    never the one for an unknown type name, appends nothing to
    [unknown_classes_list], and still returns the class reference to
    the trait; [parse_type_array] goes on from there with the array
    suffixes.  So for a type string that is one such name,
    [parse_from_type_string] and [phpdoc_parse_type] both return the
    class reference, with the one error. *)
Theorem trait_as_type_is_reported_and_parsed :
  (forall pos st name_pos after_marker k,
      class_name_start s pos = Some (name_pos, after_marker) ->
      let relative_class_name := extract_classname_from_pos s name_pos in
      let class_name :=
        resolve_uses (if after_marker
                      then get_tl_namespace_prefix ++ relative_class_name
                      else relative_class_name) in
      get_class class_name = Some k ->
      is_trait k = true ->
      simple_type s pos st
      = (Some (ClassRef (Some k)), name_pos + String.length relative_class_name,
         report (TraitUsedAsType (get_name k)) st)
      /\ type_array s pos st
         = array_suffixes s (ClassRef (Some k))
                          (name_pos + String.length relative_class_name)
                          (report (TraitUsedAsType (get_name k)) st))
  /\ (forall class_name type_str, TraitUsedAsType class_name <> UnknownTypeName type_str)
  /\ (forall st name_pos after_marker k,
         class_name_start s 0 = Some (name_pos, after_marker) ->
         let relative_class_name := extract_classname_from_pos s name_pos in
         let class_name :=
           resolve_uses (if after_marker
                         then get_tl_namespace_prefix ++ relative_class_name
                         else relative_class_name) in
         name_pos + String.length relative_class_name = len ->
         get_class class_name = Some k ->
         is_trait k = true ->
         parse_from_type_string s st
         = (Some (ClassRef (Some k)), report (TraitUsedAsType (get_name k)) st)
         /\ phpdoc_parse_type s = (Some (ClassRef (Some k)), [TraitUsedAsType (get_name k)])).
Proof.
  split; [|split].
  - intros pos st name_pos after_marker k Hstart relative_class_name class_name Hk Htrait.
    pose proof (simple_type_at_class_name pos st name_pos after_marker Hstart) as H.
    cbv zeta in H. fold relative_class_name class_name in H. rewrite Hk, Htrait in H.
    split; [exact H|]. rewrite type_array_eq, H. reflexivity.
  - apply trait_message_is_not_unknown_type_name.
  - intros st name_pos after_marker k Hstart relative_class_name class_name Hlen Hk Htrait.
    assert (Hfrom : forall st0,
               parse_from_type_string s st0
               = (Some (ClassRef (Some k)), report (TraitUsedAsType (get_name k)) st0)).
    { intros st0.
      pose proof (whole_class_name st0 name_pos after_marker Hstart Hlen) as H.
      fold relative_class_name class_name in H. rewrite Hk, Htrait in H.
      exact (parse_from_type_string_consumed _ _ _ _ H eq_refl). }
    split; [apply Hfrom|]. unfold phpdoc_parse_type. rewrite Hfrom. reflexivity.
Qed.

End GrammarFacts.

(** ** The tag extractor *)

Lemma split_lines_cons body : exists l ls, split_lines body = l :: ls.
Proof.
  destruct body as [|c rest]; simpl; eauto.
  destruct (Ascii.eqb c Str.newline); eauto.
  destruct (split_lines rest); eauto.
Qed.

Lemma is_blank_not_newline c : is_blank c = true -> Ascii.eqb c Str.newline = false.
Proof.
  unfold is_blank. intros H. apply orb_prop in H.
  destruct H as [H | H]; apply Ascii.eqb_eq in H; subst; reflexivity.
Qed.

Lemma scan_lines_well_marked body :
  forall lines have_star,
    (exists lines', scan_lines body lines have_star = Some lines')
    <-> (if have_star then rest_well_marked (split_lines body)
         else lines_well_marked (split_lines body)) = true.
Proof.
  induction body as [|c rest IH]; intros lines have_star.
  - simpl. destruct have_star; simpl; split; eauto.
  - simpl scan_lines. destruct have_star; simpl negb; cbv iota.
    + destruct (Ascii.eqb c Str.newline) eqn:Hnl.
      * rewrite IH. simpl. rewrite Hnl.
        destruct (split_lines_cons rest) as (l & ls & ->). reflexivity.
      * assert (Hsame : rest_well_marked (split_lines (String c rest))
                        = rest_well_marked (split_lines rest)).
        { simpl. rewrite Hnl.
          destruct (split_lines_cons rest) as (l & ls & ->). reflexivity. }
        rewrite Hsame.
        destruct ((String.length (back lines) =? 0) && is_blank c); apply IH.
    + destruct (is_blank c) eqn:Hb.
      * rewrite IH. simpl. rewrite (is_blank_not_newline c Hb).
        destruct (split_lines_cons rest) as (l & ls & ->). simpl. rewrite Hb.
        reflexivity.
      * destruct (Ascii.eqb c "*") eqn:Hstar.
        -- rewrite IH. simpl.
           replace (Ascii.eqb c Str.newline) with false
             by (apply Ascii.eqb_eq in Hstar; subst; reflexivity).
           destruct (split_lines_cons rest) as (l & ls & ->). simpl.
           rewrite Hb, Hstar. destruct ls; reflexivity.
        -- split; [intros [lines' H]; discriminate|].
           simpl. destruct (Ascii.eqb c Str.newline) eqn:Hnl.
           ++ destruct (split_lines_cons rest) as (l & ls & ->). simpl. discriminate.
           ++ destruct (split_lines_cons rest) as (l & ls & ->). simpl.
              rewrite Hb, Hstar. simpl. destruct ls; discriminate.
Qed.

(** ** Line numbers of the tags *)

Section LineNumbers.

Local Open Scope list_scope.

Variable d : Z.      (* line_num_of_function_declaration *)
Variable n : nat.    (* lines.size() *)

Local Abbreviation line_of := (source_line_at d n).

Lemma tag_back_snoc result t : tag_back (result ++ [t]) = t.
Proof. unfold tag_back. apply last_last. Qed.

Lemma set_tag_back_snoc result t t' : set_tag_back (result ++ [t]) t' = result ++ [t'].
Proof. unfold set_tag_back. rewrite removelast_last. reflexivity. Qed.

Lemma tags_loop_app l1 :
  forall l2 i result,
    tags_loop d n (l1 ++ l2) i result
    = tags_loop d n l2 (i + List.length l1) (tags_loop d n l1 i result).
Proof.
  induction l1 as [|line l1 IH]; intros l2 i result; simpl.
  - rewrite Nat.add_0_r. reflexivity.
  - rewrite IH. f_equal. lia.
Qed.

(** One line added to a sequence ending in [t]: either [t] is replaced,
    or one tag is appended. *)
Lemma step_snoc result t line i :
  exists t',
    set_line_num d n i (add_line (result ++ [t]) line)
    = (if starts_tag line then result ++ [t; t'] else result ++ [t'])
    /\ line_num t' = (if (0 <? d)%Z then line_of i
                      else if starts_tag line then None else line_num t)
    /\ name t' = (if starts_tag line then tag_name line else name t).
Proof.
  unfold add_line, set_line_num, starts_tag, source_line_at, tag_name.
  destruct (Ascii.eqb (Str.at_ line 0) "@"); simpl negb; cbv iota.
  - destruct (0 <? d)%Z; eexists; (split; [|split]).
    + rewrite tag_back_snoc, set_tag_back_snoc.
      rewrite <- app_assoc. simpl. reflexivity.
    + reflexivity.
    + simpl. destruct (Str.find " " line 0); reflexivity.
    + rewrite <- app_assoc. simpl. reflexivity.
    + reflexivity.
    + simpl. destruct (Str.find " " line 0); reflexivity.
  - rewrite tag_back_snoc, set_tag_back_snoc.
    destruct (0 <? d)%Z; eexists; (split; [|split]).
    + rewrite tag_back_snoc, set_tag_back_snoc. reflexivity.
    + reflexivity.
    + reflexivity.
    + reflexivity.
    + reflexivity.
    + reflexivity.
Qed.

(** The loop never touches a tag that is not the last one. *)
Lemma tags_loop_keeps todo :
  forall i result t,
    exists t' more, tags_loop d n todo i (result ++ [t]) = result ++ t' :: more.
Proof.
  induction todo as [|line todo IH]; intros i result t; simpl.
  - eauto.
  - destruct (step_snoc result t line i) as (t' & -> & _).
    destruct (starts_tag line).
    + destruct (IH (S i) (result ++ [t]) t') as (t'' & more & E).
      replace (result ++ [t; t']) with ((result ++ [t]) ++ [t'])
        by (rewrite <- app_assoc; reflexivity).
      rewrite E. rewrite <- app_assoc. simpl. eauto.
    + apply IH.
Qed.

(** Lines that open no tag all go to the tag at the back, whose line
    number is that of the last of them. *)
Lemma tags_loop_continuations conts :
  forallb (fun line => negb (starts_tag line)) conts = true ->
  forall i result t,
    exists t',
      tags_loop d n conts i (result ++ [t]) = result ++ [t']
      /\ line_num t' = match conts with
                       | [] => line_num t
                       | _ :: _ => if (0 <? d)%Z
                                   then line_of (i + List.length conts - 1)
                                   else line_num t
                       end
      /\ name t' = name t.
Proof.
  induction conts as [|line conts IH]; intros Hc i result t; simpl.
  - eauto.
  - simpl in Hc. apply andb_prop in Hc. destruct Hc as [Hline Hc].
    apply negb_true_iff in Hline.
    destruct (step_snoc result t line i) as (t1 & -> & Ht1 & Hn1). rewrite Hline in *.
    destruct (IH Hc (S i) result t1) as (t' & -> & Ht' & Hn').
    exists t'. split; [|split]; auto; [|congruence]. rewrite Ht'.
    destruct conts as [|line' conts].
    + rewrite Ht1. simpl. replace (i + 1 - 1) with i by lia.
      destruct (0 <? d)%Z; reflexivity.
    + simpl List.length. replace (S i + S (List.length conts) - 1)
        with (i + S (S (List.length conts)) - 1) by lia.
      destruct (0 <? d)%Z; auto.
Qed.

Lemma tags_loop_length todo :
  forall i result t,
    List.length (tags_loop d n todo i (result ++ [t]))
    = S (List.length result + List.length (filter starts_tag todo)).
Proof.
  induction todo as [|line todo IH]; intros i result t; simpl.
  - rewrite length_app. simpl. lia.
  - destruct (step_snoc result t line i) as (t' & -> & _ & _).
    destruct (starts_tag line).
    + replace (result ++ [t; t']) with ((result ++ [t]) ++ [t'])
        by (rewrite <- app_assoc; reflexivity).
      rewrite IH. rewrite length_app. simpl. lia.
    + apply IH.
Qed.

Local Abbreviation line_num_ok := (line_num_given d n).

Lemma tags_loop_line_nums todo :
  forall i result t,
    Forall line_num_ok (result ++ [t]) ->
    Forall line_num_ok (tags_loop d n todo i (result ++ [t])).
Proof.
  induction todo as [|line todo IH]; intros i result t H; simpl; auto.
  destruct (step_snoc result t line i) as (t' & -> & Ht' & _).
  apply Forall_app in H. destruct H as [Hres Ht]. inversion Ht as [|? ? Pt _]; subst.
  assert (Pt' : line_num_ok t').
  { unfold line_num_given in *. rewrite Ht'.
    destruct (0 <? d)%Z; [right; eauto|]. destruct (starts_tag line); auto. }
  destruct (starts_tag line).
  - replace (result ++ [t; t']) with ((result ++ [t]) ++ [t'])
      by (rewrite <- app_assoc; reflexivity).
    apply IH. apply Forall_app. split; [apply Forall_app; split|]; auto.
  - apply IH. apply Forall_app. split; auto.
Qed.

(** The tag opened by [tagline], after the lines [pre]: its line number
    is that of its last line, [conts] being its continuation lines. *)
Lemma tag_line_num pre tagline conts post :
  starts_tag tagline = true ->
  forallb (fun line => negb (starts_tag line)) conts = true ->
  match post with [] => true | line :: _ => starts_tag line end = true ->
  let tag := nth (S (List.length (filter starts_tag pre)))
                 (tags_loop d n (pre ++ tagline :: conts ++ post) 0 [empty_tag])
                 empty_tag in
  line_num tag = line_of (List.length pre + List.length conts)
  /\ name tag = tag_name tagline.
Proof.
  intros Htag Hconts Hpost. cbv zeta.
  rewrite tags_loop_app. simpl Nat.add.
  pose proof (tags_loop_length pre 0 [] empty_tag) as Hlen.
  destruct (tags_loop_keeps pre 0 [] empty_tag) as (t0 & more & E).
  simpl in Hlen, E. rewrite E in *. clear E.
  destruct (exists_last (l := t0 :: more)) as (R1 & tb & E); [discriminate|].
  rewrite E in *. clear E. rewrite length_app in Hlen. simpl in Hlen.
  assert (HR1 : List.length R1 = List.length (filter starts_tag pre)) by lia.
  clear Hlen. simpl tags_loop.
  destruct (step_snoc R1 tb tagline (List.length pre)) as (tg & -> & Htg & Hntg).
  rewrite Htag in *.
  replace (R1 ++ [tb; tg]) with ((R1 ++ [tb]) ++ [tg])
    by (rewrite <- app_assoc; reflexivity).
  rewrite tags_loop_app.
  destruct (tags_loop_continuations conts Hconts (S (List.length pre)) (R1 ++ [tb]) tg)
    as (tg' & -> & Htg' & Hntg').
  assert (Hfinal : line_num tg' = line_of (List.length pre + List.length conts)
                   /\ name tg' = tag_name tagline).
  { split; [|congruence]. rewrite Htg'. destruct conts as [|c conts].
    - rewrite Htg, Nat.add_0_r. unfold source_line_at. destruct (0 <? d)%Z; reflexivity.
    - simpl List.length.
      replace (S (List.length pre) + S (List.length conts) - 1)
        with (List.length pre + S (List.length conts)) by lia.
      rewrite Htg. unfold source_line_at. destruct (0 <? d)%Z; reflexivity. }
  assert (Hnth : forall tail,
             nth (S (List.length (filter starts_tag pre)))
                 (((R1 ++ [tb]) ++ [tg']) ++ tail) empty_tag = tg').
  { intros tail. rewrite <- HR1. rewrite <- app_assoc.
    replace (S (List.length R1)) with (List.length (R1 ++ [tb]) + 0)
      by (rewrite length_app; simpl; lia).
    rewrite app_nth2_plus. reflexivity. }
  destruct post as [|line post].
  - simpl. rewrite <- (app_nil_r ((R1 ++ [tb]) ++ [tg'])). rewrite Hnth. exact Hfinal.
  - simpl.
    destruct (step_snoc (R1 ++ [tb]) tg' line (S (List.length pre + List.length conts)))
      as (t2 & -> & _ & _).
    rewrite Hpost.
    replace ((R1 ++ [tb]) ++ [tg'; t2]) with (((R1 ++ [tb]) ++ [tg']) ++ [t2])
      by (rewrite <- app_assoc; reflexivity).
    destruct (tags_loop_keeps post (S (S (List.length pre + List.length conts)))
                              ((R1 ++ [tb]) ++ [tg']) t2) as (t2' & more2 & ->).
    rewrite Hnth. exact Hfinal.
Qed.

(** The tags come in the order of the lines that open them, after the
    tag of the leading text. *)
Lemma tags_loop_names todo :
  forall i result t,
    map name (tags_loop d n todo i (result ++ [t]))
    = map name (result ++ [t]) ++ map tag_name (filter starts_tag todo).
Proof.
  induction todo as [|line todo IH]; intros i result t; simpl.
  - rewrite app_nil_r. reflexivity.
  - destruct (step_snoc result t line i) as (t' & -> & _ & Hn).
    destruct (starts_tag line).
    + replace (result ++ [t; t']) with ((result ++ [t]) ++ [t'])
        by (rewrite <- app_assoc; reflexivity).
      rewrite IH. rewrite (map_app name (result ++ [t]) [t']). simpl.
      rewrite Hn, <- app_assoc. reflexivity.
    + rewrite IH. rewrite !map_app. simpl. rewrite Hn. reflexivity.
Qed.

End LineNumbers.



(** C3, as amended.  [parse_php_doc] returns for every comment body,
    and the dividing line is the marker of each line: when every line
    of the body but the last has its ['*'] with only spaces and tabs
    before it, and the last line has such a marker or holds spaces and
    tabs only, no error is reported and the tags are returned in the
    order of the lines that open them, after the tag of the leading
    text (so the sequence is never empty); otherwise, which includes a
    line that ends before any marker, "failed to parse php_doc" is
    reported and the sequence is empty. *)
Theorem extraction_succeeds_iff_well_marked :
  forall (line_num_of_function_declaration : Z) (phpdoc : string),
    if well_marked phpdoc
    then exists lines,
        scan_lines phpdoc [""] false = Some lines
        /\ snd (parse_php_doc line_num_of_function_declaration phpdoc) = []
        /\ map name (fst (parse_php_doc line_num_of_function_declaration phpdoc))
           = "" :: map tag_name (filter starts_tag lines)
    else parse_php_doc line_num_of_function_declaration phpdoc = ([], [msg_failed_php_doc]).
Proof.
  intros d phpdoc. unfold parse_php_doc, well_marked.
  pose proof (scan_lines_well_marked phpdoc [""] false) as H. cbv iota in H.
  destruct (lines_well_marked (split_lines phpdoc)).
  - destruct (proj2 H eq_refl) as [lines' ->]. exists lines'. simpl.
    repeat split.
    apply (tags_loop_names d (List.length lines') lines' 0 [] empty_tag).
  - destruct (scan_lines phpdoc [""] false) as [lines'|]; auto.
    assert (false = true) by (apply H; eauto). discriminate.
Qed.

(** The claim C3 fails on a body with an empty line in its middle: no
    line of it has anything before its marker, and the extraction
    fails. *)
Lemma empty_line_fails_extraction :
  let phpdoc := comment ["* @var int $a"; ""; "* text"] in
  no_stray_before_marker phpdoc = true
  /\ parse_php_doc 10 phpdoc = ([], [msg_failed_php_doc]).
Proof. vm_compute. split; reflexivity. Qed.

(** ** The tokenizer *)

Lemma find_spec c (str : string) :
  forall from p, Str.find c str from = Some p ->
    from <= p /\ p < String.length str /\ Str.at_ str p = c.
Proof.
  induction str as [|a str IH]; intros from p H; simpl in H.
  - discriminate.
  - destruct from as [|from].
    + destruct (Ascii.eqb a c) eqn:Hac.
      * injection H as <-. apply Ascii.eqb_eq in Hac. subst. simpl.
        repeat split; try lia.
      * destruct (Str.find c str 0) as [q|] eqn:E; try discriminate.
        injection H as <-. apply IH in E. destruct E as (_ & Hq & Hc).
        simpl. repeat split; try lia. exact Hc.
    + destruct (Str.find c str from) as [q|] eqn:E; try discriminate.
      injection H as <-. apply IH in E. destruct E as (Hf & Hq & Hc).
      simpl. repeat split; try lia. exact Hc.
Qed.

Lemma substring_split (str : string) :
  forall a n m,
    substring a (n + m) str = (substring a n str ++ substring (a + n) m str)%string.
Proof.
  induction str as [|c str IH]; intros a n m.
  - destruct a, n, m; reflexivity.
  - destruct a as [|a].
    + destruct n as [|n].
      * reflexivity.
      * simpl. rewrite (IH 0 n m). reflexivity.
    + simpl. apply IH.
Qed.

Lemma length_substring (str : string) :
  forall a n, a + n <= String.length str -> String.length (substring a n str) = n.
Proof.
  induction str as [|c str IH]; intros a n H; simpl in H.
  - destruct a, n; simpl; lia.
  - destruct a as [|a].
    + destruct n as [|n]; simpl; auto. rewrite IH; lia.
    + simpl. apply IH. lia.
Qed.

Lemma substring_head_at (str : string) :
  forall a n, a < String.length str ->
    exists r, substring a (S n) str = String (Str.at_ str a) r.
Proof.
  induction str as [|c str IH]; intros a n H; simpl in H.
  - lia.
  - destruct a as [|a].
    + simpl. eauto.
    + simpl. unfold Str.at_ in *. simpl. apply IH. lia.
Qed.

Lemma append_same_length_inv (a : string) :
  forall a' b b',
    String.length a = String.length a' ->
    (a ++ b)%string = (a' ++ b')%string -> a = a' /\ b = b'.
Proof.
  induction a as [|c a IH]; intros [|c' a'] b b' Hl H; simpl in *; try discriminate.
  - auto.
  - injection H as -> H. apply IH in H; [|lia]. destruct H as [-> ->]. auto.
Qed.

Lemma leading_spaces_cons c r :
  Str.leading_spaces (String c r)
  = if Ascii.eqb c " " then S (Str.leading_spaces r) else 0.
Proof.
  destruct c as [[] [] [] [] [] [] [] []]; reflexivity.
Qed.

Lemma leading_spaces_stop (str : string) :
  let k := Str.leading_spaces str in
  k <= String.length str /\ (k < String.length str -> Str.at_ str k <> " "%char).
Proof.
  induction str as [|c str [IH1 IH2]]; cbv zeta.
  - simpl. split; lia.
  - rewrite leading_spaces_cons. destruct (Ascii.eqb c " ") eqn:Hc.
    + simpl. split; [lia|]. intros Hk. unfold Str.at_ in *. simpl. apply IH2. lia.
    + split; [simpl; lia|]. intros _. unfold Str.at_. simpl.
      apply Ascii.eqb_neq. exact Hc.
Qed.

Lemma leading_spaces_at (str : string) a :
  a < String.length str -> Str.at_ str a <> " "%char ->
  Str.leading_spaces (Str.substr_from str a) = 0.
Proof.
  intros Ha Hc. unfold Str.substr_from.
  destruct (substring_from_at str a Ha) as [r ->].
  rewrite leading_spaces_cons. apply Ascii.eqb_neq in Hc. rewrite Hc. reflexivity.
Qed.

Lemma substr_from_end (str : string) a :
  String.length str <= a -> Str.substr_from str a = "".
Proof.
  intros Ha. unfold Str.substr_from.
  replace (String.length str - a) with 0 by lia.
  generalize dependent a. induction str as [|c str IH]; intros a Ha.
  - destruct a; reflexivity.
  - destruct a as [|a]; simpl in *; [lia|]. apply IH. lia.
Qed.

Lemma token_start_0 value : token_start value 0 = Str.leading_spaces value.
Proof.
  unfold token_start. simpl.
  destruct (leading_spaces_stop value) as [Hle Hstop]. cbv zeta in *.
  destruct (Nat.eq_dec (Str.leading_spaces value) (String.length value)) as [E|E].
  - rewrite substr_from_end by lia. simpl. lia.
  - rewrite leading_spaces_at; [lia | lia | apply Hstop; lia].
Qed.

Lemma get_value_token_eq value chars_offset :
  get_value_token value chars_offset =
  let start := token_start value chars_offset in
  if String.length value <=? start then ""
  else
    match Str.find " " value start with
    | None => Str.substr_from value start
    | Some pos =>
        let pos :=
          if (pos + 5 <? String.length value)
             && String.eqb (Str.substr value pos 5) varg_dots_dollar
          then pos + 4 else pos in
        Str.substr value start (pos - start)
    end.
Proof. reflexivity. Qed.

(** The variadic marker at the end of a token: the dots go to the
    token, the ['$'] starts the next one. *)
Lemma get_value_token_variadic value chars_offset pos :
  let start := token_start value chars_offset in
  start < String.length value ->
  Str.find " " value start = Some pos ->
  Str.substr value pos 5 = " ...$" ->
  pos + 5 < String.length value ->
  get_value_token value chars_offset
  = (Str.substr value start (pos - start) ++ " ...")%string
  /\ String.length (get_value_token value chars_offset) = pos + 4 - start
  /\ Str.at_ value (pos + 4) = "$"%char.
Proof.
  intros start Hstart Hfind Hdots Hlen.
  destruct (find_spec _ _ _ _ Hfind) as (Hge & Hlt & _).
  assert (Hparts : substring pos 4 value = " ..." /\ substring (pos + 4) 1 value = "$").
  { apply append_same_length_inv.
    - rewrite length_substring by lia. reflexivity.
    - rewrite <- substring_split. exact Hdots. }
  destruct Hparts as [H4 H1].
  rewrite get_value_token_eq. fold start. cbv zeta.
  replace (String.length value <=? start) with false
    by (symmetry; apply Nat.leb_gt; lia).
  rewrite Hfind.
  replace (pos + 5 <? String.length value) with true
    by (symmetry; apply Nat.ltb_lt; lia).
  rewrite Hdots. simpl andb. cbv iota.
  split; [|split].
  - unfold Str.substr. replace (pos + 4 - start) with ((pos - start) + 4) by lia.
    rewrite substring_split. replace (start + (pos - start)) with pos by lia.
    rewrite H4. reflexivity.
  - unfold Str.substr. apply length_substring. lia.
  - apply (substr_head value (pos + 4) 1 "$" ""). exact H1.
Qed.

Lemma next_token_keeps_dollar value pos :
  let start := token_start value 0 in
  start < String.length value ->
  Str.find " " value start = Some pos ->
  Str.substr value pos 5 = " ...$" ->
  pos + 5 < String.length value ->
  Str.at_ (get_value_token value (String.length (get_value_token value 0))) 0 = "$"%char.
Proof.
  intros start Hstart Hfind Hdots Hlen.
  destruct (get_value_token_variadic value 0 pos Hstart Hfind Hdots Hlen)
    as (_ & Hl & Hdollar).
  fold start in Hl. rewrite Hl.
  destruct (find_spec _ _ _ _ Hfind) as (Hge & Hlt & _).
  assert (Hstart0 : start = Str.leading_spaces value) by apply token_start_0.
  assert (Hnext : token_start value (pos + 4 - start) = pos + 4).
  { unfold token_start. rewrite <- Hstart0.
    replace (pos + 4 - start + start) with (pos + 4) by lia.
    rewrite leading_spaces_at; [lia | lia |]. rewrite Hdollar. discriminate. }
  rewrite get_value_token_eq. cbv zeta. rewrite Hnext.
  replace (String.length value <=? pos + 4) with false
    by (symmetry; apply Nat.leb_gt; lia).
  destruct (Str.find " " value (pos + 4)) as [q|] eqn:Hq.
  - destruct (find_spec _ _ _ _ Hq) as (Hqge & Hqlt & Hqc).
    assert (q <> pos + 4) by (intros ->; rewrite Hdollar in Hqc; discriminate).
    match goal with
    | |- context [Str.substr value (pos + 4) (?e - (pos + 4))] => set (q' := e)
    end.
    assert (Hq' : q <= q')
      by (subst q'; match goal with |- context [if ?b then _ else _] => destruct b end; lia).
    unfold Str.substr. replace (q' - (pos + 4)) with (S (q' - (pos + 4) - 1)) by lia.
    destruct (substring_head_at value (pos + 4) (q' - (pos + 4) - 1)) as [r ->]; [lia|].
    unfold Str.at_ at 1. simpl. exact Hdollar.
  - unfold Str.substr_from.
    destruct (substring_from_at value (pos + 4)) as [r ->]; [lia|].
    unfold Str.at_ at 1. simpl. exact Hdollar.
Qed.





(** ** The two tokens of a tag value *)

Lemma length_append (a b : string) :
  String.length (a ++ b) = String.length a + String.length b.
Proof. induction a as [|c a IH]; simpl; auto. Qed.

Lemma append_empty_r (b : string) : b ++ "" = b.
Proof. induction b as [|c b IH]; simpl; congruence. Qed.

Lemma string_append_assoc (a b c : string) : (a ++ b) ++ c = a ++ b ++ c.
Proof. induction a as [|x a IH]; simpl; congruence. Qed.

Lemma substring_append_right (a : string) :
  forall b k m, substring (String.length a + k) m (a ++ b) = substring k m b.
Proof. induction a as [|c a IH]; intros b k m; simpl; auto. Qed.

Lemma substring_all (b : string) : substring 0 (String.length b) b = b.
Proof. induction b as [|c b IH]; simpl; auto. rewrite IH. reflexivity. Qed.

Lemma substring_append_left (a : string) :
  forall b, substring 0 (String.length a) (a ++ b) = a.
Proof.
  induction a as [|c a IH]; intros b; simpl.
  - destruct b; reflexivity.
  - rewrite IH. reflexivity.
Qed.

Lemma substr_from_append (a b : string) k :
  Str.substr_from (a ++ b) (String.length a + k) = Str.substr_from b k.
Proof.
  unfold Str.substr_from. rewrite length_append, substring_append_right.
  f_equal. lia.
Qed.

Lemma substr_from_0 (b : string) : Str.substr_from b 0 = b.
Proof. unfold Str.substr_from. rewrite Nat.sub_0_r. apply substring_all. Qed.

Lemma find_append_right c (a : string) :
  forall b k,
    Str.find c (a ++ b) (String.length a + k)
    = option_map (Nat.add (String.length a)) (Str.find c b k).
Proof.
  induction a as [|x a IH]; intros b k; simpl.
  - destruct (Str.find c b k); reflexivity.
  - rewrite IH. destruct (Str.find c b k); reflexivity.
Qed.

Lemma find_no_space (b : string) :
  no_space b = true ->
  forall tail,
    Str.find " " (b ++ tail) 0
    = option_map (Nat.add (String.length b)) (Str.find " " tail 0).
Proof.
  induction b as [|x b IH]; intros Hb tail; simpl in *.
  - destruct (Str.find " " tail 0); reflexivity.
  - apply andb_prop in Hb. destruct Hb as [Hx Hb]. apply negb_true_iff in Hx.
    rewrite Hx, (IH Hb). destruct (Str.find " " tail 0); reflexivity.
Qed.

Lemma no_space_head c r : no_space (String c r) = true -> Ascii.eqb c " " = false.
Proof. simpl. intros H. apply andb_prop in H. apply negb_true_iff. tauto. Qed.

(** The token [b] read where it starts, after [pre] and before [tail]. *)
Lemma token_at (pre b tail : string) x r chars_offset :
  b = String x r -> no_space b = true -> free_text tail = true ->
  token_start (pre ++ b ++ tail) chars_offset = String.length pre ->
  get_value_token (pre ++ b ++ tail) chars_offset = b.
Proof.
  intros Hb Hns Htail Hstart.
  rewrite get_value_token_eq. cbv zeta. rewrite Hstart.
  replace (String.length (pre ++ b ++ tail) <=? String.length pre) with false.
  2:{ symmetry. apply Nat.leb_gt. rewrite length_append, length_append.
      rewrite Hb. simpl. lia. }
  rewrite <- (Nat.add_0_r (String.length pre)).
  rewrite find_append_right, (find_no_space b Hns).
  destruct tail as [|y tail].
  - simpl option_map. cbv beta iota. rewrite substr_from_append, substr_from_0.
    apply append_empty_r.
  - unfold free_text in Htail. apply andb_prop in Htail. destruct Htail as [Hy Hpre].
    apply Ascii.eqb_eq in Hy. subst y. simpl option_map. cbv beta iota zeta.
    replace (Str.substr (pre ++ b ++ String " " tail)
                        (String.length pre + (String.length b + 0)) 5)
      with (substring 0 5 (String " " tail)).
    2:{ unfold Str.substr. rewrite substring_append_right.
        rewrite <- (substring_append_right b (String " " tail) 0 5).
        f_equal. }
    replace (String.eqb (substring 0 5 (String " " tail)) varg_dots_dollar) with false.
    2:{ symmetry. apply String.eqb_neq. intros E.
        apply negb_true_iff in Hpre.
        assert (String.prefix varg_dots_dollar (String " " tail) = true)
          by (apply prefix_correct; exact E).
        congruence. }
    rewrite andb_false_r.
    unfold Str.substr.
    replace (String.length pre + (String.length b + 0) - (String.length pre + 0))
      with (String.length b) by lia.
    rewrite substring_append_right. apply substring_append_left.
Qed.

Lemma first_token (b tail : string) x r :
  b = String x r -> no_space b = true -> free_text tail = true ->
  get_value_token (b ++ tail) 0 = b.
Proof.
  intros Hb Hns Htail. apply (token_at "" b tail x r 0 Hb Hns Htail).
  rewrite token_start_0, Hb. cbn [append String.length]. rewrite leading_spaces_cons.
  rewrite (no_space_head x r) by congruence. reflexivity.
Qed.

Lemma second_token (a b tail : string) xa ra x r :
  a = String xa ra -> no_space a = true ->
  b = String x r -> no_space b = true -> free_text tail = true ->
  get_value_token (a ++ String " " (b ++ tail)) (String.length a) = b.
Proof.
  intros Ha Hnsa Hb Hns Htail.
  replace (a ++ String " " (b ++ tail)) with ((a ++ " ") ++ b ++ tail)
    by (rewrite string_append_assoc; reflexivity).
  apply (token_at (a ++ " ") b tail x r (String.length a) Hb Hns Htail).
  rewrite string_append_assoc. cbn [append].
  unfold token_start.
  replace (Str.leading_spaces (a ++ String " " (b ++ tail))) with 0.
  2:{ rewrite Ha. cbn [append]. rewrite leading_spaces_cons.
      rewrite (no_space_head xa ra) by congruence. reflexivity. }
  rewrite Nat.add_0_r. rewrite <- (Nat.add_0_r (String.length a)) at 2.
  rewrite substr_from_append, substr_from_0.
  rewrite leading_spaces_cons. cbn [Ascii.eqb Bool.eqb]. rewrite Hb at 1. cbn [append].
  rewrite leading_spaces_cons, (no_space_head x r) by congruence.
  rewrite length_append. simpl. lia.
Qed.

Lemma substr_from_tail c (b : string) : Str.substr_from (String c b) 1 = b.
Proof. unfold Str.substr_from. simpl. rewrite Nat.sub_0_r. apply substring_all. Qed.

(** C4.  The name of the variable and the type are found in either
    order.  For every name [n] and every type text [t] written without
    a space, [t] not starting with ['$'], followed by nothing or by a
    space and free text: the value ["$n t..."] and the value
    ["t $n..."] both give the name [n] and the type text [t].  On the
    values of the claim: ["$a bool "] and ["bool $a "] give the name
    ["a"] and the type text ["bool"]; ["$a"] gives the name ["a"] and
    an empty type text; ["mixed some comment"] gives an empty name and
    the type text ["mixed"], the free text being left out.  The same
    holds through [find_tag_in_phpdoc] on a comment with a [@var] tag
    of that value, whatever the line of the declaration. *)
Theorem var_name_and_type_in_either_order :
  (forall n t tail x r nm kind ln,
      t = String x r -> x <> "$"%char ->
      no_space n = true -> no_space t = true ->
      free_text tail = true -> free_text (String " " (t ++ tail)) = true ->
      split_var_and_type (mk_tag nm kind (String "$" n ++ String " " (t ++ tail)) ln)
      = (n, t)
      /\ split_var_and_type (mk_tag nm kind (t ++ String " " (String "$" n ++ tail)) ln)
         = (n, t))
  /\ (forall nm kind ln,
         split_var_and_type (mk_tag nm kind "$a bool " ln) = ("a", "bool")
         /\ split_var_and_type (mk_tag nm kind "bool $a " ln) = ("a", "bool")
         /\ split_var_and_type (mk_tag nm kind "$a" ln) = ("a", "")
         /\ split_var_and_type (mk_tag nm kind "mixed some comment" ln) = ("", "mixed"))
  /\ (forall d,
         find_tag_in_phpdoc d "* @var $a bool " var 0 = Some ("a", "bool")
         /\ find_tag_in_phpdoc d "* @var bool $a " var 0 = Some ("a", "bool")
         /\ find_tag_in_phpdoc d "* @var $a" var 0 = Some ("a", "")
         /\ find_tag_in_phpdoc d "* @var mixed some comment" var 0 = Some ("", "mixed")).
Proof.
  split; [|split].
  - intros n t tail x r nm kind ln Ht Hx Hn Hns Htail Hafter.
    assert (Hdn : no_space (String "$" n) = true) by (simpl; exact Hn).
    unfold split_var_and_type. cbn [value]. split.
    + rewrite (first_token (String "$" n) (String " " (t ++ tail)) "$" n eq_refl Hdn Hafter).
      rewrite (second_token (String "$" n) t tail "$" n x r eq_refl Hdn Ht Hns Htail).
      cbn [String.length Nat.eqb negb andb Str.at_ String.get].
      cbn [Ascii.eqb Bool.eqb]. rewrite substr_from_tail. reflexivity.
    + assert (Hafter' : free_text (String " " (String "$" n ++ tail)) = true)
        by reflexivity.
      rewrite (first_token t (String " " (String "$" n ++ tail)) x r Ht Hns Hafter').
      rewrite (second_token t (String "$" n) tail x r "$" n Ht Hns eq_refl Hdn Htail).
      rewrite Ht at 1 2. cbn [String.length Nat.eqb negb andb Str.at_ String.get].
      replace (Ascii.eqb x "$") with false
        by (symmetry; apply Ascii.eqb_neq; exact Hx).
      cbn [Ascii.eqb Bool.eqb]. rewrite substr_from_tail. reflexivity.
  - intros nm kind ln. repeat split; reflexivity.
  - intros d. unfold find_tag_in_phpdoc, parse_php_doc.
    repeat split; simpl scan_lines; unfold tags_of_lines; simpl tags_loop;
      unfold set_line_num; destruct (0 <? d)%Z; reflexivity.
Qed.

(** C4 at work: the name ["a"] and the type text ["bool"]. *)
Lemma var_name_and_type_in_either_order_witness :
  split_var_and_type (mk_tag "@var" var "$a bool " None) = ("a", "bool")
  /\ split_var_and_type (mk_tag "@var" var "bool $a " None) = ("a", "bool").
Proof.
  apply (proj1 var_name_and_type_in_either_order "a" "bool" " " "b"%char "ool"
               "@var" var None);
    [reflexivity | discriminate | reflexivity | reflexivity | reflexivity | reflexivity].
Defined.

(** ** The claims on examples *)

(** C1 at work: ["A|B[]"], the classes [A] and [B] being known. *)
Lemma array_suffix_binds_tighter_than_union_witness :
  let A := ClassRef (Some (mk_class "A" false)) in
  let B := ClassRef (Some (mk_class "B" false)) in
  fst (fst (parse_type_expression (env := example) "A|B[]" 0 init_state))
  = Some (union_chain A [(ArrayOf B, "B[]")]).
Proof.
  apply (proj1 (proj2 (array_suffix_binds_tighter_than_union (env := example) "A|B[]"))
               0 init_state _ 1 init_state _ 5 init_state).
  - vm_compute. reflexivity.
  - apply (union_rest_member "A|B[]" 1 init_state _ 5 init_state [] 5 init_state).
    + reflexivity.
    + vm_compute. reflexivity.
    + apply union_rest_end. reflexivity.
Defined.

(** C6 at work: ["int|bool"]. *)
Lemma raw_bool_in_union_is_reported_witness :
  parse_type_expression (env := example) "int|bool" 0 init_state
  = (Some (Union (Primitive tp_int) (Primitive tp_bool)), 8, mk_state [] [msg_raw_bool]).
Proof.
  apply (proj1 (raw_bool_in_union_is_reported (env := example) "int|bool")
               0 init_state (Primitive tp_int) 3 init_state
               [(Primitive tp_bool, "bool")] 8 init_state).
  - vm_compute. reflexivity.
  - apply (union_rest_member "int|bool" 3 init_state _ 8 init_state [] 8 init_state).
    + reflexivity.
    + vm_compute. reflexivity.
    + apply union_rest_end. reflexivity.
Defined.

(** C10 at work: the arguments of ["tuple<int,string)"]. *)
Lemma closing_bracket_of_either_kind_witness :
  nested_type_rule (env := example) "tuple<int,string)" 5 tp_tuple init_state
  = (Some (Parameterized tp_tuple [Primitive tp_int; Primitive tp_string]), 17, init_state).
Proof.
  apply (proj1 (closing_bracket_of_either_kind (env := example) "tuple<int,string)")
               5 tp_tuple init_state _ 17 init_state).
  - vm_compute. lia.
  - left. reflexivity.
  - apply (type_args_more "tuple<int,string)" 6 init_state _ 9 init_state
                          [Primitive tp_string] 17 init_state).
    + vm_compute. reflexivity.
    + vm_compute. lia.
    + reflexivity.
    + apply (type_args_last "tuple<int,string)" 10 init_state _ 16 init_state).
      * vm_compute. reflexivity.
      * vm_compute. lia.
      * right. reflexivity.
Defined.

(** C2 at work: ["int world"]. *)
Lemma whole_type_string_must_be_consumed_witness :
  example_parse "int world" = (None, report TrailingInput init_state).
Proof.
  apply (proj1 (whole_type_string_must_be_consumed (env := example) "int world")
               init_state (Primitive tp_int) 3 init_state).
  - vm_compute. reflexivity.
  - vm_compute. discriminate.
  - reflexivity.
Defined.

(** The claim C2 fails on its own example: the error for
    ["hello world"] is the one for an unknown type name, not the one
    for characters left at the end. *)
Lemma hello_world_is_an_unknown_type_name :
  example_parse "hello world" = (None, mk_state [] [UnknownTypeName "hello world"])
  /\ errors (snd (example_parse "hello world")) <> [TrailingInput].
Proof. split; [vm_compute; reflexivity | vm_compute; discriminate]. Qed.

(** C5 at work: the class [\Foo], which is not in the table. *)
Lemma unknown_class_is_reported_after_the_type_string_witness :
  simple_type (env := example) "\Foo" 0 init_state
  = (Some (ClassRef None), 4, mk_state ["\Foo"] [])
  /\ example_phpdoc_parse_type "\Foo" = (None, [msg_unknown_class "\Foo"]).
Proof.
  split.
  - apply (proj1 (unknown_class_is_reported_after_the_type_string (env := example) "\Foo")
                 0 init_state 0 false); reflexivity.
  - apply (proj2 (proj2 (proj2 (unknown_class_is_reported_after_the_type_string
                                  (env := example) "\Foo")))
                 0 false); reflexivity.
Defined.

(** The claim C5 fails on a type string that names an unknown class:
    [phpdoc_parse_type] returns no vertex for it, and reports the
    class as soon as this one type string has been parsed. *)
Lemma unknown_class_fails_phpdoc_parse_type :
  get_class (Resolution := example) "Foo" = None
  /\ example_phpdoc_parse_type "Foo" = (None, [msg_unknown_class "Foo"]).
Proof. split; vm_compute; reflexivity. Qed.

(** C9 at work: the trait [T], named after the marker [@tl\]. *)
Lemma trait_as_type_is_reported_and_parsed_witness :
  simple_type (env := example) "@tl\T" 0 init_state
  = (Some (ClassRef (Some (mk_class "T" true))), 5, mk_state [] [TraitUsedAsType "T"])
  /\ example_phpdoc_parse_type "@tl\T"
     = (Some (ClassRef (Some (mk_class "T" true))), [TraitUsedAsType "T"]).
Proof.
  split.
  - apply (proj1 (trait_as_type_is_reported_and_parsed (env := example) "@tl\T")
                 0 init_state 4 true (mk_class "T" true)); reflexivity.
  - apply (proj2 (proj2 (trait_as_type_is_reported_and_parsed (env := example) "@tl\T"))
                 init_state 4 true (mk_class "T" true)); reflexivity.
Defined.

(** The claim C9 fails on a type string that names a trait: the error
    is reported, and the parse still returns the class reference, from
    [parse_from_type_string] and from [phpdoc_parse_type] alike. *)
Lemma trait_does_not_abort_the_parse :
  example_parse "T"
  = (Some (ClassRef (Some (mk_class "T" true))), mk_state [] [TraitUsedAsType "T"])
  /\ example_phpdoc_parse_type "T"
     = (Some (ClassRef (Some (mk_class "T" true))), [TraitUsedAsType "T"]).
Proof. split; vm_compute; reflexivity. Qed.


(** * Further properties *)
(** ** What a parse leaves behind *)

Lemma grows_by_refl st : grows_by st st [] [].
Proof. unfold grows_by. rewrite !app_nil_r. auto. Qed.

Lemma grows_by_trans st1 st2 st3 m1 c1 m2 c2 :
  grows_by st1 st2 m1 c1 -> grows_by st2 st3 m2 c2 ->
  grows_by st1 st3 (m1 ++ m2)%list (c1 ++ c2)%list.
Proof.
  unfold grows_by. intros [H1 H2] [H3 H4]. rewrite H3, H4, H1, H2, !app_assoc. auto.
Qed.

Lemma grows_by_report st msg : grows_by st (report msg st) [msg] [].
Proof. unfold grows_by, report. simpl. rewrite app_nil_r. auto. Qed.

Lemma grows_by_push st c : grows_by st (push_unknown_class c st) [] [c].
Proof. unfold grows_by, push_unknown_class. simpl. rewrite app_nil_r. auto. Qed.

Lemma diagnosed_after s m r m2 :
  Forall complaint m -> diagnosed s r m2 -> diagnosed s r (m ++ m2)%list.
Proof.
  intros Hm. destruct r as [v|]; simpl.
  - intros H. apply Forall_app. auto.
  - intros (ws & msg & -> & Hws & Hin). exists (m ++ ws)%list, msg.
    rewrite app_assoc. split; [reflexivity|]. split; [apply Forall_app; auto | assumption].
Qed.

Lemma diagnosed_none_nonempty s msgs : diagnosed s None msgs -> msgs <> [].
Proof. intros (ws & msg & -> & _) E. apply app_eq_nil in E. destruct E. discriminate. Qed.

Lemma reported_ok s (ok : Prop) st v pos :
  (ok -> resolved v = true) -> reported s ok st (Some (Some v, pos, st)).
Proof.
  intros Hv r pos' st' H. injection H as <- <- <-. exists [], [].
  split; [apply grows_by_refl|]. split; [constructor|].
  intros v' E _ Hok. injection E as <-. auto.
Qed.

Lemma reported_fail s (ok : Prop) st msg pos :
  In msg (grammar_errors s) -> reported s ok st (Some (None, pos, report msg st)).
Proof.
  intros Hm r pos' st' H. injection H as <- <- <-. exists [msg], [].
  split; [apply grows_by_report|]. split; [|discriminate].
  exists [], msg. auto.
Qed.

Lemma reported_none s (ok : Prop) st : reported s ok st None.
Proof. intros r pos' st' H. discriminate. Qed.

Lemma reported_after s (ok ok1 : Prop) st st1 m c o :
  grows_by st st1 m c -> Forall complaint m -> (c = [] -> ok -> ok1) ->
  reported s ok1 st1 o -> reported s ok st o.
Proof.
  intros Hg Hm Hok Ho r pos' st' E.
  destruct (Ho r pos' st' E) as (m2 & c2 & Hg2 & Hn & Hr).
  exists (m ++ m2)%list, (c ++ c2)%list. split; [eapply grows_by_trans; eauto|]. split.
  - apply diagnosed_after; assumption.
  - intros v Ev Hc Hk. apply app_eq_nil in Hc. destruct Hc as [Hc1 Hc2]. eauto.
Qed.

Lemma reported_same s (ok ok1 : Prop) st o :
  (ok -> ok1) -> reported s ok1 st o -> reported s ok st o.
Proof.
  intros Hok. apply (reported_after s ok ok1 st st [] []);
    [apply grows_by_refl | constructor | auto].
Qed.

Lemma reported_CHECK s (ok : Prop) x y pos st k :
  In y (grammar_errors s) ->
  (x = true -> reported s ok st (k st)) -> reported s ok st (CHECK x y pos st k).
Proof.
  unfold CHECK, kphp_error. destruct x; intros Hy H; [auto|].
  apply reported_fail. exact Hy.
Qed.

(** The result of one call of [f], then the rest [k] of the method. *)
Lemma reported_call s (ok base : Prop) f pos st
      (k : Vertex -> nat -> PState -> option Res) :
  reports s base f -> (ok -> base) ->
  (forall v p st1, reported s (ok /\ resolved v = true) st1 (k v p st1)) ->
  reported s ok st
    match f pos st with
    | Some (Some v, p, st1) => k v p st1
    | Some (None, p, st1) => Some (None, p, st1)
    | None => None
    end.
Proof.
  intros Hf Hbase Hk. pose proof (Hf pos st) as H.
  destruct (f pos st) as [[[[v|] p] st1]|].
  - destruct (H _ _ _ eq_refl) as (m & c & Hg & Hd & Hr).
    apply (reported_after s ok (ok /\ resolved v = true) st st1 m c); auto.
  - intros r pos' st' E. destruct (H _ _ _ E) as (m & c & Hg & Hn & Hr).
    exists m, c. split; [assumption|]. split; [assumption|].
    intros v Ev. injection E as <- _ _. discriminate.
  - apply reported_none.
Qed.

Lemma lint_reported s (ok : Prop) x y st v pos :
  complaint y -> (ok -> resolved v = true) ->
  reported s ok st (Some (Some v, pos, snd (kphp_error x y st))).
Proof.
  intros Hy Hv r pos' st' H. injection H as <- <- <-. unfold kphp_error.
  destruct x; simpl.
  - exists [], []. split; [apply grows_by_refl|]. split; [constructor|].
    intros v' E _ Hok. injection E as <-. auto.
  - exists [y], []. split; [apply grows_by_report|]. split; [simpl; constructor; [exact Hy | constructor]|].
    intros v' E _ Hok. injection E as <-. auto.
Qed.

Ltac grammar_error := unfold grammar_errors; simpl; tauto.

Section GrammarMore.
Context {env : Resolution}.
Variable s : string.

Local Abbreviation len := (String.length s).

(** [self] is resolved when the function has a class. *)
Local Abbreviation in_class := (current_class_id <> None).

Lemma nested_type_loop_reports f :
  reports s in_class f ->
  forall n th subs pos st,
    reported s (in_class /\ forallb resolved subs = true) st
             (nested_type_loop s f n th subs pos st).
Proof.
  intros Hf. induction n as [|n IH]; intros th subs pos st; simpl.
  - apply reported_none.
  - apply (reported_call s _ in_class f pos st
             (fun v pos st =>
                CHECK (pos <? len) msg_unexpected_end pos st (fun st =>
                if Ascii.eqb (Str.at_ s pos) ">" || Ascii.eqb (Str.at_ s pos) ")" then
                  Some (Some (op_type_expr_type th (subs ++ [v])%list), pos + 1, st)
                else
                  CHECK (Ascii.eqb (Str.at_ s pos) ",") msg_expected_comma pos st (fun st =>
                  nested_type_loop s f n th (subs ++ [v])%list (pos + 1) st))) Hf);
      [tauto|].
    intros v p st1.
    assert (Hall : (in_class /\ forallb resolved subs = true) /\ resolved v = true ->
                   forallb resolved (subs ++ [v]) = true).
    { intros [[_ H1] H2]. rewrite forallb_app, H1. simpl. rewrite H2. reflexivity. }
    apply reported_CHECK; [grammar_error|]. intros _. break_if.
    + apply reported_ok. exact Hall.
    + apply reported_CHECK; [grammar_error|]. intros _.
      apply (reported_same s _ (in_class /\ forallb resolved (subs ++ [v]) = true)).
      * intros H. split; [tauto | exact (Hall H)].
      * apply IH.
Qed.

Lemma parse_nested_type_rule_reports f :
  reports s in_class f ->
  forall pos th st, reported s in_class st (parse_nested_type_rule s f pos th st).
Proof.
  intros Hf pos th st. unfold parse_nested_type_rule.
  apply reported_CHECK; [grammar_error|]. intros _.
  apply (reported_same s _ (in_class /\ forallb resolved [] = true));
    [|apply nested_type_loop_reports; exact Hf].
  intros H. split; [exact H | reflexivity].
Qed.

Lemma unknown_type_name_reports (ok : Prop) pos st :
  reported s ok st (unknown_type_name s pos st).
Proof.
  unfold unknown_type_name, CHECK, kphp_error. apply reported_fail. grammar_error.
Qed.

Lemma parse_class_name_reports (ok : Prop) pos st :
  reported s ok st (parse_class_name s pos st).
Proof.
  unfold parse_class_name. break_if; [|apply unknown_type_name_reports].
  intros r pos' st' H. injection H as <- <- <-.
  destruct (get_class _) as [k|].
  - unfold kphp_error. destruct (negb (is_trait k)); simpl.
    + exists [], []. split; [apply grows_by_refl|]. split; [constructor|].
      intros v E _ _. injection E as <-. reflexivity.
    + eexists _, []. split; [apply grows_by_report|].
      split; [simpl; constructor; [right; eexists; reflexivity | constructor]|].
      intros v E _ _. injection E as <-. reflexivity.
  - eexists [], _. split; [apply grows_by_push|]. split; [constructor|].
    intros v E Hc. discriminate.
Qed.

Lemma parse_simple_type_reports f :
  reports s in_class f ->
  forall pos st, reported s in_class st (parse_simple_type s f pos st).
Proof.
  intros Hf pos st. unfold parse_simple_type.
  apply reported_CHECK; [grammar_error|]. intros _. cbv zeta.
  destruct (Ascii.eqb (Str.at_ s pos) "(").
  { apply (reported_call s _ in_class f (pos + 1) st
             (fun v pos st =>
                CHECK ((pos <? len) && Ascii.eqb (Str.at_ s pos) ")")
                      msg_unmatching_paren pos st (fun st => Some (Some v, pos + 1, st))) Hf);
      [tauto|].
    intros v p st1. apply reported_CHECK; [grammar_error|]. intros _.
    apply reported_ok. tauto. }
  repeat (match goal with |- context [if ?b then _ else _] => destruct b end);
    try (apply reported_ok; intros _; reflexivity);
    try apply unknown_type_name_reports;
    try apply parse_class_name_reports;
    try (apply parse_nested_type_rule_reports; exact Hf).
  apply reported_ok. intros Hc. simpl. destruct current_class_id; [reflexivity | contradiction].
Qed.

Lemma array_suffix_loop_reports n :
  forall res pos st,
    reported s (resolved res = true) st (array_suffix_loop s n res pos st).
Proof.
  induction n as [|n IH]; intros res pos st; simpl.
  - break_if; [apply reported_none | apply reported_ok; auto].
  - break_if; [|apply reported_ok; auto].
    apply reported_CHECK; [grammar_error|]. intros _.
    apply (reported_same s _ (resolved (op_type_expr_type tp_array [res]) = true));
      [|apply IH].
    intros H. simpl. rewrite H. reflexivity.
Qed.

Lemma parse_type_array_reports f :
  reports s in_class f ->
  forall pos st, reported s in_class st (parse_type_array s f pos st).
Proof.
  intros Hf pos st. unfold parse_type_array.
  apply (reported_call s _ in_class (parse_simple_type s f) pos st
           (fun res pos st => array_suffix_loop s len res pos st)).
  - intros p st0. apply parse_simple_type_reports. exact Hf.
  - tauto.
  - intros v p st1.
    apply (reported_same s _ (resolved v = true)); [tauto | apply array_suffix_loop_reports].
Qed.

Lemma raw_bool_is_a_complaint : complaint msg_raw_bool.
Proof. left. reflexivity. Qed.

Lemma union_loop_reports f :
  reports s in_class f ->
  forall n res hrb pos st,
    reported s (in_class /\ resolved res = true) st (union_loop s f n res hrb pos st).
Proof.
  intros Hf. induction n as [|n IH]; intros res hrb pos st; simpl.
  - break_if; [apply reported_none|].
    destruct (is_lca res);
      [apply lint_reported; [apply raw_bool_is_a_complaint|] | apply reported_ok]; tauto.
  - break_if.
    + apply (reported_call s _ in_class (parse_type_array s f) (pos + 1) st
               (fun next p st1 =>
                  union_loop s f n (op_type_expr_lca res next)
                    (hrb || String.eqb (Str.substr s (pos + 1) (p - (pos + 1))) "bool")
                    p st1)).
      * intros p st0. apply parse_type_array_reports. exact Hf.
      * tauto.
      * intros v p st1.
        apply (reported_same s _ (in_class /\ resolved (op_type_expr_lca res v) = true));
          [|apply IH].
        intros [[Hc H1] H2]. split; [exact Hc|]. simpl. rewrite H1, H2. reflexivity.
    + destruct (is_lca res);
        [apply lint_reported; [apply raw_bool_is_a_complaint|] | apply reported_ok]; tauto.
Qed.

Lemma parse_type_expression_body_reports f :
  reports s in_class f -> reports s in_class (parse_type_expression_body s f).
Proof.
  intros Hf pos st. unfold parse_type_expression_body.
  apply (reported_call s _ in_class (parse_type_array s f) pos st
           (fun res p st1 =>
              union_loop s f len res (String.eqb (Str.substr s pos (p - pos)) "bool") p st1)).
  - intros p st0. apply parse_type_array_reports. exact Hf.
  - tauto.
  - intros v p st1.
    apply (reported_same s _ (in_class /\ resolved v = true));
      [tauto | apply union_loop_reports; exact Hf].
Qed.

Lemma parse_type_expression_depth_reports d :
  reports s in_class (parse_type_expression_depth s d).
Proof.
  induction d as [|d IH].
  - intros pos st. apply reported_none.
  - simpl. apply parse_type_expression_body_reports. exact IH.
Qed.

Lemma parse_type_expression_reports pos st :
  reported s in_class st (Some (parse_type_expression s pos st)).
Proof.
  rewrite <- (parse_type_expression_depth_enough s (S len)) by lia.
  apply parse_type_expression_depth_reports.
Qed.

End GrammarMore.

Lemma parse_from_type_string_reports {env : Resolution} type_str st :
  exists msgs classes,
    grows_by st (snd (parse_from_type_string type_str st)) msgs classes
    /\ diagnosed type_str (fst (parse_from_type_string type_str st)) msgs
    /\ (forall v, fst (parse_from_type_string type_str st) = Some v ->
                  classes = [] -> current_class_id <> None -> resolved v = true).
Proof.
  unfold parse_from_type_string.
  pose proof (parse_type_expression_reports type_str 0 st) as H.
  destruct (parse_type_expression type_str 0 st) as [[[res|] pos] st1].
  - destruct (H _ _ _ eq_refl) as (m & c & Hg & Hd & Hr). simpl in Hd.
    assert (Hleft : diagnosed type_str None (m ++ [msg_something_left])%list).
    { exists m, msg_something_left. split; [reflexivity|]. split; [assumption|].
      unfold grammar_errors. simpl. tauto. }
    destruct ((String.length type_str =? pos + String.length varg_dots)
              && Str.ends_with type_str varg_dots);
      unfold kphp_error;
      match goal with |- context [if ?b then _ else _] => destruct b end; simpl.
    + exists m, c. split; [assumption|]. split; [assumption|].
      intros v E Hc Hk. injection E as <-. simpl. rewrite (Hr res eq_refl Hc Hk). reflexivity.
    + exists (m ++ [msg_something_left])%list, (c ++ [])%list.
      split; [eapply grows_by_trans; [eassumption | apply grows_by_report]|].
      split; [exact Hleft | discriminate].
    + exists m, c. split; [assumption|]. split; [assumption|].
      intros v E Hc Hk. injection E as <-. exact (Hr res eq_refl Hc Hk).
    + exists (m ++ [msg_something_left])%list, (c ++ [])%list.
      split; [eapply grows_by_trans; [eassumption | apply grows_by_report]|].
      split; [exact Hleft | discriminate].
  - destruct (H _ _ _ eq_refl) as (m & c & Hg & Hn & _). simpl.
    exists m, c. split; [assumption|]. split; [auto | discriminate].
Qed.

(** X1.  A parse never fails silently, and never takes anything back.
    Whatever the text and the state it starts from,
    [parse_from_type_string] leaves the errors and the unknown classes
    it found followed by those it adds, and when it returns no vertex
    it has added at least one error.  [phpdoc_parse_type] likewise
    reports at least one error whenever it returns no vertex. *)
Theorem parse_never_fails_silently :
  forall (env : Resolution) (type_str : string),
    (forall st,
        exists msgs classes,
          grows_by st (snd (parse_from_type_string type_str st)) msgs classes
          /\ (fst (parse_from_type_string type_str st) = None -> msgs <> []))
    /\ (fst (phpdoc_parse_type type_str) = None -> snd (phpdoc_parse_type type_str) <> []).
Proof.
  intros env type_str. split.
  - intros st. destruct (parse_from_type_string_reports type_str st) as (m & c & Hg & Hn & _).
    exists m, c. split; [assumption|]. intros Hr. rewrite Hr in Hn.
    exact (diagnosed_none_nonempty _ _ Hn).
  - unfold phpdoc_parse_type.
    destruct (parse_from_type_string_reports type_str init_state) as (m & c & [Hg _] & Hn & _).
    destruct (parse_from_type_string type_str init_state) as [r st'].
    destruct (unknown_classes_list st') as [|class_name rest]; simpl in *.
    + intros Hr. rewrite Hg. rewrite Hr in Hn. exact (diagnosed_none_nonempty _ _ Hn).
    + intros _ E. apply app_eq_nil in E. destruct E. discriminate.
Qed.

(** X1 at work: the text ["int|"]. *)
Lemma parse_never_fails_silently_instance :
  snd (phpdoc_parse_type (env := example) "int|") <> [].
Proof.
  apply (proj2 (parse_never_fails_silently example "int|")). reflexivity.
Defined.

(** X2.  What [phpdoc_parse_type] returns is resolved.  For a function
    that has a class (so that [self] stands for it), a vertex returned
    by [phpdoc_parse_type] holds no null class pointer: every class
    named in the text was found in the class table.  Outside a class
    the text ["self"] is the exception: it is returned as a reference
    to the null class, with no error and no unknown class recorded. *)
Theorem phpdoc_parse_type_returns_resolved_classes :
  forall (env : Resolution),
    (forall (type_str : string) (v : Vertex) (reported_errors : list string),
        current_class_id <> None ->
        phpdoc_parse_type type_str = (Some v, reported_errors) ->
        resolved v = true)
    /\ (current_class_id = None ->
        phpdoc_parse_type "self" = (Some (ClassRef None), [])).
Proof.
  intros env. split.
  - intros type_str v errs Hclass. unfold phpdoc_parse_type.
    destruct (parse_from_type_string_reports type_str init_state)
      as (m & c & [_ Hc] & _ & Hr).
    destruct (parse_from_type_string type_str init_state) as [r st']. cbn beta iota.
    destruct (unknown_classes_list st') as [|class_name rest] eqn:Hu.
    2:{ intros E. discriminate E. }
    intros E. injection E as -> _. simpl in Hc. apply Hr; auto.
    congruence.
  - destruct env as [uses classes prefix class_id]. simpl. intros ->.
    vm_compute. reflexivity.
Qed.

(** X2 at work: the text ["A|self[]"] parsed inside the class [A]. *)
Lemma phpdoc_parse_type_returns_resolved_classes_instance :
  resolved (Union (ClassRef (Some (mk_class "A" false)))
                  (ArrayOf (ClassRef (Some (mk_class "A" false))))) = true.
Proof.
  apply (proj1 (phpdoc_parse_type_returns_resolved_classes example_in_class)
               "A|self[]" _ []);
    [discriminate | reflexivity].
Defined.

Lemma complaint_is_not_grammar_error s msg : complaint msg -> ~ In msg (grammar_errors s).
Proof.
  intros [-> | [class_name ->]] Hin; unfold grammar_errors in Hin; simpl in Hin;
    repeat (destruct Hin as [Hin | Hin]; [discriminate Hin|]); exact Hin.
Qed.



(** ** How far a parse goes *)

Lemma length_substring_le (str : string) :
  forall a n, String.length (substring a n str) <= String.length str - a.
Proof.
  induction str as [|c str IH]; intros a n.
  - destruct a, n; simpl; lia.
  - destruct a as [|a]; simpl.
    + destruct n as [|n]; simpl; [lia|]. specialize (IH 0 n). lia.
    + apply IH.
Qed.

Lemma prefix_length (p : string) :
  forall str, String.prefix p str = true -> String.length p <= String.length str.
Proof.
  induction p as [|a p IH]; intros [|b str]; simpl; try lia; try discriminate.
  destruct (ascii_dec a b); [|discriminate]. intros H. apply IH in H. lia.
Qed.

Lemma at_nonzero_inside (str : string) :
  forall pos, Str.at_ str pos <> "000"%char -> pos < String.length str.
Proof.
  unfold Str.at_. induction str as [|c str IH]; intros pos; simpl.
  - congruence.
  - destruct pos as [|pos]; [lia|]. intros H. apply IH in H. lia.
Qed.

Section GrammarBounds.
Context {env : Resolution}.
Variable s : string.

Local Abbreviation len := (String.length s).

Lemma keyword_within pos kw :
  keyword s pos kw = true -> 0 < String.length kw -> pos + String.length kw <= len.
Proof.
  unfold keyword, Str.substr. intros H Hk. apply String.eqb_eq in H.
  pose proof (length_substring_le s pos (String.length kw)) as Hle.
  rewrite H in Hle. lia.
Qed.

Lemma nested_type_loop_within f n :
  forall th subs pos st v pos' st',
    nested_type_loop s f n th subs pos st = Some (Some v, pos', st') -> pos' <= len.
Proof.
  induction n as [|n IH]; intros th subs pos st v pos' st' H; simpl in H.
  - discriminate.
  - destruct (f pos st) as [[[[w|] p] st1]|] eqn:E; try discriminate.
    open_check. destruct (p <? len) eqn:Hp; try discriminate. apply Nat.ltb_lt in Hp.
    repeat break_if; try discriminate.
    + injection H as _ <- _. lia.
    + apply IH in H. exact H.
Qed.

Lemma parse_nested_type_rule_within f pos th st v pos' st' :
  parse_nested_type_rule s f pos th st = Some (Some v, pos', st') -> pos' <= len.
Proof.
  unfold parse_nested_type_rule. open_check. break_if; try discriminate.
  apply nested_type_loop_within.
Qed.

Lemma classname_head str pos :
  pos < String.length str -> is_classname_char (Str.at_ str pos) = true ->
  0 < String.length (extract_classname_from_pos str pos).
Proof.
  intros Hpos Hc. unfold extract_classname_from_pos, Str.substr_from, Str.substr.
  destruct (substring_from_at str pos Hpos) as [r ->]. simpl. rewrite Hc.
  destruct (substring_head_at str pos (classname_run r) Hpos) as [r' ->]. simpl. lia.
Qed.

Lemma extract_classname_within str pos :
  pos <= String.length str ->
  pos + String.length (extract_classname_from_pos str pos) <= String.length str.
Proof.
  intros Hpos. unfold extract_classname_from_pos, Str.substr.
  pose proof (length_substring_le str pos (classname_run (Str.substr_from str pos))). lia.
Qed.

Lemma tl_marker_within pos :
  pos <= len ->
  Str.starts_with (Str.substr_from s pos) tl_namespace_marker = true -> pos + 4 <= len.
Proof.
  intros Hpos H. unfold Str.starts_with in H. apply prefix_length in H.
  unfold Str.substr_from in H. rewrite length_substring in H by lia.
  change (String.length tl_namespace_marker) with 4 in H. lia.
Qed.

Lemma parse_class_name_within pos st v pos' st' :
  pos < len ->
  parse_class_name s pos st = Some (Some v, pos', st') -> pos < pos' /\ pos' <= len.
Proof.
  intros Hpos. unfold parse_class_name, unknown_type_name. open_check.
  destruct (Str.starts_with (Str.substr_from s pos) tl_namespace_marker) eqn:Htl.
  - change (String.length tl_namespace_marker) with 4.
    break_if; try discriminate. intros H. injection H as _ <- _.
    pose proof (tl_marker_within pos ltac:(lia) Htl).
    pose proof (extract_classname_within s (pos + 4) ltac:(lia)). lia.
  - match goal with |- context [if ?b then _ else _] => destruct b eqn:Hc end;
      try discriminate.
    simpl in Hc. intros H. injection H as _ <- _.
    assert (Hcc : is_classname_char (Str.at_ s pos) = true).
    { unfold is_classname_char, Str.isalnum.
      rewrite orb_false_r in Hc. apply orb_true_iff in Hc. destruct Hc as [-> | ->].
      - rewrite orb_true_r. reflexivity.
      - rewrite !orb_true_r. reflexivity. }
    pose proof (classname_head s pos Hpos Hcc).
    pose proof (extract_classname_within s pos ltac:(lia)). lia.
Qed.

Lemma parse_simple_type_within f :
  advances f ->
  forall pos st v pos' st',
    parse_simple_type s f pos st = Some (Some v, pos', st') -> pos < pos' /\ pos' <= len.
Proof.
  intros Hf pos st v pos' st'. unfold parse_simple_type, unknown_type_name.
  unfold CHECK, kphp_error.
  destruct (pos <? len) eqn:Hpos; try discriminate. apply Nat.ltb_lt in Hpos.
  repeat (match goal with |- context [if ?b then _ else _] => destruct b eqn:? end);
    try discriminate;
    try (intros H; injection H as _ <- _;
         match goal with
         | K : keyword s pos ?kw = true |- _ =>
             pose proof (keyword_within pos kw K ltac:(simpl; lia)) as Hk; simpl in Hk; lia
         end);
    try (intros H; pose proof (parse_nested_type_rule_advances s f Hf _ _ _ _ _ _ H);
         apply parse_nested_type_rule_within in H; lia);
    try (intros H; apply parse_class_name_within in H; lia).
  destruct (f (pos + 1) st) as [[[[w|] p] st1]|] eqn:E; try discriminate.
  apply Hf in E. destruct ((p <? len) && Ascii.eqb (Str.at_ s p) ")") eqn:Hp; try discriminate.
  apply andb_true_iff in Hp. destruct Hp as [Hp _]. apply Nat.ltb_lt in Hp.
  intros H; injection H as _ <- _; lia.
Qed.

Lemma array_suffix_loop_within n :
  forall res pos st v pos' st',
    array_suffix_loop s n res pos st = Some (Some v, pos', st') ->
    pos <= len -> pos' <= len.
Proof.
  induction n as [|n IH]; intros res pos st v pos' st' H Hpos; simpl in H.
  - break_if; try discriminate. injection H as _ <- _. lia.
  - break_if.
    + open_check. destruct ((pos + 1 <? len) && Ascii.eqb (Str.at_ s (pos + 1)) "]") eqn:Hp;
        try discriminate.
      apply andb_true_iff in Hp. destruct Hp as [Hp _]. apply Nat.ltb_lt in Hp.
      apply IH in H; lia.
    + injection H as _ <- _. lia.
Qed.

Lemma parse_type_array_within f :
  advances f ->
  forall pos st v pos' st',
    parse_type_array s f pos st = Some (Some v, pos', st') -> pos < pos' /\ pos' <= len.
Proof.
  intros Hf pos st v pos' st'. unfold parse_type_array.
  destruct (parse_simple_type s f pos st) as [[[[w|] p] st1]|] eqn:E; try discriminate.
  apply (parse_simple_type_within f Hf) in E. intros H.
  pose proof (array_suffix_loop_advances s _ _ _ _ _ _ _ H).
  apply array_suffix_loop_within in H; lia.
Qed.

Lemma union_loop_within f :
  advances f ->
  forall n res hrb pos st v pos' st',
    union_loop s f n res hrb pos st = Some (Some v, pos', st') ->
    pos <= len -> pos' <= len.
Proof.
  intros Hf. induction n as [|n IH]; intros res hrb pos st v pos' st' H Hpos; simpl in H.
  - break_if; try discriminate. injection H as _ <- _. lia.
  - break_if.
    + destruct (parse_type_array s f (pos + 1) st) as [[[[w|] p] st1]|] eqn:E;
        try discriminate.
      apply (parse_type_array_within f Hf) in E. apply IH in H; lia.
    + injection H as _ <- _. lia.
Qed.

Lemma simple_type_within pos st v pos' st' :
  simple_type s pos st = (Some v, pos', st') -> pos < pos' /\ pos' <= len.
Proof.
  intros H. apply (parse_simple_type_within (expr_call s) (expr_call_advances s) pos st v pos' st').
  rewrite simple_type_returned, H. reflexivity.
Qed.

Lemma type_array_within pos st v pos' st' :
  type_array s pos st = (Some v, pos', st') -> pos < pos' /\ pos' <= len.
Proof.
  intros H. apply (parse_type_array_within (expr_call s) (expr_call_advances s) pos st v pos' st').
  rewrite type_array_returned, H. reflexivity.
Qed.

Lemma parse_type_expression_within pos st v pos' st' :
  parse_type_expression s pos st = (Some v, pos', st') -> pos < pos' /\ pos' <= len.
Proof.
  rewrite parse_type_expression_eq.
  destruct (type_array s pos st) as [[[res|] p] st1] eqn:E; try discriminate.
  apply type_array_within in E. intros H.
  assert (Hu : union_loop s (expr_call s) len res
                 (String.eqb (Str.substr s pos (p - pos)) "bool") p st1
               = Some (Some v, pos', st')).
  { rewrite (union_tail_returned s len) by lia. rewrite H. reflexivity. }
  pose proof (union_loop_advances s _ (expr_call_advances s) _ _ _ _ _ _ _ _ Hu).
  apply (union_loop_within _ (expr_call_advances s)) in Hu; lia.
Qed.

Lemma nested_type_rule_within pos th st v pos' st' :
  nested_type_rule s pos th st = (Some v, pos', st') -> pos + 2 < pos' /\ pos' <= len.
Proof.
  intros H.
  assert (Hn : parse_nested_type_rule s (expr_call s) pos th st = Some (Some v, pos', st')).
  { rewrite nested_type_rule_returned, H. reflexivity. }
  split; [|exact (parse_nested_type_rule_within _ _ _ _ _ _ _ Hn)].
  clear Hn. rewrite nested_type_rule_eq in H. break_if; try discriminate.
  assert (Hg : forall n th subs p st v pos' st',
             nested_type_loop s (expr_call s) n th subs p st = Some (Some v, pos', st') ->
             p + 1 < pos').
  { clear. induction n as [|n IH]; intros th subs p st v pos' st' H; simpl in H.
    - discriminate.
    - unfold expr_call at 1 in H.
      destruct (parse_type_expression s p st) as [[[w|] q] st1] eqn:E; try discriminate.
      apply parse_type_expression_within in E. open_check.
      repeat break_if; try discriminate.
      + injection H as _ <- _. lia.
      + apply IH in H. lia. }
  apply andb_true_iff in Heqb. destruct Heqb as [Hp _]. apply Nat.ltb_lt in Hp.
  assert (pos + 1 + 1 < pos'); [|lia].
  apply (Hg (S len) th [] (pos + 1) st v pos' st').
  rewrite (nested_args_returned s (S len)) by lia. rewrite H. reflexivity.
Qed.

(** X4.  A successful parse makes progress and stays inside the text.
    Each parsing method that returns a vertex has moved the position
    forward by at least one character, and leaves it at or before the
    end of the text; a parameterized type takes at least three
    characters after its keyword (the opening bracket, an argument and
    the closing bracket). *)
Theorem successful_parse_advances_within_the_text :
  (forall pos st v pos' st',
      parse_type_expression s pos st = (Some v, pos', st') -> pos < pos' /\ pos' <= len)
  /\ (forall pos st v pos' st',
         type_array s pos st = (Some v, pos', st') -> pos < pos' /\ pos' <= len)
  /\ (forall pos st v pos' st',
         simple_type s pos st = (Some v, pos', st') -> pos < pos' /\ pos' <= len)
  /\ (forall pos type_help st v pos' st',
         nested_type_rule s pos type_help st = (Some v, pos', st') ->
         pos + 2 < pos' /\ pos' <= len).
Proof.
  split; [exact parse_type_expression_within|].
  split; [exact type_array_within|].
  split; [exact simple_type_within | exact nested_type_rule_within].
Qed.

End GrammarBounds.

(** X4 at work: the text ["int[]|A"]. *)
Lemma successful_parse_advances_within_the_text_instance :
  0 < 7 /\ 7 <= String.length "int[]|A".
Proof.
  apply (proj1 (successful_parse_advances_within_the_text (env := example) "int[]|A")
               0 init_state
               (Union (ArrayOf (Primitive tp_int)) (ClassRef (Some (mk_class "A" false))))
               7 init_state).
  vm_compute. reflexivity.
Defined.

(** ** The shape of the vertices *)

Section GrammarShapes.
Context {env : Resolution}.
Variable s : string.

Local Abbreviation len := (String.length s).

Lemma nested_type_loop_shaped f :
  shaped f ->
  forall n th subs pos st v pos' st',
    th = tp_tuple \/ th = tp_future ->
    forallb well_formed subs = true ->
    nested_type_loop s f n th subs pos st = Some (Some v, pos', st') ->
    well_formed v = true.
Proof.
  intros Hf. induction n as [|n IH]; intros th subs pos st v pos' st' Hth Hsubs H; simpl in H.
  - discriminate.
  - destruct (f pos st) as [[[[w|] p] st1]|] eqn:E; try discriminate.
    apply Hf in E.
    assert (Hall : forallb well_formed (subs ++ [w]) = true).
    { rewrite forallb_app, Hsubs. simpl. rewrite E. reflexivity. }
    open_check. repeat break_if; try discriminate.
    + injection H as <- _ _.
      assert (Hlen : negb (List.length (subs ++ [w]) =? 0) = true).
      { rewrite length_app. simpl. destruct (List.length subs + 1) eqn:L; [lia | reflexivity]. }
      destruct Hth as [-> | ->]; simpl; rewrite Hlen, Hall; reflexivity.
    + apply IH in H; auto.
Qed.

Lemma parse_nested_type_rule_shaped f :
  shaped f ->
  forall pos th st v pos' st',
    th = tp_tuple \/ th = tp_future ->
    parse_nested_type_rule s f pos th st = Some (Some v, pos', st') ->
    well_formed v = true.
Proof.
  intros Hf pos th st v pos' st' Hth. unfold parse_nested_type_rule. open_check.
  break_if; try discriminate.
  apply (nested_type_loop_shaped f Hf); auto.
Qed.

Lemma parse_class_name_shaped pos st v pos' st' :
  parse_class_name s pos st = Some (Some v, pos', st') -> well_formed v = true.
Proof.
  unfold parse_class_name, unknown_type_name. open_check.
  repeat break_if; try discriminate; intros H; injection H as <- _ _; reflexivity.
Qed.

Lemma parse_simple_type_shaped f :
  shaped f -> shaped (parse_simple_type s f).
Proof.
  intros Hf pos st v pos' st'. unfold parse_simple_type, unknown_type_name.
  unfold CHECK, kphp_error.
  destruct (pos <? len); try discriminate.
  repeat (match goal with |- context [if ?b then _ else _] => destruct b eqn:? end);
    try discriminate;
    try (intros H; injection H as <- _ _; reflexivity);
    try (intros H; apply (parse_nested_type_rule_shaped f Hf) in H; auto);
    try (intros H; apply parse_class_name_shaped in H; assumption).
  destruct (f (pos + 1) st) as [[[[w|] p] st1]|] eqn:E; try discriminate.
  apply Hf in E. break_if; try discriminate. intros H; injection H as <- _ _. exact E.
Qed.

Lemma array_suffix_loop_well_formed n res pos st v pos' st' :
  well_formed res = true ->
  array_suffix_loop s n res pos st = Some (Some v, pos', st') ->
  well_formed v = true.
Proof.
  intros Hres H.
  destruct (array_suffix_loop_nest s n _ _ _ _ _ _ H) as (k & -> & _).
  clear H. induction k as [|k IH]; simpl; [exact Hres|].
  change (Nat.iter k ArrayOf res) with (array_nest k res). rewrite IH. apply orb_true_r.
Qed.

Lemma parse_type_array_shaped f :
  shaped f -> shaped (parse_type_array s f).
Proof.
  intros Hf pos st v pos' st'. unfold parse_type_array.
  destruct (parse_simple_type s f pos st) as [[[[w|] p] st1]|] eqn:E; try discriminate.
  apply (parse_simple_type_shaped f Hf) in E.
  apply array_suffix_loop_well_formed. exact E.
Qed.

Lemma union_loop_shaped f :
  shaped f ->
  forall n res hrb pos st v pos' st',
    well_formed res = true ->
    union_loop s f n res hrb pos st = Some (Some v, pos', st') ->
    well_formed v = true.
Proof.
  intros Hf. induction n as [|n IH]; intros res hrb pos st v pos' st' Hres H; simpl in H.
  - break_if; try discriminate. injection H as <- _ _. exact Hres.
  - break_if.
    + destruct (parse_type_array s f (pos + 1) st) as [[[[w|] p] st1]|] eqn:E;
        try discriminate.
      apply (parse_type_array_shaped f Hf) in E. apply IH in H; [exact H|].
      simpl. rewrite Hres, E. reflexivity.
    + injection H as <- _ _. exact Hres.
Qed.

Lemma parse_type_expression_body_shaped f :
  shaped f -> shaped (parse_type_expression_body s f).
Proof.
  intros Hf pos st v pos' st'. unfold parse_type_expression_body.
  destruct (parse_type_array s f pos st) as [[[[w|] p] st1]|] eqn:E; try discriminate.
  apply (parse_type_array_shaped f Hf) in E.
  apply (union_loop_shaped f Hf). exact E.
Qed.

Lemma parse_type_expression_depth_shaped d : shaped (parse_type_expression_depth s d).
Proof.
  induction d as [|d IH].
  - intros pos st v pos' st' H. discriminate.
  - simpl. apply parse_type_expression_body_shaped. exact IH.
Qed.

Lemma parse_type_expression_shaped pos st v pos' st' :
  parse_type_expression s pos st = (Some v, pos', st') -> well_formed v = true.
Proof.
  intros H. apply (parse_type_expression_depth_shaped (S len) pos st v pos' st').
  rewrite parse_type_expression_depth_enough by lia. rewrite H. reflexivity.
Qed.

End GrammarShapes.

(** X5.  Every vertex the parser returns is well formed: a primitive
    type has no child, an array has exactly its element type, a tuple
    or a future has at least one argument, [tp_Unknown] stands only for
    the element type of a bare [array], and [tp_Class] is never used
    for an [op_type_expr_type].  This holds for a type expression
    parsed at any position, for [parse_from_type_string] (the variadic
    wrapping included) and for [phpdoc_parse_type]. *)
Theorem returned_vertices_are_well_formed :
  forall (env : Resolution) (type_str : string),
    (forall pos st v pos' st',
        parse_type_expression type_str pos st = (Some v, pos', st') -> well_formed v = true)
    /\ (forall st v st',
           parse_from_type_string type_str st = (Some v, st') -> well_formed v = true)
    /\ (forall v reported_errors,
           phpdoc_parse_type type_str = (Some v, reported_errors) -> well_formed v = true).
Proof.
  intros env type_str.
  assert (Hfrom : forall st v st',
             parse_from_type_string type_str st = (Some v, st') -> well_formed v = true).
  { intros st v st' H.
    destruct (parse_from_type_string_ok type_str st v st' H) as (v0 & pos & E & Hv).
    apply parse_type_expression_shaped in E.
    destruct Hv as [[_ ->] | (_ & _ & ->)]; [exact E|].
    simpl. rewrite E. apply orb_true_r. }
  split; [apply parse_type_expression_shaped|]. split; [exact Hfrom|].
  intros v errs. unfold phpdoc_parse_type.
  destruct (parse_from_type_string type_str init_state) as [r st'] eqn:E.
  destruct (unknown_classes_list st'); intros H; [|discriminate H].
  injection H as -> _. exact (Hfrom _ _ _ E).
Qed.

(** X5 at work: the text ["tuple<array,int[]>"]. *)
Lemma returned_vertices_are_well_formed_instance :
  well_formed (Parameterized tp_tuple
                 [ArrayOf (Primitive tp_Unknown); ArrayOf (Primitive tp_int)]) = true.
Proof.
  apply (proj2 (proj2 (returned_vertices_are_well_formed example "tuple<array,int[]>")) _ []).
  vm_compute. reflexivity.
Defined.

(** ** Parameterized types, read back *)

Section GrammarArguments.
Context {env : Resolution}.
Variable s : string.

Local Abbreviation len := (String.length s).

Lemma nested_type_loop_args n :
  forall th subs pos st v pos' st',
    nested_type_loop s (expr_call s) n th subs pos st = Some (Some v, pos', st') ->
    exists vs,
      vs <> [] /\ v = op_type_expr_type th (subs ++ vs)%list
      /\ type_args s pos st vs pos' st'.
Proof.
  induction n as [|n IH]; intros th subs pos st v pos' st' H; simpl in H.
  - discriminate.
  - unfold expr_call at 1 in H.
    destruct (parse_type_expression s pos st) as [[[w|] p] st1] eqn:E; try discriminate.
    open_check. destruct (p <? len) eqn:Hp; try discriminate. apply Nat.ltb_lt in Hp.
    destruct (Ascii.eqb (Str.at_ s p) ">" || Ascii.eqb (Str.at_ s p) ")") eqn:Hclose.
    + injection H as <- <- <-. exists [w]. split; [discriminate|]. split; [reflexivity|].
      apply (type_args_last s pos st w p st1 E Hp).
      apply orb_true_iff in Hclose.
      destruct Hclose as [Hc | Hc]; apply Ascii.eqb_eq in Hc; auto.
    + destruct (Ascii.eqb (Str.at_ s p) ",") eqn:Hcomma; try discriminate.
      apply Ascii.eqb_eq in Hcomma.
      destruct (IH _ _ _ _ _ _ _ H) as (vs & Hvs & -> & Hargs).
      exists (w :: vs). split; [discriminate|]. rewrite <- app_assoc. split; [reflexivity|].
      exact (type_args_more s pos st w p st1 vs pos' st' E Hp Hcomma Hargs).
Qed.

(** X6.  A parameterized type has its brackets and its arguments.  When
    [parse_nested_type_rule] returns a vertex, the text has an opening
    ['<'] or ['('] at the position, the arguments that follow it up to
    the closing bracket are a non-empty comma-separated list of type
    expressions, and the vertex is the parameterized type over exactly
    these arguments, in their order. *)
Theorem parameterized_type_has_its_arguments :
  forall pos type_help st v pos' st',
    nested_type_rule s pos type_help st = (Some v, pos', st') ->
    pos < len
    /\ (Str.at_ s pos = "<"%char \/ Str.at_ s pos = "("%char)
    /\ exists vs,
        vs <> [] /\ v = Parameterized type_help vs
        /\ type_args s (pos + 1) st vs pos' st'.
Proof.
  intros pos type_help st v pos' st' H. rewrite nested_type_rule_eq in H.
  destruct (pos <? len) eqn:Hp; try discriminate. apply Nat.ltb_lt in Hp.
  destruct (Ascii.eqb (Str.at_ s pos) "<" || Ascii.eqb (Str.at_ s pos) "(") eqn:Hopen;
    try discriminate.
  simpl in H. split; [exact Hp|]. split.
  - apply orb_true_iff in Hopen. destruct Hopen as [Hc | Hc]; apply Ascii.eqb_eq in Hc; auto.
  - apply (nested_type_loop_args (S len) type_help [] (pos + 1) st).
    rewrite (nested_args_returned s (S len)) by lia. rewrite H. reflexivity.
Qed.

End GrammarArguments.

(** X6 at work: the arguments of ["future<int>"]. *)
Lemma parameterized_type_has_its_arguments_instance :
  6 < String.length "future<int>"
  /\ (Str.at_ "future<int>" 6 = "<"%char \/ Str.at_ "future<int>" 6 = "("%char)
  /\ exists vs,
      vs <> [] /\ Parameterized tp_future [Primitive tp_int] = Parameterized tp_future vs
      /\ type_args (env := example) "future<int>" (6 + 1) init_state vs 11 init_state.
Proof.
  apply (parameterized_type_has_its_arguments (env := example) "future<int>"
           6 tp_future init_state _ 11 init_state).
  vm_compute. reflexivity.
Defined.

(** ** Where the text ends, and brackets left open *)

Lemma substring_substring (str : string) :
  forall a n m, n <= m -> substring 0 n (substring a m str) = substring a n str.
Proof.
  induction str as [|c str IH]; intros a n m Hnm.
  - destruct a, m, n; reflexivity.
  - destruct a as [|a].
    + destruct m as [|m]; [replace n with 0 by lia; reflexivity|].
      destruct n as [|n]; [reflexivity|]. simpl. rewrite IH by lia. reflexivity.
    + simpl. apply IH. exact Hnm.
Qed.

Section GrammarEnds.
Context {env : Resolution}.
Variable s : string.

Local Abbreviation len := (String.length s).

(** A keyword found at [pos] settles the other comparisons made at
    [pos] with keywords that are not longer. *)
Lemma keyword_prefix pos kw kw' :
  keyword s pos kw = true ->
  String.length kw' <= String.length kw ->
  keyword s pos kw' = String.eqb (substring 0 (String.length kw') kw) kw'.
Proof.
  unfold keyword, Str.substr. intros H Hle. apply String.eqb_eq in H.
  rewrite <- (substring_substring s pos _ (String.length kw)) by exact Hle.
  rewrite H. reflexivity.
Qed.

Lemma keyword_head pos kw c r :
  keyword s pos kw = true -> kw = String c r -> Str.at_ s pos = c.
Proof.
  unfold keyword. intros H ->. apply String.eqb_eq in H.
  exact (substr_head _ _ _ _ _ H).
Qed.

Lemma simple_type_end pos st :
  len <= pos -> simple_type s pos st = (None, pos, report UnexpectedEnd st).
Proof.
  intros Hpos. pose proof (simple_type_returned s pos st) as R.
  unfold parse_simple_type, CHECK, kphp_error in R.
  apply Nat.ltb_ge in Hpos. rewrite Hpos in R. injection R as <-. reflexivity.
Qed.

Lemma type_array_end pos st :
  len <= pos -> type_array s pos st = (None, pos, report UnexpectedEnd st).
Proof. intros Hpos. rewrite type_array_eq, simple_type_end by exact Hpos. reflexivity. Qed.

Lemma parse_type_expression_end pos st :
  len <= pos -> parse_type_expression s pos st = (None, pos, report UnexpectedEnd st).
Proof.
  intros Hpos. rewrite parse_type_expression_eq, type_array_end by exact Hpos. reflexivity.
Qed.

Lemma union_tail_end res has_raw_bool pos st :
  pos < len -> Str.at_ s pos = "|"%char -> pos + 1 = len ->
  union_tail s res has_raw_bool pos st = (None, len, report UnexpectedEnd st).
Proof.
  intros Hpos Hc Hend. rewrite union_tail_eq. apply Nat.ltb_lt in Hpos. rewrite Hpos, Hc.
  simpl. rewrite type_array_end by lia. rewrite Hend. reflexivity.
Qed.

Lemma simple_type_paren pos st :
  pos < len -> Str.at_ s pos = "("%char ->
  simple_type s pos st =
  match parse_type_expression s (pos + 1) st with
  | (None, p, st1) => (None, p, st1)
  | (Some v, p, st1) =>
      if (p <? len) && Ascii.eqb (Str.at_ s p) ")" then (Some v, p + 1, st1)
      else (None, p, report msg_unmatching_paren st1)
  end.
Proof.
  intros Hpos Hc. pose proof (simple_type_returned s pos st) as R.
  unfold parse_simple_type, CHECK, kphp_error in R.
  apply Nat.ltb_lt in Hpos. rewrite Hpos, Hc in R. simpl in R. unfold expr_call in R.
  destruct (parse_type_expression s (pos + 1) st) as [[[v|] p] st1].
  - destruct ((p <? len) && Ascii.eqb (Str.at_ s p) ")"); injection R as <-; reflexivity.
  - injection R as <-. reflexivity.
Qed.

Lemma simple_type_paren_end pos st :
  pos < len -> Str.at_ s pos = "("%char -> pos + 1 = len ->
  simple_type s pos st = (None, len, report UnexpectedEnd st).
Proof.
  intros Hpos Hc Hend. rewrite simple_type_paren by assumption.
  rewrite parse_type_expression_end by lia. rewrite Hend. reflexivity.
Qed.

Lemma nested_type_rule_end pos type_help st :
  pos < len -> Str.at_ s pos = "<"%char \/ Str.at_ s pos = "("%char -> pos + 1 = len ->
  nested_type_rule s pos type_help st = (None, len, report UnexpectedEnd st).
Proof.
  intros Hpos Hc Hend. rewrite nested_type_rule_eq.
  replace (Ascii.eqb (Str.at_ s pos) "<" || Ascii.eqb (Str.at_ s pos) "(") with true
    by (destruct Hc as [-> | ->]; reflexivity).
  apply Nat.ltb_lt in Hpos. rewrite Hpos. simpl.
  rewrite nested_args_eq by lia. rewrite parse_type_expression_end by lia.
  rewrite Hend. reflexivity.
Qed.

Lemma nested_args_comma_end type_help sub_types pos st v p st1 :
  pos <= len ->
  parse_type_expression s pos st = (Some v, p, st1) ->
  p < len -> Str.at_ s p = ","%char -> p + 1 = len ->
  nested_args s type_help sub_types pos st = (None, len, report UnexpectedEnd st1).
Proof.
  intros Hpos E Hp Hc Hend. rewrite nested_args_eq by exact Hpos. rewrite E.
  apply Nat.ltb_lt in Hp. rewrite Hp, Hc. simpl.
  rewrite nested_args_eq by lia. rewrite parse_type_expression_end by lia.
  rewrite Hend. reflexivity.
Qed.

(** *** Brackets left open *)

Lemma array_suffixes_pairs k :
  forall res pos st,
    (forall i, i < k -> Str.at_ s (pos + 2 * i) = "["%char
                        /\ Str.at_ s (pos + 2 * i + 1) = "]"%char) ->
    pos + 2 * k <= len ->
    array_suffixes s res pos st = array_suffixes s (array_nest k res) (pos + 2 * k) st.
Proof.
  induction k as [|k IH]; intros res pos st Hpairs Hlen.
  - simpl. rewrite Nat.add_0_r. reflexivity.
  - rewrite array_suffixes_eq. destruct (Hpairs 0 ltac:(lia)) as [H0 H1].
    rewrite Nat.mul_0_r, Nat.add_0_r in H0, H1. rewrite H0, H1.
    replace (pos <? len) with true by (symmetry; apply Nat.ltb_lt; lia).
    replace (pos + 1 <? len) with true by (symmetry; apply Nat.ltb_lt; lia).
    rewrite !Ascii.eqb_refl. cbn [andb]. rewrite IH.
    + change (op_type_expr_type tp_array [res]) with (ArrayOf res).
      rewrite array_nest_S. f_equal. lia.
    + intros i Hi. destruct (Hpairs (S i) ltac:(lia)) as [A B].
      replace (pos + 2 + 2 * i) with (pos + 2 * S i) by lia. auto.
    + lia.
Qed.

Lemma type_array_unmatching pos st base pos0 st0 k :
  simple_type s pos st = (Some base, pos0, st0) ->
  (forall i, i < k -> Str.at_ s (pos0 + 2 * i) = "["%char
                      /\ Str.at_ s (pos0 + 2 * i + 1) = "]"%char) ->
  pos0 + 2 * k < len ->
  Str.at_ s (pos0 + 2 * k) = "["%char ->
  (pos0 + 2 * k + 1 <? len) && Ascii.eqb (Str.at_ s (pos0 + 2 * k + 1)) "]" = false ->
  type_array s pos st = (None, pos0 + 2 * k, report msg_unmatching_bracket st0).
Proof.
  intros E Hpairs Hlen Hopen Hclose. rewrite type_array_eq, E.
  rewrite (array_suffixes_pairs k) by (auto; lia).
  rewrite array_suffixes_eq, Hopen, Hclose. apply Nat.ltb_lt in Hlen. rewrite Hlen.
  reflexivity.
Qed.

Lemma simple_type_unmatching pos st v p st1 :
  pos < len -> Str.at_ s pos = "("%char ->
  parse_type_expression s (pos + 1) st = (Some v, p, st1) ->
  (p <? len) && Ascii.eqb (Str.at_ s p) ")" = false ->
  simple_type s pos st = (None, p, report msg_unmatching_paren st1).
Proof.
  intros Hpos Hc E Hclose. rewrite simple_type_paren by assumption.
  rewrite E, Hclose. reflexivity.
Qed.

Lemma nested_args_unclosed type_help sub_types pos st v p st1 :
  pos <= len ->
  parse_type_expression s pos st = (Some v, p, st1) ->
  (p <? len) && (Ascii.eqb (Str.at_ s p) ">" || Ascii.eqb (Str.at_ s p) ")"
                 || Ascii.eqb (Str.at_ s p) ",") = false ->
  nested_args s type_help sub_types pos st =
  (None, p, report (if p <? len then msg_expected_comma else UnexpectedEnd) st1).
Proof.
  intros Hpos E Hc. rewrite nested_args_eq by exact Hpos. rewrite E.
  destruct (p <? len); [|reflexivity]. simpl in Hc.
  apply orb_false_iff in Hc. destruct Hc as [Hc ->]. rewrite Hc. reflexivity.
Qed.

(** The keywords that open a parameterized type. *)
Lemma simple_type_nested pos st kw type_help :
  In (kw, type_help)
     [("tuple", tp_tuple); ("future", tp_future); ("\tuple", tp_tuple); ("\future", tp_future)] ->
  keyword s pos kw = true ->
  simple_type s pos st = nested_type_rule s (pos + String.length kw) type_help st.
Proof.
  intros Hin K.
  assert (Hpos : pos < len).
  { assert (0 < String.length kw)
      by (simpl in Hin; decompose [or] Hin; try contradiction;
          match goal with E : _ = (kw, _) |- _ => injection E as <- _ end; simpl; lia).
    pose proof (keyword_within s pos kw K). lia. }
  pose proof (simple_type_returned s pos st) as R.
  unfold parse_simple_type, CHECK, kphp_error in R.
  apply Nat.ltb_lt in Hpos. rewrite Hpos in R.
  simpl in Hin. decompose [or] Hin; try contradiction;
    match goal with E : _ = (kw, _) |- _ => injection E as <- <- end;
    rewrite (keyword_head pos _ _ _ K eq_refl) in R; simpl in R.
  - rewrite (keyword_prefix pos _ "true" K), K in R by (simpl; lia). simpl in R.
    rewrite nested_type_rule_returned in R. injection R as <-. reflexivity.
  - rewrite (keyword_prefix pos _ "float" K), (keyword_prefix pos _ "false" K), K in R
      by (simpl; lia).
    simpl in R. rewrite nested_type_rule_returned in R. injection R as <-. reflexivity.
  - rewrite K in R. rewrite nested_type_rule_returned in R. injection R as <-. reflexivity.
  - rewrite (keyword_prefix pos _ "\tuple" K), K in R by (simpl; lia). simpl in R.
    rewrite nested_type_rule_returned in R. injection R as <-. reflexivity.
Qed.

Lemma simple_type_no_opener pos st kw type_help :
  In (kw, type_help)
     [("tuple", tp_tuple); ("future", tp_future); ("\tuple", tp_tuple); ("\future", tp_future)] ->
  keyword s pos kw = true ->
  let p := pos + String.length kw in
  (p <? len) && (Ascii.eqb (Str.at_ s p) "<" || Ascii.eqb (Str.at_ s p) "(") = false ->
  simple_type s pos st = (None, p, report msg_expected_open st).
Proof.
  intros Hin K p Hopen. rewrite (simple_type_nested pos st kw type_help Hin K).
  rewrite nested_type_rule_eq. fold p. rewrite Hopen. reflexivity.
Qed.

End GrammarEnds.

(** X7.  A text that ends where a type is expected.  Wherever the
    grammar asks for a type and the text has ended (at the very start,
    which covers the empty text; right after ['|']; right after the
    ['('] of a group; right after the opening bracket of a
    parameterized type or the [','] between its arguments) the parse
    stops with the one error [UnexpectedEnd], at the end of the text,
    and with nothing else added to the state: no raw-[bool] complaint
    is made for a union that is cut short. *)
Theorem text_ends_where_a_type_is_expected :
  forall (env : Resolution) (s : string),
    (forall pos st,
        String.length s <= pos ->
        parse_type_expression s pos st = (None, pos, report UnexpectedEnd st))
    /\ (forall st,
           String.length s = 0 ->
           parse_from_type_string s st = (None, report UnexpectedEnd st))
    /\ (forall res has_raw_bool pos st,
           pos < String.length s -> Str.at_ s pos = "|"%char -> pos + 1 = String.length s ->
           union_tail s res has_raw_bool pos st
           = (None, String.length s, report UnexpectedEnd st))
    /\ (forall pos st,
           pos < String.length s -> Str.at_ s pos = "("%char -> pos + 1 = String.length s ->
           simple_type s pos st = (None, String.length s, report UnexpectedEnd st))
    /\ (forall pos type_help st,
           pos < String.length s ->
           Str.at_ s pos = "<"%char \/ Str.at_ s pos = "("%char ->
           pos + 1 = String.length s ->
           nested_type_rule s pos type_help st
           = (None, String.length s, report UnexpectedEnd st))
    /\ (forall type_help sub_types pos st v p st1,
           pos <= String.length s ->
           parse_type_expression s pos st = (Some v, p, st1) ->
           p < String.length s -> Str.at_ s p = ","%char -> p + 1 = String.length s ->
           nested_args s type_help sub_types pos st
           = (None, String.length s, report UnexpectedEnd st1)).
Proof.
  intros env s. split; [apply parse_type_expression_end|]. split.
  { intros st Hlen. unfold parse_from_type_string.
    rewrite parse_type_expression_end by lia. reflexivity. }
  split; [apply union_tail_end|]. split; [apply simple_type_paren_end|].
  split; [apply nested_type_rule_end | apply nested_args_comma_end].
Qed.

(** X7 at work: the text ["int|"]. *)
Lemma text_ends_where_a_type_is_expected_instance :
  union_tail (env := example) "int|" (Primitive tp_int) false 3 init_state
  = (None, 4, report UnexpectedEnd init_state).
Proof.
  apply (proj1 (proj2 (proj2 (text_ends_where_a_type_is_expected example "int|"))));
    [simpl; lia | reflexivity | reflexivity].
Defined.

(** X8.  Brackets left open, each with its own error.  A group whose
    [')'] is missing is reported as "unmatching ()"; an array suffix
    whose ['['] is not directly followed by [']'], after any number of
    complete pairs, as "unmatching []"; an argument of a parameterized
    type followed by something other than ['>'], [')'] or [','] as
    "expected ','", and by the end of the text as [UnexpectedEnd]; and
    [tuple] or [future] (with or without the leading backslash) not
    followed by ['<'] or ['('] as "expected '<' or '('".  In each case
    no vertex is returned, the position is where the bracket was
    expected, and nothing but the error is added to the state. *)
Theorem brackets_left_open_are_reported :
  forall (env : Resolution) (s : string),
    (forall pos st v p st1,
        pos < String.length s -> Str.at_ s pos = "("%char ->
        parse_type_expression s (pos + 1) st = (Some v, p, st1) ->
        (p <? String.length s) && Ascii.eqb (Str.at_ s p) ")" = false ->
        simple_type s pos st = (None, p, report msg_unmatching_paren st1))
    /\ (forall pos st base pos0 st0 k,
           simple_type s pos st = (Some base, pos0, st0) ->
           (forall i, i < k -> Str.at_ s (pos0 + 2 * i) = "["%char
                               /\ Str.at_ s (pos0 + 2 * i + 1) = "]"%char) ->
           pos0 + 2 * k < String.length s ->
           Str.at_ s (pos0 + 2 * k) = "["%char ->
           (pos0 + 2 * k + 1 <? String.length s)
           && Ascii.eqb (Str.at_ s (pos0 + 2 * k + 1)) "]" = false ->
           type_array s pos st = (None, pos0 + 2 * k, report msg_unmatching_bracket st0))
    /\ (forall type_help sub_types pos st v p st1,
           pos <= String.length s ->
           parse_type_expression s pos st = (Some v, p, st1) ->
           (p <? String.length s)
           && (Ascii.eqb (Str.at_ s p) ">" || Ascii.eqb (Str.at_ s p) ")"
               || Ascii.eqb (Str.at_ s p) ",") = false ->
           nested_args s type_help sub_types pos st
           = (None, p,
              report (if p <? String.length s then msg_expected_comma else UnexpectedEnd) st1))
    /\ (forall pos st kw type_help,
           In (kw, type_help)
              [("tuple", tp_tuple); ("future", tp_future);
               ("\tuple", tp_tuple); ("\future", tp_future)] ->
           keyword s pos kw = true ->
           let p := pos + String.length kw in
           (p <? String.length s)
           && (Ascii.eqb (Str.at_ s p) "<" || Ascii.eqb (Str.at_ s p) "(") = false ->
           simple_type s pos st = (None, p, report msg_expected_open st)).
Proof.
  intros env s. split; [apply simple_type_unmatching|].
  split; [apply type_array_unmatching|].
  split; [apply nested_args_unclosed | apply simple_type_no_opener].
Qed.

(** X8 at work: the text ["int[][5]"]. *)
Lemma brackets_left_open_are_reported_instance :
  type_array (env := example) "int[][5]" 0 init_state
  = (None, 3 + 2 * 1, report msg_unmatching_bracket init_state).
Proof.
  apply (proj1 (proj2 (brackets_left_open_are_reported example "int[][5]"))
               0 init_state (Primitive tp_int) 3 init_state 1).
  - reflexivity.
  - intros i Hi. assert (i = 0) as -> by lia. split; reflexivity.
  - simpl. lia.
  - reflexivity.
  - reflexivity.
Defined.

(** ** Keywords and what cannot start a type *)

Section GrammarKeywords.
Context {env : Resolution}.
Variable s : string.

Local Abbreviation len := (String.length s).

Ltac keyword_found R K :=
  rewrite (keyword_head s _ _ _ _ K eq_refl) in R; simpl in R;
  repeat match goal with
         | H : keyword s _ _ = _ |- _ => rewrite H in R; clear H
         end;
  injection R as <-; reflexivity.

Lemma simple_type_keyword pos st kw v :
  find (fun entry => keyword s pos (fst entry)) primitive_keywords = Some (kw, v) ->
  simple_type s pos st = (Some v, pos + String.length kw, st).
Proof.
  intros Hfind.
  assert (Hpos : pos < len).
  { apply find_some in Hfind. destruct Hfind as [Hin K]. simpl in K.
    assert (0 < String.length kw)
      by (unfold primitive_keywords in Hin; simpl in Hin; decompose [or] Hin;
          try contradiction;
          match goal with E : _ = (kw, _) |- _ => injection E as <- _ end; simpl; lia).
    pose proof (keyword_within s pos kw K). lia. }
  pose proof (simple_type_returned s pos st) as R.
  unfold parse_simple_type, CHECK, kphp_error in R.
  apply Nat.ltb_lt in Hpos. rewrite Hpos in R. clear Hpos.
  unfold primitive_keywords in Hfind. cbn [find fst] in Hfind.
  repeat match type of Hfind with
         | (if keyword s pos ?k then _ else _) = _ =>
             let K := fresh "K" in
             destruct (keyword s pos k) eqn:K;
             [injection Hfind as <- <-; keyword_found R K|]
         end.
  discriminate Hfind.
Qed.

Lemma simple_type_self pos st :
  keyword s pos "self" = true ->
  simple_type s pos st = (Some (ClassRef current_class_id), pos + 4, st).
Proof.
  intros K.
  assert (Hpos : pos < len) by (pose proof (keyword_within s pos _ K); simpl in *; lia).
  pose proof (simple_type_returned s pos st) as R.
  unfold parse_simple_type, CHECK, kphp_error in R.
  apply Nat.ltb_lt in Hpos. rewrite Hpos in R.
  rewrite (keyword_head s _ _ _ _ K eq_refl) in R; simpl in R.
  destruct (keyword s pos "string") eqn:K2.
  { rewrite (keyword_prefix s pos "string" "self" K2) in K by (simpl; lia).
    simpl in K. discriminate K. }
  rewrite K in R. injection R as <-. reflexivity.
Qed.

Lemma all_keywords_false pos :
  forallb (fun kw => negb (keyword s pos kw)) keywords = true ->
  forall kw, In kw keywords -> keyword s pos kw = false.
Proof.
  intros H kw Hin. rewrite forallb_forall in H. apply H in Hin.
  apply negb_true_iff in Hin. exact Hin.
Qed.

Lemma simple_type_unknown pos st :
  pos < len ->
  Str.at_ s pos <> "("%char -> Str.at_ s pos <> "\"%char ->
  is_upper (Str.at_ s pos) = false ->
  Str.starts_with (Str.substr_from s pos) tl_namespace_marker = false ->
  forallb (fun kw => negb (keyword s pos kw)) keywords = true ->
  simple_type s pos st = (None, pos, report (UnknownTypeName s) st).
Proof.
  intros Hpos Hparen Hback Hup Htl Hkw.
  pose proof (all_keywords_false pos Hkw) as K.
  pose proof (simple_type_returned s pos st) as R.
  unfold parse_simple_type, parse_class_name, unknown_type_name, CHECK, kphp_error in R.
  apply Nat.ltb_lt in Hpos. rewrite Hpos in R.
  apply Ascii.eqb_neq in Hparen, Hback. rewrite Htl in R. cbv beta iota zeta in R.
  fold (is_upper (Str.at_ s pos)) in R. rewrite Hup, Hparen, !Hback in R.
  rewrite !K in R by (unfold keywords; simpl; tauto).
  cbn [orb andb] in R.
  repeat match type of R with
         | context [if ?b then _ else _] => destruct b
         end;
    injection R as <-; reflexivity.
Qed.

End GrammarKeywords.

(** X9.  Keywords are matched as prefixes, in the order of the
    [switch].  Where the text continues with a keyword of the table
    (the first one in the table's order, so that [integer] and
    [boolean] win over [int] and [bool]), [parse_simple_type] returns
    the keyword's vertex, moves the position by the keyword's length
    and leaves the state as it was, whatever follows the keyword: no
    word boundary is asked for.  [self] gives the class of the
    function, null or not, and records no unknown class; [tuple] and
    [future], with or without a leading backslash, hand the text after
    them to [parse_nested_type_rule]. *)
Theorem keywords_are_matched_as_prefixes :
  forall (env : Resolution) (s : string),
    (forall pos st kw v,
        find (fun entry => keyword s pos (fst entry)) primitive_keywords = Some (kw, v) ->
        simple_type s pos st = (Some v, pos + String.length kw, st))
    /\ (forall pos st,
           keyword s pos "self" = true ->
           simple_type s pos st = (Some (ClassRef current_class_id), pos + 4, st))
    /\ (forall pos st kw type_help,
           In (kw, type_help)
              [("tuple", tp_tuple); ("future", tp_future);
               ("\tuple", tp_tuple); ("\future", tp_future)] ->
           keyword s pos kw = true ->
           simple_type s pos st = nested_type_rule s (pos + String.length kw) type_help st).
Proof.
  intros env s. split; [apply simple_type_keyword|].
  split; [apply simple_type_self | apply simple_type_nested].
Qed.

(** X9 at work: the text ["integers"], in which [integer] is found and
    the final letter is left. *)
Lemma keywords_are_matched_as_prefixes_instance :
  simple_type (env := example) "integers" 0 init_state
  = (Some (Primitive tp_int), 0 + String.length "integer", init_state).
Proof.
  apply (proj1 (keywords_are_matched_as_prefixes example "integers")).
  reflexivity.
Defined.

(** X10.  What cannot start a type.  At a character of the text that is
    neither ['('], nor a backslash, nor a capital letter, where no
    [@tl\] marker and no keyword is found, [parse_simple_type] stops
    with [UnknownTypeName], which quotes the whole text being parsed
    and not only the part at fault; the position stays where it was
    and nothing else is added to the state.  In particular a class
    name cannot start with a small letter, a digit or an underscore. *)
Theorem unknown_type_name_at_any_other_start :
  forall (env : Resolution) (s : string) (pos : nat) (st : PState),
    pos < String.length s ->
    Str.at_ s pos <> "("%char -> Str.at_ s pos <> "\"%char ->
    is_upper (Str.at_ s pos) = false ->
    Str.starts_with (Str.substr_from s pos) tl_namespace_marker = false ->
    forallb (fun kw => negb (keyword s pos kw)) keywords = true ->
    simple_type s pos st = (None, pos, report (UnknownTypeName s) st)
    /\ parse_type_expression s pos st = (None, pos, report (UnknownTypeName s) st).
Proof.
  intros env s pos st Hpos Hparen Hback Hup Htl Hkw.
  assert (H : simple_type s pos st = (None, pos, report (UnknownTypeName s) st))
    by (apply simple_type_unknown; assumption).
  split; [exact H|].
  rewrite parse_type_expression_eq, type_array_eq, H. reflexivity.
Qed.

(** X10 at work: the word ["foo"] after ["A|"]. *)
Lemma unknown_type_name_at_any_other_start_instance :
  parse_type_expression (env := example) "A|foo" 2 init_state
  = (None, 2, report (UnknownTypeName "A|foo") init_state).
Proof.
  apply (unknown_type_name_at_any_other_start example "A|foo" 2 init_state);
    [simpl; lia | discriminate | discriminate | reflexivity | reflexivity | reflexivity].
Defined.

(** ** Class names *)

Lemma at_substr_from (str : string) :
  forall pos k, Str.at_ (Str.substr_from str pos) k = Str.at_ str (pos + k).
Proof.
  unfold Str.substr_from, Str.at_.
  induction str as [|c str IH]; intros pos k.
  - destruct pos; simpl; destruct k; reflexivity.
  - destruct pos as [|pos].
    + simpl. rewrite substring_all. reflexivity.
    + simpl. apply IH.
Qed.

Lemma classname_run_spec (r : string) :
  let k := classname_run r in
  k <= String.length r
  /\ all_chars is_classname_char (substring 0 k r) = true
  /\ is_classname_char (Str.at_ r k) = false.
Proof.
  induction r as [|c r IH]; simpl.
  - split; [lia|]. split; reflexivity.
  - destruct (is_classname_char c) eqn:Hc.
    + destruct IH as (H1 & H2 & H3). split; [lia|]. split.
      * simpl. rewrite Hc, H2. reflexivity.
      * exact H3.
    + split; [lia|]. split; [reflexivity | exact Hc].
Qed.

Lemma substr_from_split (str : string) pos k :
  pos + k <= String.length str ->
  Str.substr_from str pos = (substring pos k str ++ Str.substr_from str (pos + k))%string.
Proof.
  intros H. unfold Str.substr_from.
  replace (String.length str - pos) with (k + (String.length str - (pos + k))) by lia.
  apply substring_split.
Qed.

(** X12.  The class name read at a position is the longest run of
    class-name characters there.  What [extract_classname_from_pos]
    returns is the text from the position on, up to the first
    character that is not a letter, a digit, a backslash or an
    underscore: all its characters are of that kind, the text
    continues with it, and the character after it (or the end of the
    text) is not of that kind. *)
Theorem class_name_is_the_longest_run :
  forall (str : string) (pos : nat),
    let class_name := extract_classname_from_pos str pos in
    all_chars is_classname_char class_name = true
    /\ (pos <= String.length str ->
        Str.substr_from str pos
        = (class_name ++ Str.substr_from str (pos + String.length class_name))%string)
    /\ is_classname_char (Str.at_ str (pos + String.length class_name)) = false.
Proof.
  intros str pos. cbv zeta. unfold extract_classname_from_pos, Str.substr.
  destruct (classname_run_spec (Str.substr_from str pos)) as (Hk & Hall & Hstop).
  set (k := classname_run (Str.substr_from str pos)) in *.
  assert (Hsub : substring pos k str = substring 0 k (Str.substr_from str pos)).
  { unfold Str.substr_from. rewrite substring_substring; [reflexivity|].
    pose proof (length_substring_le str pos (String.length str - pos)).
    fold (Str.substr_from str pos) in H. lia. }
  assert (Hle : String.length (Str.substr_from str pos) <= String.length str - pos)
    by apply length_substring_le.
  destruct (Nat.le_gt_cases pos (String.length str)) as [Hpos | Hpos].
  - assert (Hlen : String.length (substring pos k str) = k)
      by (apply length_substring; lia).
    rewrite Hlen. split; [rewrite Hsub; exact Hall|]. split.
    + intros _. apply substr_from_split. lia.
    + rewrite <- at_substr_from. exact Hstop.
  - assert (k = 0) as -> by lia.
    replace (substring pos 0 str) with ""%string
      by (symmetry; clear; revert pos; induction str; destruct pos; simpl; auto).
    simpl. split; [reflexivity|]. split; [lia|].
    rewrite Nat.add_0_r. rewrite <- (Nat.add_0_r pos), <- at_substr_from. exact Hstop.
Qed.

(** X12 at work: the class name in ["\VK\Foo_1[]"]. *)
Lemma class_name_is_the_longest_run_instance :
  Str.substr_from "\VK\Foo_1[]" 0
  = (extract_classname_from_pos "\VK\Foo_1[]" 0
     ++ Str.substr_from "\VK\Foo_1[]"
          (0 + String.length (extract_classname_from_pos "\VK\Foo_1[]" 0)))%string.
Proof.
  apply (proj1 (proj2 (class_name_is_the_longest_run "\VK\Foo_1[]" 0))). simpl. lia.
Defined.

Section GrammarTl.
Context {env : Resolution}.
Variable s : string.

Local Abbreviation len := (String.length s).

(** X11.  The [@tl\] marker.  Where the text continues with [@tl\] and
    goes on after it, the class name is read after the marker and may
    start with a small letter or an underscore as well as with a
    capital or a backslash; the prefix [get_tl_namespace_prefix()] is
    put before the name and the result goes through [resolve_uses] and
    [get_class] like any class name, the marker itself being dropped.
    When another character follows the marker the parse stops with
    [UnknownTypeName], at the position after the marker.  Nothing is
    said of a text that ends with the marker, where the code reads the
    character after the end of the text. *)
Theorem tl_marker_prefixes_the_class_name pos st :
  Str.starts_with (Str.substr_from s pos) tl_namespace_marker = true ->
  pos + 4 < len ->
  let c := Str.at_ s (pos + 4) in
  let relative_class_name := extract_classname_from_pos s (pos + 4) in
  let class_name := resolve_uses (get_tl_namespace_prefix ++ relative_class_name) in
  let klass := get_class class_name in
  simple_type s pos st =
  if Ascii.eqb c "\" || is_upper c || is_lower c || Ascii.eqb c "_" then
    (Some (ClassRef klass), pos + 4 + String.length relative_class_name,
     match klass with
     | None => push_unknown_class class_name st
     | Some k => if is_trait k then report (msg_trait (get_name k)) st else st
     end)
  else (None, pos + 4, report (UnknownTypeName s) st).
Proof.
  intros Htl Hinside. exact (simple_type_at_tl_marker s pos st Htl).
Qed.

End GrammarTl.

(** X11 at work: the text ["@tl\foo_Bar"], with the prefix ["VK\TL\"]. *)
Lemma tl_marker_prefixes_the_class_name_instance :
  simple_type (env := example_tl) "@tl\foo_Bar" 0 init_state
  = (Some (ClassRef None), 11, push_unknown_class "VK\TL\foo_Bar" init_state).
Proof.
  apply (tl_marker_prefixes_the_class_name (env := example_tl) "@tl\foo_Bar" 0 init_state);
    [reflexivity | simpl; lia].
Defined.

(** ** The lines of a comment *)

Lemma back_snoc (ls : list string) cur : back (ls ++ [cur]) = cur.
Proof. unfold back. apply last_last. Qed.

Lemma set_back_snoc (ls : list string) cur x : set_back (ls ++ [cur]) x = (ls ++ [x])%list.
Proof. unfold set_back. rewrite removelast_last. reflexivity. Qed.

Lemma length_zero_empty (str : string) : (String.length str =? 0) = true -> str = "".
Proof. destruct str; [reflexivity | discriminate]. Qed.

Lemma scan_lines_content body :
  forall ls cur have_star lines',
    scan_lines body (ls ++ [cur]) have_star = Some lines' ->
    (have_star = false -> cur = "") ->
    exists l0 rest,
      split_lines body = l0 :: rest
      /\ lines' = (ls ++ (if have_star
                          then (cur ++ (if (String.length cur =? 0)%nat
                                        then skip_blanks l0 else l0))%string
                          else line_content l0)
                      :: map line_content rest)%list.
Proof.
  induction body as [|c body IH]; intros ls cur have_star lines' H Hcur.
  - simpl in H. injection H as <-. exists "", []. split; [reflexivity|].
    destruct have_star.
    + destruct (String.length cur =? 0); simpl; rewrite append_empty_r; reflexivity.
    + rewrite Hcur by reflexivity. reflexivity.
  - simpl scan_lines in H. destruct have_star; simpl negb in H; cbv iota in H.
    + destruct (Ascii.eqb c Str.newline) eqn:Hnl.
      * rewrite <- app_assoc in H. change ([cur] ++ [""])%list with ([cur; ""])%list in H.
        replace (ls ++ [cur; ""])%list with ((ls ++ [cur]) ++ [""])%list in H
          by (rewrite <- app_assoc; reflexivity).
        destruct (IH _ _ _ _ H ltac:(reflexivity)) as (l0 & rest & E & ->).
        exists "", (l0 :: rest). split; [simpl; rewrite Hnl, E; reflexivity|].
        rewrite <- app_assoc. simpl.
        destruct (String.length cur =? 0); simpl; rewrite append_empty_r; reflexivity.
      * rewrite back_snoc in H.
        destruct ((String.length cur =? 0) && is_blank c) eqn:Hskip.
        -- apply andb_true_iff in Hskip. destruct Hskip as [Hempty Hb].
           destruct (IH _ _ _ _ H ltac:(discriminate)) as (l0 & rest & E & ->).
           exists (String c l0), rest. split; [simpl; rewrite Hnl, E; reflexivity|].
           rewrite Hempty. simpl. rewrite Hb. reflexivity.
        -- rewrite set_back_snoc in H.
           destruct (IH _ _ _ _ H ltac:(discriminate)) as (l0 & rest & E & ->).
           exists (String c l0), rest. split; [simpl; rewrite Hnl, E; reflexivity|].
           f_equal. f_equal.
           replace (String.length (cur ++ String c "") =? 0) with false
             by (rewrite length_append; simpl; symmetry; apply Nat.eqb_neq; lia).
           rewrite string_append_assoc. simpl. f_equal.
           destruct (String.length cur =? 0) eqn:Hempty; [|reflexivity].
           simpl in Hskip. rewrite Hskip. reflexivity.
    + specialize (Hcur eq_refl). subst cur.
      destruct (is_blank c) eqn:Hb.
      * destruct (IH _ _ _ _ H ltac:(reflexivity)) as (l0 & rest & E & ->).
        exists (String c l0), rest.
        split; [simpl; rewrite (is_blank_not_newline c Hb), E; reflexivity|].
        simpl. rewrite Hb. reflexivity.
      * destruct (Ascii.eqb c "*") eqn:Hstar; [|discriminate H].
        destruct (IH _ _ _ _ H ltac:(discriminate)) as (l0 & rest & E & ->).
        exists (String c l0), rest. split.
        -- simpl. replace (Ascii.eqb c Str.newline) with false
             by (apply Ascii.eqb_eq in Hstar; subst; reflexivity).
           rewrite E. reflexivity.
        -- simpl. rewrite Hb, Hstar. reflexivity.
Qed.

Lemma skip_blanks_head (line : string) : is_blank (Str.at_ (skip_blanks line) 0) = false.
Proof.
  induction line as [|c line IH]; [reflexivity|].
  simpl. destruct (is_blank c) eqn:Hb; [exact IH | exact Hb].
Qed.

Lemma line_content_head (line : string) : is_blank (Str.at_ (line_content line) 0) = false.
Proof.
  induction line as [|c line IH]; [reflexivity|].
  simpl. destruct (is_blank c); [exact IH|].
  destruct (Ascii.eqb c "*"); [apply skip_blanks_head | reflexivity].
Qed.

(** X13.  The lines extracted from a comment are the texts after the
    markers.  For a comment body in which every line has its marker
    (the last line may be blank instead), the character loop of
    [parse_php_doc] yields one line for each line of the body, in
    order: the text that follows the line's ['*'], without the blanks
    before the marker and without those between the marker and the
    text, blanks further on being kept.  No extracted line starts with
    a space or a tab.  The tags are built from exactly these lines and
    no error is reported. *)
Theorem lines_are_the_texts_after_the_markers :
  forall (line_num_of_function_declaration : Z) (phpdoc : string),
    well_marked phpdoc = true ->
    scan_lines phpdoc [""] false = Some (map line_content (split_lines phpdoc))
    /\ parse_php_doc line_num_of_function_declaration phpdoc
       = (tags_of_lines line_num_of_function_declaration
                        (map line_content (split_lines phpdoc)), [])
    /\ Forall (fun line => is_blank (Str.at_ line 0) = false)
              (map line_content (split_lines phpdoc)).
Proof.
  intros d phpdoc Hwm.
  assert (H : scan_lines phpdoc [""] false = Some (map line_content (split_lines phpdoc))).
  { destruct (proj2 (scan_lines_well_marked phpdoc [""] false) Hwm) as [lines' H].
    rewrite H. f_equal.
    destruct (scan_lines_content phpdoc [] "" false lines' H ltac:(reflexivity))
      as (l0 & rest & -> & ->).
    reflexivity. }
  split; [exact H|]. split.
  - unfold parse_php_doc. rewrite H. reflexivity.
  - apply Forall_forall. intros line Hin. apply in_map_iff in Hin.
    destruct Hin as (l & <- & _). apply line_content_head.
Qed.

(** X13 at work: a comment of two lines. *)
Lemma lines_are_the_texts_after_the_markers_instance :
  scan_lines (comment [" * @param int $x"; "   *   the  x "]) [""] false
  = Some (map line_content (split_lines (comment [" * @param int $x"; "   *   the  x "]))).
Proof.
  apply (proj1 (lines_are_the_texts_after_the_markers
                  0 (comment [" * @param int $x"; "   *   the  x "]) eq_refl)).
Defined.

(** ** What the tags hold *)

Section TagContents.

Local Open Scope list_scope.

Variable d : Z.      (* line_num_of_function_declaration *)
Variable n : nat.    (* lines.size() *)

(** One line added to a sequence ending in [t]: what the tag at the
    back holds afterwards. *)
Lemma step_content result t line i :
  exists t',
    set_line_num d n i (add_line (result ++ [t]) line)
    = (if starts_tag line then result ++ [t; t'] else result ++ [t'])
    /\ name t' = (if starts_tag line then tag_name line else name t)
    /\ type t' = (if starts_tag line then get_doc_type (tag_name line) else type t)
    /\ value t' = (if starts_tag line then tag_text line
                   else (value t ++ String " " line)%string).
Proof.
  unfold add_line, set_line_num, starts_tag, tag_name, tag_text.
  destruct (Ascii.eqb (Str.at_ line 0) "@"); simpl negb; cbv iota.
  - destruct (0 <? d)%Z; eexists; (split; [|split; [|split]]).
    + rewrite tag_back_snoc, set_tag_back_snoc.
      rewrite <- app_assoc. simpl. reflexivity.
    + simpl. destruct (Str.find " " line 0); reflexivity.
    + simpl. destruct (Str.find " " line 0); reflexivity.
    + simpl. destruct (Str.find " " line 0); reflexivity.
    + rewrite <- app_assoc. simpl. reflexivity.
    + simpl. destruct (Str.find " " line 0); reflexivity.
    + simpl. destruct (Str.find " " line 0); reflexivity.
    + simpl. destruct (Str.find " " line 0); reflexivity.
  - rewrite tag_back_snoc, set_tag_back_snoc.
    destruct (0 <? d)%Z; eexists; (split; [|split; [|split]]).
    + rewrite tag_back_snoc, set_tag_back_snoc. reflexivity.
    + reflexivity.
    + reflexivity.
    + reflexivity.
    + reflexivity.
    + reflexivity.
    + reflexivity.
    + reflexivity.
Qed.

Lemma tags_loop_continued conts :
  forallb (fun line => negb (starts_tag line)) conts = true ->
  forall i result t,
    exists t',
      tags_loop d n conts i (result ++ [t]) = result ++ [t']
      /\ name t' = name t /\ type t' = type t
      /\ value t' = continued (value t) conts.
Proof.
  induction conts as [|line conts IH]; intros Hconts i result t.
  - exists t. simpl. auto.
  - simpl in Hconts. apply andb_true_iff in Hconts. destruct Hconts as [Hline Hconts].
    apply negb_true_iff in Hline. simpl tags_loop.
    destruct (step_content result t line i) as (t1 & -> & Hn & Ht & Hv).
    rewrite Hline in *.
    destruct (IH Hconts (S i) result t1) as (t' & -> & Hn' & Ht' & Hv').
    exists t'. split; [reflexivity|]. split; [congruence|]. split; [congruence|].
    rewrite Hv', Hv. reflexivity.
Qed.

(** The tag at the back after the lines [conts], kept by what follows. *)
Lemma tags_loop_kept conts post i result t :
  forallb (fun line => negb (starts_tag line)) conts = true ->
  match post with [] => true | line :: _ => starts_tag line end = true ->
  exists t' more,
    tags_loop d n (conts ++ post) i (result ++ [t]) = (result ++ [t']) ++ more
    /\ name t' = name t /\ type t' = type t
    /\ value t' = continued (value t) conts.
Proof.
  intros Hconts Hpost. rewrite tags_loop_app.
  destruct (tags_loop_continued conts Hconts i result t) as (t' & -> & Hn & Ht & Hv).
  exists t'. destruct post as [|line post].
  - exists []. rewrite app_nil_r. simpl. auto.
  - simpl tags_loop.
    destruct (step_content result t' line (i + List.length conts)) as (t2 & -> & _).
    rewrite Hpost.
    replace (result ++ [t'; t2]) with ((result ++ [t']) ++ [t2])
      by (rewrite <- app_assoc; reflexivity).
    destruct (tags_loop_keeps d n post (S (i + List.length conts)) (result ++ [t']) t2)
      as (t2' & more2 & ->).
    exists (t2' :: more2). auto.
Qed.

Lemma tag_of_lines pre tagline conts post :
  starts_tag tagline = true ->
  forallb (fun line => negb (starts_tag line)) conts = true ->
  match post with [] => true | line :: _ => starts_tag line end = true ->
  let tag := nth (S (List.length (filter starts_tag pre)))
                 (tags_loop d n (pre ++ tagline :: conts ++ post) 0 [empty_tag])
                 empty_tag in
  name tag = tag_name tagline
  /\ type tag = get_doc_type (tag_name tagline)
  /\ value tag = continued (tag_text tagline) conts.
Proof.
  intros Htag Hconts Hpost. cbv zeta.
  rewrite tags_loop_app. simpl Nat.add.
  pose proof (tags_loop_length d n pre 0 [] empty_tag) as Hlen.
  destruct (tags_loop_keeps d n pre 0 [] empty_tag) as (t0 & more & E).
  simpl in Hlen, E. rewrite E in *. clear E.
  destruct (exists_last (l := t0 :: more)) as (R1 & tb & E); [discriminate|].
  rewrite E in *. clear E. rewrite length_app in Hlen. simpl in Hlen.
  assert (HR1 : List.length R1 = List.length (filter starts_tag pre)) by lia.
  clear Hlen. simpl tags_loop.
  destruct (step_content R1 tb tagline (List.length pre)) as (tg & -> & Hn & Ht & Hv).
  rewrite Htag in *.
  replace (R1 ++ [tb; tg]) with ((R1 ++ [tb]) ++ [tg])
    by (rewrite <- app_assoc; reflexivity).
  destruct (tags_loop_kept conts post (S (List.length pre)) (R1 ++ [tb]) tg Hconts Hpost)
    as (tg' & tail & -> & Hn' & Ht' & Hv').
  rewrite <- HR1. rewrite <- !app_assoc.
  replace (S (List.length R1)) with (List.length (R1 ++ [tb]) + 0)
    by (rewrite length_app; simpl; lia).
  rewrite app_assoc. rewrite app_nth2_plus. simpl.
  split; [congruence|]. split; [congruence|]. rewrite Hv', Hv. reflexivity.
Qed.

Lemma leading_text conts post :
  forallb (fun line => negb (starts_tag line)) conts = true ->
  match post with [] => true | line :: _ => starts_tag line end = true ->
  let tag := nth 0 (tags_loop d n (conts ++ post) 0 [empty_tag]) empty_tag in
  name tag = ""%string /\ value tag = continued ""%string conts.
Proof.
  intros Hconts Hpost. cbv zeta.
  destruct (tags_loop_kept conts post 0 [] empty_tag Hconts Hpost)
    as (t' & tail & E & Hn & Ht & Hv).
  simpl in E. rewrite E. simpl. auto.
Qed.

End TagContents.

(** X14.  What a tag holds.  In the lines extracted from a comment, a
    line that starts with ['@'] opens a tag, and the lines after it up
    to the next such line continue it.  The tag's name is the opening
    line up to its first space, its kind is the kind of that name, and
    its value is the rest of the opening line after that space,
    followed by each continuing line after one space.  The lines
    before the first tag are kept in the same way in the first element
    of the result, which has the empty name. *)
Theorem tag_holds_its_lines :
  forall (line_num_of_function_declaration : Z) (phpdoc : string),
    (forall pre tagline conts post,
        scan_lines phpdoc [""] false = Some (pre ++ tagline :: conts ++ post)%list ->
        starts_tag tagline = true ->
        forallb (fun line => negb (starts_tag line)) conts = true ->
        match post with [] => true | line :: _ => starts_tag line end = true ->
        let tag := nth (S (List.length (filter starts_tag pre)))
                       (fst (parse_php_doc line_num_of_function_declaration phpdoc))
                       empty_tag in
        name tag = tag_name tagline
        /\ type tag = get_doc_type (tag_name tagline)
        /\ value tag = continued (tag_text tagline) conts)
    /\ (forall conts post,
           scan_lines phpdoc [""] false = Some (conts ++ post)%list ->
           forallb (fun line => negb (starts_tag line)) conts = true ->
           match post with [] => true | line :: _ => starts_tag line end = true ->
           let tag := nth 0 (fst (parse_php_doc line_num_of_function_declaration phpdoc))
                          empty_tag in
           name tag = "" /\ value tag = continued "" conts).
Proof.
  intros d phpdoc. split.
  - intros pre tagline conts post Hscan Htag Hconts Hpost. cbv zeta.
    unfold parse_php_doc, tags_of_lines. rewrite Hscan. cbn [fst].
    apply tag_of_lines; assumption.
  - intros conts post Hscan Hconts Hpost. cbv zeta.
    unfold parse_php_doc, tags_of_lines. rewrite Hscan. cbn [fst].
    apply leading_text; assumption.
Qed.

(** X14 at work: a tag of two lines after a line of text. *)
Lemma tag_holds_its_lines_instance :
  let phpdoc := comment ["* Adds."; "* @param int $x the first"; "*   and only"; "* @return int"] in
  let tag := nth (S (List.length (filter starts_tag ["Adds."])))
                 (fst (parse_php_doc 0 phpdoc)) empty_tag in
  name tag = tag_name "@param int $x the first"
  /\ type tag = get_doc_type (tag_name "@param int $x the first")
  /\ value tag = continued (tag_text "@param int $x the first") ["and only"].
Proof.
  apply (proj1 (tag_holds_its_lines
                  0 (comment ["* Adds."; "* @param int $x the first"; "*   and only";
                              "* @return int"]))
               ["Adds."] "@param int $x the first" ["and only"] ["@return int"]);
    reflexivity.
Defined.

(** ** Looking a tag up *)

Lemma find_tag_loop_nth tags kind :
  forall idx offset,
    find_tag_loop tags kind idx offset
    = option_map split_var_and_type
        (nth_error (filter (fun tag => doc_type_eqb (type tag) kind) tags)
                   (Z.to_nat (offset - idx))).
Proof.
  induction tags as [|tag tags IH]; intros idx offset; simpl.
  - destruct (Z.to_nat (offset - idx)); reflexivity.
  - destruct (doc_type_eqb (type tag) kind); [|apply IH].
    destruct (offset <=? idx)%Z eqn:Hle.
    + apply Z.leb_le in Hle. replace (Z.to_nat (offset - idx)) with 0 by lia. reflexivity.
    + apply Z.leb_gt in Hle. rewrite IH.
      replace (Z.to_nat (offset - idx)) with (S (Z.to_nat (offset - (idx + 1)))) by lia.
      reflexivity.
Qed.

Lemma existsb_filter_nth {A : Type} (p : A -> bool) (l : list A) :
  existsb p l = true <-> nth_error (filter p l) 0 <> None.
Proof.
  induction l as [|a l IH]; simpl.
  - split; [discriminate | intros H; contradiction H; reflexivity].
  - destruct (p a); simpl; [split; [discriminate | reflexivity] | exact IH].
Qed.

Lemma parse_php_doc_ill_marked d phpdoc :
  well_marked phpdoc = false -> parse_php_doc d phpdoc = ([], [msg_failed_php_doc]).
Proof.
  intros Hwm. unfold parse_php_doc.
  destruct (scan_lines phpdoc [""] false) as [lines|] eqn:E; [|reflexivity].
  assert (well_marked phpdoc = true)
    by (apply (scan_lines_well_marked phpdoc [""] false); eauto).
  congruence.
Qed.

(** X15.  A lookup returns the tag of that rank among the tags of the
    kind.  [find_tag_in_phpdoc] with the offset [k] splits the value of
    the [k]-th tag of the given kind, counted from 0 in the order of
    the comment; an offset below 0 is the same as 0, and an offset at
    or beyond the number of such tags finds nothing.
    [is_tag_in_phpdoc] says whether the offset 0 finds a tag.  When the
    comment cannot be split into lines nothing is found, whatever the
    kind and the offset. *)
Theorem lookup_returns_the_tag_of_that_rank :
  forall (line : Z) (phpdoc : string) (kind : doc_type),
    let found := filter (fun tag => doc_type_eqb (type tag) kind)
                        (fst (parse_php_doc line phpdoc)) in
    (forall offset,
        find_tag_in_phpdoc line phpdoc kind offset
        = option_map split_var_and_type (nth_error found (Z.to_nat offset)))
    /\ (forall offset,
           (offset <= 0)%Z ->
           find_tag_in_phpdoc line phpdoc kind offset = find_tag_in_phpdoc line phpdoc kind 0)
    /\ (forall offset,
           (Z.of_nat (List.length found) <= offset)%Z ->
           find_tag_in_phpdoc line phpdoc kind offset = None)
    /\ (is_tag_in_phpdoc line phpdoc kind = true
        <-> find_tag_in_phpdoc line phpdoc kind 0 <> None)
    /\ (well_marked phpdoc = false ->
        is_tag_in_phpdoc line phpdoc kind = false
        /\ forall offset, find_tag_in_phpdoc line phpdoc kind offset = None).
Proof.
  intros line phpdoc kind found.
  assert (Hfind : forall offset,
             find_tag_in_phpdoc line phpdoc kind offset
             = option_map split_var_and_type (nth_error found (Z.to_nat offset))).
  { intros offset. unfold find_tag_in_phpdoc. rewrite find_tag_loop_nth.
    rewrite Z.sub_0_r. reflexivity. }
  split; [exact Hfind|]. split; [|split; [|split]].
  - intros offset Hle. rewrite !Hfind. replace (Z.to_nat offset) with 0 by lia. reflexivity.
  - intros offset Hge. rewrite Hfind.
    replace (nth_error found (Z.to_nat offset)) with (@None php_doc_tag); [reflexivity|].
    symmetry. apply nth_error_None. lia.
  - rewrite Hfind. unfold is_tag_in_phpdoc. rewrite existsb_filter_nth. fold found.
    change (Z.to_nat 0) with 0. destruct (nth_error found 0); simpl; split; congruence.
  - intros Hwm.
    pose proof (parse_php_doc_ill_marked line phpdoc Hwm) as E.
    unfold is_tag_in_phpdoc. split.
    + rewrite E. reflexivity.
    + intros offset. rewrite Hfind. unfold found. rewrite E. simpl.
      destruct (Z.to_nat offset); reflexivity.
Qed.

(** X15 at work: the second [@param] of a comment. *)
Lemma lookup_returns_the_tag_of_that_rank_instance :
  find_tag_in_phpdoc 0 (comment ["* @param int $a"; "* @param string $b"]) param 2 = None
  /\ find_tag_in_phpdoc 0 (comment ["* @param int $a"; "* @param string $b"]) param 1
     = Some ("b", "string").
Proof.
  split.
  - apply (proj1 (proj2 (proj2 (lookup_returns_the_tag_of_that_rank
                                  0 (comment ["* @param int $a"; "* @param string $b"])
                                  param)))).
    vm_compute. discriminate.
  - rewrite (proj1 (lookup_returns_the_tag_of_that_rank
                      0 (comment ["* @param int $a"; "* @param string $b"]) param)).
    reflexivity.
Defined.

(** ** The shape of a token *)

Lemma find_first c (str : string) :
  forall from p, Str.find c str from = Some p ->
    forall q, from <= q -> q < p -> Str.at_ str q <> c.
Proof.
  unfold Str.at_. induction str as [|a str IH]; intros from p H q Hfrom Hq; simpl in H.
  - discriminate.
  - destruct from as [|from].
    + destruct (Ascii.eqb a c) eqn:Hac.
      * injection H as <-. lia.
      * destruct (Str.find c str 0) as [p'|] eqn:E; [|discriminate].
        injection H as <-. destruct q as [|q]; simpl.
        -- apply Ascii.eqb_neq. exact Hac.
        -- apply (IH 0 p' E); lia.
    + destruct (Str.find c str from) as [p'|] eqn:E; [|discriminate].
      injection H as <-. destruct q as [|q]; [lia|]. simpl. apply (IH from p' E); lia.
Qed.

Lemma find_none c (str : string) :
  forall from, Str.find c str from = None ->
    forall q, from <= q -> q < String.length str -> Str.at_ str q <> c.
Proof.
  unfold Str.at_. induction str as [|a str IH]; intros from H q Hfrom Hq; simpl in *.
  - lia.
  - destruct from as [|from].
    + destruct (Ascii.eqb a c) eqn:Hac; [discriminate|].
      destruct (Str.find c str 0) eqn:E; [discriminate|].
      destruct q as [|q]; simpl.
      * apply Ascii.eqb_neq. exact Hac.
      * apply (IH 0 E); lia.
    + destruct (Str.find c str from) eqn:E; [discriminate|].
      destruct q as [|q]; [lia|]. simpl. apply (IH from E); lia.
Qed.

Lemma no_space_substring (str : string) :
  forall a n,
    (forall q, a <= q -> q < a + n -> Str.at_ str q <> " "%char) ->
    no_space (substring a n str) = true.
Proof.
  unfold Str.at_. induction str as [|c str IH]; intros a n H.
  - destruct a, n; reflexivity.
  - destruct a as [|a].
    + destruct n as [|n]; [reflexivity|]. simpl.
      pose proof (H 0 ltac:(lia) ltac:(lia)) as H0. simpl in H0.
      apply Ascii.eqb_neq in H0. rewrite H0. simpl.
      apply IH. intros q Hq1 Hq2. exact (H (S q) ltac:(lia) ltac:(lia)).
    + simpl. apply IH. intros q Hq1 Hq2. exact (H (S q) ltac:(lia) ltac:(lia)).
Qed.

Lemma token_start_stop value chars_offset :
  let start := token_start value chars_offset in
  start < String.length value -> Str.at_ value start <> " "%char.
Proof.
  cbv zeta. unfold token_start.
  set (co := chars_offset + Str.leading_spaces value). intros Hlt.
  destruct (leading_spaces_stop (Str.substr_from value co)) as [_ Hstop].
  rewrite at_substr_from in Hstop. apply Hstop.
  unfold Str.substr_from at 2. rewrite length_substring by lia. lia.
Qed.

Lemma token_shape value chars_offset :
  let start := token_start value chars_offset in
  let token := get_value_token value chars_offset in
  (token = "" <-> String.length value <= start)
  /\ (exists n, token = Str.substr value start n)
  /\ (no_space token = true
      \/ exists word, token = word ++ " ..." /\ no_space word = true /\ word <> "").
Proof.
  revert value chars_offset.
  intros value chars_offset. cbv zeta. rewrite get_value_token_eq. cbv zeta.
  set (start := token_start value chars_offset).
  destruct (String.length value <=? start) eqn:Hend.
  { apply Nat.leb_le in Hend. split; [tauto|]. split; [|left; reflexivity].
    exists 0. unfold Str.substr. rewrite substring_nothing. reflexivity. }
  apply Nat.leb_gt in Hend.
  pose proof (token_start_stop value chars_offset Hend) as Hstart. fold start in Hstart.
  assert (Hnonempty : forall n, 0 < n -> start + n <= String.length value ->
                                substring start n value <> "").
  { intros n Hn Hle E. pose proof (length_substring value start n Hle) as L.
    rewrite E in L. simpl in L. lia. }
  destruct (Str.find " " value start) as [pos|] eqn:Hfind.
  - destruct (find_spec _ _ _ _ Hfind) as (Hge & Hlt & Hat).
    assert (Hgt : start < pos).
    { destruct (Nat.eq_dec start pos) as [E|]; [|lia]. rewrite E in Hstart. contradiction. }
    assert (Hword : no_space (substring start (pos - start) value) = true).
    { apply no_space_substring. intros q Hq1 Hq2. apply (find_first _ _ _ _ Hfind); lia. }
    destruct ((pos + 5 <? String.length value)
              && String.eqb (Str.substr value pos 5) varg_dots_dollar) eqn:Hvar.
    + apply andb_true_iff in Hvar. destruct Hvar as [Hin Hdots].
      apply Nat.ltb_lt in Hin. apply String.eqb_eq in Hdots. unfold Str.substr in *.
      assert (Htok : substring start (pos + 4 - start) value
                     = (substring start (pos - start) value ++ " ...")%string).
      { replace (pos + 4 - start) with ((pos - start) + 4) by lia.
        rewrite substring_split. f_equal.
        replace (start + (pos - start)) with pos by lia.
        rewrite <- (substring_substring value pos 4 5) by lia. rewrite Hdots. reflexivity. }
      split; [|split].
      * split; [|lia]. intros E. exfalso. apply (Hnonempty (pos + 4 - start)); [lia | lia | exact E].
      * exists (pos + 4 - start). reflexivity.
      * right. exists (substring start (pos - start) value).
        split; [exact Htok|]. split; [exact Hword|]. apply Hnonempty; lia.
    + unfold Str.substr. split; [|split].
      * split; [|lia]. intros E. exfalso. apply (Hnonempty (pos - start)); [lia | lia | exact E].
      * exists (pos - start). reflexivity.
      * left. exact Hword.
  - unfold Str.substr_from. split; [|split].
    + split; [|lia]. intros E. exfalso.
      apply (Hnonempty (String.length value - start)); [lia | lia | exact E].
    + exists (String.length value - start). reflexivity.
    + left. apply no_space_substring. intros q Hq1 Hq2.
      apply (find_none _ _ _ Hfind); lia.
Qed.



Lemma one_word_token value chars_offset : one_word (get_value_token value chars_offset).
Proof.
  destruct (proj2 (proj2 (token_shape value chars_offset))) as [H | (word & E & Hw & _)].
  - left. exact H.
  - right. exists word. auto.
Qed.

Lemma one_word_tail c rest : one_word (String c rest) -> one_word rest.
Proof.
  intros [H | (word & E & Hw)].
  - left. simpl in H. apply andb_true_iff in H. tauto.
  - destruct word as [|a word].
    + simpl in E. injection E as _ ->. left. reflexivity.
    + simpl in E. injection E as _ ->. right. exists word. split; [reflexivity|].
      simpl in Hw. apply andb_true_iff in Hw. tauto.
Qed.

Lemma one_word_substr_from_1 text : one_word text -> one_word (Str.substr_from text 1).
Proof.
  destruct text as [|c rest]; [intros _; left; reflexivity|].
  rewrite substr_from_tail. apply one_word_tail.
Qed.

Lemma split_var_and_type_words tag :
  one_word (fst (split_var_and_type tag)) /\ one_word (snd (split_var_and_type tag)).
Proof.
  unfold split_var_and_type. cbv zeta.
  repeat break_if; simpl; split;
    try apply one_word_substr_from_1; try apply one_word_token.
  left. reflexivity.
Qed.

(** X17.  What a lookup returns are words.  The variable name and the
    type text that [find_tag_in_phpdoc] returns hold no space, but for
    a variadic marker [" ..."] at their end: whatever free text the
    tag goes on with, the type text handed to the type parser is the
    single word it was written as. *)
Theorem lookup_returns_words :
  forall (line : Z) (phpdoc : string) (kind : doc_type) (offset : Z)
         (var_name type_str : string),
    find_tag_in_phpdoc line phpdoc kind offset = Some (var_name, type_str) ->
    one_word var_name /\ one_word type_str.
Proof.
  intros line phpdoc kind offset var_name type_str H.
  unfold find_tag_in_phpdoc in H. rewrite find_tag_loop_nth in H.
  destruct (nth_error _ _) as [tag|]; [|discriminate H].
  simpl in H. injection H as H.
  pose proof (split_var_and_type_words tag) as W. rewrite H in W. exact W.
Qed.

(** X17 at work: a tag with free text after the variable. *)
Lemma lookup_returns_words_instance : one_word "x" /\ one_word "int[]".
Proof.
  apply (lookup_returns_words 0 "* @param int[] $x the numbers to add" param 0).
  reflexivity.
Defined.

(** X18.  The loops of the parser end.  Every loop of the parser is
    entered at most as many times as there are characters left, and
    the nesting of type expressions is at most as deep: from a
    position of the text [s], [parse_type_expression] nested at most
    [d] deep returns as soon as [d] exceeds the number of characters
    left, and what it returns does not depend on [d]; likewise for the
    loops over the array suffixes, over the members of a union and
    over the arguments of a parameterized type. *)
Theorem parser_loops_end :
  forall (env : Resolution) (s : string),
    (forall d pos st,
        String.length s - pos < d ->
        parse_type_expression_depth s d pos st = Some (parse_type_expression s pos st))
    /\ (forall n res pos st,
           String.length s - pos <= n ->
           array_suffix_loop s n res pos st = Some (array_suffixes s res pos st))
    /\ (forall n res has_raw_bool pos st,
           String.length s - pos <= n ->
           union_loop s (expr_call s) n res has_raw_bool pos st
           = Some (union_tail s res has_raw_bool pos st))
    /\ (forall n type_help sub_types pos st,
           pos <= String.length s -> String.length s - pos < n ->
           nested_type_loop s (expr_call s) n type_help sub_types pos st
           = Some (nested_args s type_help sub_types pos st)).
Proof.
  intros env s. split; [apply parse_type_expression_depth_enough|].
  split; [apply array_suffixes_returned|].
  split; [apply union_tail_returned | apply nested_args_returned].
Qed.

(** X18 at work: the text ["((int))"] needs no more than three levels. *)
Lemma parser_loops_end_instance :
  parse_type_expression_depth (env := example) "((int))" 8 0 init_state
  = Some (parse_type_expression (env := example) "((int))" 0 init_state).
Proof.
  apply (proj1 (parser_loops_end example "((int))")). simpl. lia.
Defined.

(** ** Writing a comment and reading it back *)

Lemma split_lines_no_newline line : no_newline line = true -> split_lines line = [line].
Proof.
  unfold no_newline. induction line as [|c line IH]; simpl; [reflexivity|].
  intros H. apply andb_true_iff in H. destruct H as [Hc Hline].
  apply negb_true_iff in Hc. rewrite Hc, (IH Hline). reflexivity.
Qed.

Lemma split_lines_append line rest :
  no_newline line = true ->
  split_lines (line ++ String Str.newline rest) = line :: split_lines rest.
Proof.
  unfold no_newline. induction line as [|c line IH]; simpl; [reflexivity|].
  intros H. apply andb_true_iff in H. destruct H as [Hc Hline].
  apply negb_true_iff in Hc. rewrite Hc, (IH Hline). reflexivity.
Qed.

Lemma split_lines_comment lines :
  lines <> [] -> forallb no_newline lines = true -> split_lines (comment lines) = lines.
Proof.
  unfold comment. induction lines as [|line lines IH]; [contradiction|].
  intros _ H. simpl in H. apply andb_true_iff in H. destruct H as [Hline Hlines].
  destruct lines as [|line' lines].
  - simpl. apply split_lines_no_newline. exact Hline.
  - change (String.concat (String Str.newline "") (line :: line' :: lines))
      with (line ++ String Str.newline
                      (String.concat (String Str.newline "") (line' :: lines)))%string.
    rewrite split_lines_append by exact Hline.
    rewrite IH; [reflexivity | discriminate | exact Hlines].
Qed.

Lemma skip_blanks_none line : is_blank (Str.at_ line 0) = false -> skip_blanks line = line.
Proof.
  destruct line as [|c line]; [reflexivity|].
  change (Str.at_ (String c line) 0) with c. intros H. simpl. rewrite H. reflexivity.
Qed.

Lemma line_content_with_marker line :
  is_blank (Str.at_ line 0) = false -> line_content (with_marker line) = line.
Proof. intros H. simpl. apply skip_blanks_none. exact H. Qed.

Lemma lines_well_marked_with_marker lines :
  lines_well_marked (map with_marker lines) = true.
Proof.
  induction lines as [|line lines IH]; [reflexivity|].
  destruct lines as [|line' lines]; [reflexivity|].
  change (lines_well_marked (map with_marker (line :: line' :: lines)))
    with (marked (with_marker line) && lines_well_marked (map with_marker (line' :: lines))).
  rewrite IH. reflexivity.
Qed.

Lemma no_newline_with_marker line : no_newline line = true -> no_newline (with_marker line) = true.
Proof. intros H. exact H. Qed.

(** X19.  Lines written with their markers are read back.  For a
    non-empty list of lines that hold no newline and do not start with
    a space or a tab, the comment body made of these lines, each after
    its marker ["* "], is split by [parse_php_doc] into exactly these
    lines, and no error is reported. *)
Theorem written_lines_are_read_back :
  forall (line_num_of_function_declaration : Z) (lines : list string),
    lines <> [] ->
    forallb (fun line => no_newline line && negb (is_blank (Str.at_ line 0))) lines = true ->
    scan_lines (comment (map with_marker lines)) [""] false = Some lines
    /\ parse_php_doc line_num_of_function_declaration (comment (map with_marker lines))
       = (tags_of_lines line_num_of_function_declaration lines, []).
Proof.
  intros d lines Hne Hlines.
  assert (Hsplit : split_lines (comment (map with_marker lines)) = map with_marker lines).
  { apply split_lines_comment.
    - destruct lines; [contradiction | discriminate].
    - rewrite forallb_forall in *. intros l Hin. apply in_map_iff in Hin.
      destruct Hin as (l0 & <- & Hin). apply Hlines in Hin.
      apply andb_true_iff in Hin. apply no_newline_with_marker. tauto. }
  assert (Hback : map line_content (map with_marker lines) = lines).
  { rewrite map_map. rewrite <- (map_id lines) at 2. apply map_ext_in.
    intros l Hin. rewrite forallb_forall in Hlines. apply Hlines in Hin.
    apply andb_true_iff in Hin. destruct Hin as [_ Hb]. apply negb_true_iff in Hb.
    apply line_content_with_marker. exact Hb. }
  assert (Hwm : well_marked (comment (map with_marker lines)) = true).
  { unfold well_marked. rewrite Hsplit. apply lines_well_marked_with_marker. }
  assert (H : scan_lines (comment (map with_marker lines)) [""] false = Some lines).
  { destruct (proj2 (scan_lines_well_marked _ [""] false) Hwm) as [lines' H].
    rewrite H. f_equal.
    destruct (scan_lines_content _ [] "" false lines' H ltac:(reflexivity))
      as (l0 & rest & E & ->).
    simpl. rewrite <- Hback, <- Hsplit, E. reflexivity. }
  split; [exact H|]. unfold parse_php_doc. rewrite H. reflexivity.
Qed.

(** X19 at work: two lines. *)
Lemma written_lines_are_read_back_instance :
  scan_lines (comment (map with_marker ["@param int $x"; "@return int"])) [""] false
  = Some ["@param int $x"; "@return int"].
Proof.
  apply (proj1 (written_lines_are_read_back 0 ["@param int $x"; "@return int"]
                  ltac:(discriminate) eq_refl)).
Defined.

(** ** The line of the declaration *)

Section TagsAndLines.

Local Open Scope list_scope.

Lemma tags_loop_same_content todo :
  forall d n i d' n' i' result t result' t',
    map tag_content (result ++ [t]) = map tag_content (result' ++ [t']) ->
    map tag_content (tags_loop d n todo i (result ++ [t]))
    = map tag_content (tags_loop d' n' todo i' (result' ++ [t'])).
Proof.
  induction todo as [|line todo IH]; intros d n i d' n' i' result t result' t' H; simpl.
  - exact H.
  - destruct (step_content d n result t line i) as (t1 & -> & Hn & Ht & Hv).
    destruct (step_content d' n' result' t' line i') as (t1' & -> & Hn' & Ht' & Hv').
    rewrite !map_app in H. simpl in H. apply app_inj_tail in H. destruct H as [Hres Htt].
    pose proof Htt as Hsame. unfold tag_content in Htt. injection Htt as E1 E2 E3.
    assert (Hc : tag_content t1 = tag_content t1').
    { unfold tag_content. rewrite Hn, Hn', Ht, Ht', Hv, Hv', E1, E2, E3. reflexivity. }
    destruct (starts_tag line).
    + replace (result ++ [t; t1]) with ((result ++ [t]) ++ [t1])
        by (rewrite <- app_assoc; reflexivity).
      replace (result' ++ [t'; t1']) with ((result' ++ [t']) ++ [t1'])
        by (rewrite <- app_assoc; reflexivity).
      apply IH. rewrite !map_app. simpl. rewrite Hres, Hc, Hsame. reflexivity.
    + apply IH. rewrite !map_app. simpl. rewrite Hres, Hc. reflexivity.
Qed.

Lemma find_tag_loop_same_content tags :
  forall tags' kind idx offset,
    map tag_content tags = map tag_content tags' ->
    find_tag_loop tags kind idx offset = find_tag_loop tags' kind idx offset.
Proof.
  induction tags as [|t tags IH]; intros [|t' tags'] kind idx offset H;
    try discriminate H; [reflexivity|].
  simpl in H. injection H as E1 E2 E3 H. simpl. rewrite E2.
  destruct (doc_type_eqb (type t') kind); [|apply IH; exact H].
  destruct (offset <=? idx)%Z; [|apply IH; exact H].
  unfold split_var_and_type. rewrite E3. reflexivity.
Qed.

Lemma existsb_same_content tags :
  forall tags' kind,
    map tag_content tags = map tag_content tags' ->
    existsb (fun tag => doc_type_eqb (type tag) kind) tags
    = existsb (fun tag => doc_type_eqb (type tag) kind) tags'.
Proof.
  induction tags as [|t tags IH]; intros [|t' tags'] kind H;
    try discriminate H; [reflexivity|].
  simpl in H. injection H as E1 E2 E3 H. simpl. rewrite E2, (IH tags' kind H). reflexivity.
Qed.

Lemma parse_php_doc_same_content d d' phpdoc :
  map tag_content (fst (parse_php_doc d phpdoc))
  = map tag_content (fst (parse_php_doc d' phpdoc)).
Proof.
  unfold parse_php_doc, tags_of_lines.
  destruct (scan_lines phpdoc [""%string] false) as [lines|]; [|reflexivity].
  cbn [fst].
  apply (tags_loop_same_content lines d _ 0 d' _ 0 [] empty_tag [] empty_tag).
  reflexivity.
Qed.

Lemma find_tag_in_phpdoc_any_line d d' phpdoc kind offset :
  find_tag_in_phpdoc d phpdoc kind offset = find_tag_in_phpdoc d' phpdoc kind offset.
Proof.
  unfold find_tag_in_phpdoc. apply find_tag_loop_same_content.
  apply parse_php_doc_same_content.
Qed.

End TagsAndLines.

(** X21.  The line of the declaration changes the line numbers only.
    Whatever line the declaration is on, known or not, [parse_php_doc]
    returns the same tags up to their line numbers (the same names,
    kinds and values, in the same order) and the same errors, and
    [find_tag_in_phpdoc] and [is_tag_in_phpdoc] give the same
    answers. *)
Theorem line_of_declaration_changes_line_numbers_only :
  forall (line line' : Z) (phpdoc : string),
    map tag_content (fst (parse_php_doc line phpdoc))
    = map tag_content (fst (parse_php_doc line' phpdoc))
    /\ snd (parse_php_doc line phpdoc) = snd (parse_php_doc line' phpdoc)
    /\ (forall kind offset,
           find_tag_in_phpdoc line phpdoc kind offset
           = find_tag_in_phpdoc line' phpdoc kind offset)
    /\ (forall kind,
           is_tag_in_phpdoc line phpdoc kind = is_tag_in_phpdoc line' phpdoc kind).
Proof.
  intros line line' phpdoc. split; [apply parse_php_doc_same_content|]. split.
  - unfold parse_php_doc. destruct (scan_lines phpdoc [""] false); reflexivity.
  - split.
    + intros kind offset. apply find_tag_in_phpdoc_any_line.
    + intros kind. unfold is_tag_in_phpdoc. apply existsb_same_content.
      apply parse_php_doc_same_content.
Qed.

(** ** The unit tests of the file *)

Lemma correct_any_line line test : correct line test = correct 0 test.
Proof. unfold correct. rewrite (find_tag_in_phpdoc_any_line line 0). reflexivity. Qed.

(** X20.  The unit tests of [run_tipa_unit_tests_parsing_tags] pass.
    Wherever they are run, each of the fifteen cases of the table is
    [correct]: the lookup of a [@var] tag finds a tag exactly in the
    cases marked as passing, and then returns the variable name and
    the type text the table gives; the count of cases not passed that
    the function prints is 0. *)
Theorem unit_tests_pass :
  forall line : Z,
    n_not_passed line tests = 0
    /\ forallb (correct line) tests = true
    /\ map (ok_str line) tests
       = [ "ok"; "ok"; "ok"; "ok"; "ok"; "ok (was not parsed)"; "ok (was not parsed)";
           "ok"; "ok"; "ok"; "ok"; "ok"; "ok"; "ok"; "ok" ].
Proof.
  intros line.
  assert (Hn : n_not_passed line tests = n_not_passed 0 tests).
  { unfold n_not_passed. f_equal. apply filter_ext. intros test.
    rewrite correct_any_line. reflexivity. }
  assert (Hc : forallb (correct line) tests = forallb (correct 0) tests).
  { generalize tests as l. induction l as [|test l IH]; [reflexivity|].
    simpl. rewrite correct_any_line, IH. reflexivity. }
  assert (Hs : map (ok_str line) tests = map (ok_str 0) tests).
  { apply map_ext. intros test. unfold ok_str. rewrite correct_any_line. reflexivity. }
  rewrite Hn, Hc, Hs. split; [|split]; vm_compute; reflexivity.
Qed.
